(** * KeyCRM <-> Checkbox bridge: catalog reconciliation and sale ingestion

    A shallow embedding of the bridge's mapper ([src/utils/mapper.js]), of
    its catalog reconciler ([src/routes/sync.js]), of the Checkbox group
    cache ([services/checkbox.js]) and of the webhook receiver
    ([routes/webhook.js]), with the properties the specification states
    about them.

    Conventions of the embedding
    - a JavaScript string is the list of its UTF-16 code units ([N]);
    - [undefined] and [null] are [None]; a JavaScript truthiness test is
      written out at each use ([truthy], [truthyZ], [nonempty], ...);
    - a JavaScript number is an exact rational ([Q]) or, where the source
      only carries integers (kopecks, identifiers), an integer ([Z]);
      the rounding error of doubles is not modelled;
    - [toLowerCase] follows Unicode on Basic Latin, Latin-1 and Cyrillic
      text, and statements that depend on it are made for such text;
    - [await] is sequencing: the routes are modelled as state-passing
      functions over the state of the remote service they talk to;
    - a rejected promise / thrown exception is the [Throw] result.

    The repository keeps several revisions of the routes and of the
    Checkbox service side by side; each definition says which one it
    follows when they differ. *)

From Stdlib Require Import ZArith NArith QArith Qround List String Ascii Bool Lia.
From Stdlib Require Import DecimalString.
From stdpp Require Import gmap strings list fin_maps.

Close Scope Q_scope.
Local Open Scope N_scope.

#[local] Set Warnings "-clear-no-such-hyp".

(* ===================================================================== *)
(** * JavaScript strings *)
(* ===================================================================== *)

Module JsString.

(** A string is its sequence of UTF-16 code units. *)
Abbreviation jsstring := (list N).

(** An ASCII literal of the source, as code units. *)
Definition js (s : string) : jsstring :=
  List.map N_of_ascii (list_ascii_of_string s).

Arguments js _ : simpl never.

(** [if (s)] on a string: only the empty string is falsy. *)
Definition nonempty (s : jsstring) : bool :=
  match s with [] => false | _ :: _ => true end.

(** [if (x)] on a possibly missing string. *)
Definition truthy (x : option jsstring) : bool :=
  match x with Some s => nonempty s | None => false end.

Definition in_range (lo hi c : N) : bool := (lo <=? c) && (c <=? hi).

Definition is_upper (c : N) : bool := in_range 65 90 c.
Definition is_lower (c : N) : bool := in_range 97 122 c.
Definition is_digit (c : N) : bool := in_range 48 57 c.
Definition hyphen : N := 45.
Definition underscore : N := 95.

(** [\w] of a regular expression without the [u] flag: [A-Za-z0-9_]. *)
Definition is_word (c : N) : bool :=
  is_upper c || is_lower c || is_digit c || (c =? underscore).

(** [\s], which is also what [String.prototype.trim] removes: the
    ECMAScript WhiteSpace and LineTerminator code units. *)
Definition is_space (c : N) : bool :=
  in_range 9 13 c || (c =? 32) || (c =? 160) || (c =? 5760)
  || in_range 8192 8202 c || (c =? 8232) || (c =? 8233) || (c =? 8239)
  || (c =? 8287) || (c =? 12288) || (c =? 65279).

Fixpoint dropWhile (p : N -> bool) (s : jsstring) : jsstring :=
  match s with
  | [] => []
  | c :: r => if p c then dropWhile p r else s
  end.

(** Removes the characters satisfying [p] at the end of [s]. *)
Definition dropWhileEnd (p : N -> bool) (s : jsstring) : jsstring :=
  rev (dropWhile p (rev s)).

(** [s.trim()] *)
Definition trim (s : jsstring) : jsstring :=
  dropWhileEnd is_space (dropWhile is_space s).

(** Lower-case form of one code unit.  Basic Latin, Latin-1 and the
    Cyrillic and Cyrillic Supplement blocks (U+0400 to U+052F) are mapped
    as Unicode maps them, and so are the two code points outside these
    blocks whose lower-case form contains an ASCII letter (U+0130,
    U+212A).  The rest of the Unicode table is not reproduced: any other
    code unit is kept, and its true lower-case form is again outside
    ASCII and is not white space.  Statements that compare lower-cased
    names are therefore made for text within the blocks mapped here. *)
Definition lower_unit (c : N) : jsstring :=
  if is_upper c then [c + 32]
  else if in_range 192 214 c || in_range 216 222 c then [c + 32]
  else if c =? 304 then [105; 775]
  else if in_range 1024 1039 c then [c + 80]
  else if in_range 1040 1071 c then [c + 32]
  else if (in_range 1120 1153 c || in_range 1162 1215 c || in_range 1232 1327 c)
          && N.even c then [c + 1]
  else if c =? 1216 then [1231]
  else if in_range 1217 1230 c && N.odd c then [c + 1]
  else if c =? 8490 then [107]
  else [c].

(** [s.toLowerCase()] *)
Definition toLowerCase (s : jsstring) : jsstring := flat_map lower_unit s.

(** Upper-case form of one code unit: ASCII, and the code points outside
    ASCII that yield the letters S, E or L (U+017F long s, U+00DF sharp
    s); other code units are kept (see [lower_unit]). *)
Definition upper_unit (c : N) : jsstring :=
  if is_lower c then [c - 32]
  else if c =? 383 then [83]
  else if c =? 223 then [83; 83]
  else [c].

(** [s.toUpperCase()] *)
Definition toUpperCase (s : jsstring) : jsstring := flat_map upper_unit s.

Definition eqb (a b : jsstring) : bool := bool_decide (a = b).

Fixpoint startsWith (p s : jsstring) : bool :=
  match p, s with
  | [], _ => true
  | _ :: _, [] => false
  | a :: p', b :: s' => (a =? b) && startsWith p' s'
  end.

(** [s.includes(p)] *)
Fixpoint includes (p s : jsstring) : bool :=
  startsWith p s ||
  match s with
  | [] => false
  | _ :: r => includes p r
  end.

(** [String(n)] for an integer [n]. *)
Definition ofZ (n : Z) : jsstring :=
  js (NilZero.string_of_int (Z.to_int n)).

End JsString.

Import JsString.

(* ===================================================================== *)
(** * src/utils/mapper.js *)
(* ===================================================================== *)

Module Mapper.

(** A KeyCRM product or offer, with the fields the bridge reads. *)
Record Unit := mkUnit {
  id : Z;
  name : option jsstring;
  sku : option jsstring;
  barcode : option jsstring;
  price : option Q;
  properties : list jsstring
}.

(** [.replace(/[^\w\s-]/g, '')] *)
Definition stripSpecial (s : jsstring) : jsstring :=
  List.filter (fun c => is_word c || is_space c || (c =? hyphen)) s.

Definition is_sep (c : N) : bool := is_space c || (c =? underscore).

(** [.replace(/[\s_]+/g, '-')]: every maximal run of white space and
    underscores becomes one hyphen.  [inrun] tells that the previous
    character belonged to the run being replaced. *)
Fixpoint collapseFrom (inrun : bool) (s : jsstring) : jsstring :=
  match s with
  | [] => []
  | c :: r =>
      if is_sep c
      then (if inrun then collapseFrom true r else hyphen :: collapseFrom true r)
      else c :: collapseFrom false r
  end.

Definition collapse (s : jsstring) : jsstring := collapseFrom false s.

Definition is_hyphen (c : N) : bool := c =? hyphen.

(** [.replace(/^-+|-+$/g, '')] *)
Definition stripHyphens (s : jsstring) : jsstring :=
  dropWhileEnd is_hyphen (dropWhile is_hyphen s).

Definition slugify (str : jsstring) : jsstring :=
  stripHyphens (collapse (stripSpecial (toLowerCase str))).

(** [x && x.trim()] used as a condition, with the value returned when it
    holds. *)
Definition trimmedIfAny (x : option jsstring) : option jsstring :=
  match x with
  | Some s => if nonempty s && nonempty (trim s) then Some (trim s) else None
  | None => None
  end.

(** [unit.name || `product-${unit.id}`] *)
Definition nameOrProductId (unit : Unit) : jsstring :=
  match name unit with
  | Some n => if nonempty n then n else js "product-" ++ ofZ (id unit)
  | None => js "product-" ++ ofZ (id unit)
  end.

Definition deriveCode (unit : Unit) : jsstring :=
  match trimmedIfAny (sku unit) with
  | Some s => s
  | None =>
      match trimmedIfAny (barcode unit) with
      | Some b => b
      | None => take 150 (slugify (nameOrProductId unit))
      end
  end.

(** A value stored in a request payload. *)
Inductive Value :=
| VStr (s : jsstring)
| VInt (n : Z)
| VBool (b : bool)
| VStrs (l : list jsstring).

(** A JavaScript object used as a request payload: its own properties,
    by name. *)
Abbreviation Payload := (gmap string Value).

(** [process.env]: every entry is a string or is not set. *)
Record Env := mkEnv {
  SYNC_SECRET : option jsstring;
  CHECKBOX_TAX_CODES : option jsstring;
  CHECKBOX_WEBHOOK_SECRET : option jsstring;
  KEYCRM_SOURCE_ID : option Z;
  KEYCRM_PAYMENT_METHOD_ID : option Z;
  KEYCRM_ORDER_STATUS_ID : option Z;
  KEYCRM_BUYER_ID : option Z;
  KEYCRM_BUYER_EMAIL : option jsstring
}.

(** [Math.round]: the nearest integer, halves towards plus infinity.
    The argument is an exact rational here and a double in the code: the
    two results differ when the product computed in doubles falls on the
    other side of a half than the exact one, as for [1.005 * 100], which
    is rounded to 100 by the code and to 101 here.  No statement below
    depends on which way a price that close to half a kopeck is
    rounded. *)
Definition Math_round (x : Q) : Z := Qfloor (x + (1 # 2))%Q.

(** [n || 0] on a possibly missing number. *)
Definition numOrZero (n : option Q) : Q :=
  match n with Some q => q | None => 0%Q end.

(** [s.split(sep)] for a one-character separator. *)
Fixpoint split (sep : N) (s : jsstring) : list jsstring :=
  match s with
  | [] => [[]]
  | c :: r =>
      if c =? sep then [] :: split sep r
      else match split sep r with
           | [] => [[c]]
           | w :: ws => (c :: w) :: ws
           end
  end.

Definition comma : N := 44.

(** [rawTaxCodes ? rawTaxCodes.split(',').map(t => t.trim()).filter(Boolean) : []] *)
Definition taxCodesOf (env : Env) : list jsstring :=
  match CHECKBOX_TAX_CODES env with
  | Some raw =>
      if nonempty raw
      then List.filter nonempty (List.map trim (split comma raw))
      else []
  | None => []
  end.

(** [unit.name || `Product ${unit.id}`] *)
Definition expectedName (unit : Unit) : jsstring :=
  match name unit with
  | Some n => if nonempty n then n else js "Product " ++ ofZ (id unit)
  | None => js "Product " ++ ofZ (id unit)
  end.

(** [Math.round((unit.price || 0) * 100)] *)
Definition expectedPrice (unit : Unit) : Z :=
  Math_round (numOrZero (price unit) * 100)%Q.

(** The function declares three parameters. *)
Definition toCheckboxGood (env : Env) (unit : Unit) (productId : Z)
    (isOffer : bool) : Payload :=
  let code := deriveCode unit in
  let name := expectedName unit in
  let price := expectedPrice unit in
  let externalId :=
    if isOffer then js "keycrm_offer:" ++ ofZ (id unit)
    else js "keycrm_product:" ++ ofZ productId in
  let taxCodes := taxCodesOf env in
  let payload : Payload :=
    <["name" := VStr name]>
    (<["code" := VStr code]>
    (<["price" := VInt price]>
    (<["type" := VStr (js "PRODUCT")]>
    (<["is_weight" := VBool false]>
    (<["tax_codes" := VStrs taxCodes]>
    (<["external_id" := VStr externalId]> ∅)))))) in
  match trimmedIfAny (barcode unit) with
  | Some b => <["barcode" := VStr b]> payload
  | None => payload
  end.

(** A good as the Checkbox catalog returns it. *)
Record Good := mkGood {
  good_id : jsstring;
  good_code : jsstring;
  good_name : jsstring;
  good_price : Z;
  good_group_id : option jsstring
}.

Definition needsUpdate (checkboxGood : Good) (keycrmUnit : Unit) : bool :=
  negb (good_price checkboxGood =? expectedPrice keycrmUnit)%Z
  || negb (JsString.eqb (good_name checkboxGood) (expectedName keycrmUnit)).

(** [receipt.goods[i].good] *)
Record ReceiptGood := mkReceiptGood {
  rg_code : option jsstring;
  rg_barcode : option jsstring;
  rg_name : option jsstring;
  rg_price : option Q
}.

(** The empty object of [goodItem.good || {}]. *)
Definition noGood : ReceiptGood := mkReceiptGood None None None None.

(** [receipt.goods[i]] *)
Record GoodItem := mkGoodItem {
  gi_good : option ReceiptGood;
  gi_good_id : option jsstring;
  gi_quantity : option Q;
  gi_total_sum : option Q
}.

(** A KeyCRM product as the order lines read it. *)
Record CrmProduct := mkCrmProduct {
  cp_name : option jsstring;
  cp_sku : option jsstring
}.

(** A KeyCRM offer, or the object [{ sku: product.sku, product }] built
    from a product found by name. *)
Record Offer := mkOffer {
  offer_sku : option jsstring;
  offer_barcode : option jsstring;
  offer_product : option CrmProduct
}.

(** A product line of a KeyCRM order. *)
Record ProductLine := mkProductLine {
  pl_sku : option jsstring;
  pl_name : option jsstring;
  pl_price : Q;
  pl_quantity : Q
}.

(** [a || b] on numbers: zero and a missing value are falsy. *)
Definition numOr (a : option Q) (b : Q) : Q :=
  match a with
  | Some q => if Qeq_bool q 0 then b else q
  | None => b
  end.

(** [a || b] on possibly missing strings. *)
Definition strOr (a b : option jsstring) : option jsstring :=
  if truthy a then a else b.

Definition toKeycrmProduct (goodItem : GoodItem) (offer : option Offer)
    : ProductLine :=
  let good := match gi_good goodItem with Some g => g | None => noGood end in
  let quantity := (numOr (gi_quantity goodItem) 1000 / 1000)%Q in
  let price :=
    (numOr (rg_price good) (numOr (gi_total_sum goodItem) 0) / 100)%Q in
  {| pl_sku :=
       match offer with
       | Some o => strOr (offer_sku o) (rg_code good)
       | None => rg_code good
       end;
     pl_name :=
       strOr (rg_name good)
         (match offer with
          | Some o =>
              match offer_product o with
              | Some p => cp_name p
              | None => Some (js "Unknown")
              end
          | None => Some (js "Unknown")
          end);
     pl_price := price;
     pl_quantity := quantity |}.

End Mapper.

Import Mapper.

(* ===================================================================== *)
(** * Remote calls: results and errors *)
(* ===================================================================== *)

Module Http.

(** [err.response.data] of a failed call. *)
Record ErrorData := mkErrorData {
  data_message : option jsstring;
  data_detail : option jsstring
}.

(** [err.response]: present when the server answered. *)
Record Response := mkResponse {
  status : Z;
  data : option ErrorData
}.

(** The error a failed call throws. *)
Record Error := mkError {
  response : option Response;
  message : jsstring
}.

(** The outcome of an awaited call. *)
Inductive result (A : Type) :=
| Ok (a : A)
| Throw (e : Error).

Arguments Ok {A} a.
Arguments Throw {A} e.

(** [err.response?.status] *)
Definition statusOf (err : Error) : option Z :=
  match response err with Some r => Some (status r) | None => None end.

(** [err.response?.data] *)
Definition dataOf (err : Error) : option ErrorData :=
  match response err with Some r => data r | None => None end.

(** [err.response?.data?.message] *)
Definition dataMessageOf (err : Error) : option jsstring :=
  match dataOf err with Some d => data_message d | None => None end.

End Http.

Import Http.

(* ===================================================================== *)
(** * services/checkbox.js *)
(* ===================================================================== *)

Module Checkbox.

(** A goods group as the Checkbox API returns it. *)
Record Group := mkGroup {
  group_id : jsstring;
  group_name : jsstring;
  group_parent_id : option jsstring
}.

(** The calls of the Checkbox service the routes use, over the state [S]
    of the remote catalog.  The HTTP transport behind them ([client],
    [withRetry]) is not modelled. *)
Record PosApi (S : Type) := mkPosApi {
  getGoodByCode : jsstring -> S -> result (option Good) * S;
  createGood : Payload -> S -> result () * S;
  updateGood : jsstring -> Payload -> S -> result () * S;
  (* [getGroups]; [getAllGroups] in the revision that keeps [groupCache] *)
  getGroups : S -> result (list Group) * S;
  createGroup : jsstring -> option jsstring -> S -> result Group * S
}.

Arguments getGoodByCode {S} _ _ _.
Arguments createGood {S} _ _ _.
Arguments updateGood {S} _ _ _ _.
Arguments getGroups {S} _ _.
Arguments createGroup {S} _ _ _ _.

Definition sepKey : jsstring := js "::".

(** [x || ''] *)
Definition strOrEmpty (x : option jsstring) : jsstring :=
  match x with Some s => s | None => [] end.

(** The module variable [groupCache]: [null], or an object from
    ["name::parentId"] to the group identifier. *)
Abbreviation GroupCache := (option (gmap jsstring jsstring)).

(** The loop of [getOrCreateGroup] that fills a fresh cache. *)
Fixpoint fillCache (groups : list Group) (cache : gmap jsstring jsstring)
    : gmap jsstring jsstring :=
  match groups with
  | [] => cache
  | g :: rest =>
      let key := group_name g ++ sepKey ++ strOrEmpty (group_parent_id g) in
      fillCache rest (<[key := group_id g]> cache)
  end.

(** [groupCache[key]] used as a condition: a missing entry and an empty
    identifier are both falsy. *)
Definition cached (cache : gmap jsstring jsstring) (key : jsstring)
    : option jsstring :=
  match cache !! key with
  | Some i => if nonempty i then Some i else None
  | None => None
  end.

(** [getOrCreateGroup(name, parentId = null)], threading the module
    variable [groupCache] and the remote state. *)
Definition getOrCreateGroup {S} (api : PosApi S) (name : jsstring)
    (parentId : option jsstring) (groupCache : GroupCache) (s : S)
    : result jsstring * GroupCache * S :=
  let loaded :=
    match groupCache with
    | Some c => (Ok c, s)
    | None =>
        match getGroups api s with
        | (Ok groups, s1) => (Ok (fillCache groups ∅), s1)
        | (Throw e, s1) => (Throw e, s1)
        end
    end in
  match loaded with
  | (Throw e, s1) => (Throw e, groupCache, s1)
  | (Ok c, s1) =>
      let key := name ++ sepKey ++ strOrEmpty parentId in
      match cached c key with
      | Some i => (Ok i, Some c, s1)
      | None =>
          match createGroup api name parentId s1 with
          | (Ok newGroup, s2) =>
              (Ok (group_id newGroup), Some (<[key := group_id newGroup]> c), s2)
          | (Throw e, s2) => (Throw e, Some c, s2)
          end
      end
  end.

Definition clearGroupCache (groupCache : GroupCache) : GroupCache := None.

End Checkbox.

Import Checkbox.

(* ===================================================================== *)
(** * routes/sync.js *)
(* ===================================================================== *)

Module Sync.

(** A KeyCRM category of [keycrm.getProductCategories()]. *)
Record Category := mkCategory {
  cat_id : Z;
  cat_name : jsstring;
  cat_parent_id : option Z
}.

(** A KeyCRM product of [keycrm.getAllProducts()]. *)
Record Product := mkProduct {
  p_unit : Unit;
  has_offers : bool;
  category_id : option Z;
  category_ref : option Z   (* [product.category?.id] *)
}.

(** What the route reads from KeyCRM during one run. *)
Record CrmCatalog := mkCrmCatalog {
  getProductCategories : result (gmap Z Category);
  getAllProducts : result (list Product);
  getOffersByProduct : Z -> result (list Unit)
}.

(** An element of [summary.errors]. *)
Record ErrorEntry := mkErrorEntry {
  ee_id : option Z;
  ee_code : option jsstring;
  ee_reason : jsstring;
  ee_detail : option ErrorData
}.

Record Summary := mkSummary {
  created : nat;
  updated : nat;
  skipped : nat;
  errors : list ErrorEntry;
  created_names : list jsstring
}.

Definition emptySummary : Summary := mkSummary 0 0 0 [] [].

Definition pushError (e : ErrorEntry) (m : Summary) : Summary :=
  mkSummary (created m) (updated m) (skipped m) (errors m ++ [e]) (created_names m).

Definition incSkipped (m : Summary) : Summary :=
  mkSummary (created m) (updated m) (S (skipped m)) (errors m) (created_names m).

Definition incUpdated (m : Summary) : Summary :=
  mkSummary (created m) (S (updated m)) (skipped m) (errors m) (created_names m).

Definition incCreated (n : jsstring) (m : Summary) : Summary :=
  mkSummary (S (created m)) (updated m) (skipped m) (errors m) (created_names m ++ [n]).

(** An element of [units]. *)
Record UnitEntry := mkUnitEntry {
  unit : Unit;
  productId : Z;
  isOffer : bool;
  categoryId : option Z
}.

(** [if (n)] on a possibly missing number. *)
Definition truthyZ (n : option Z) : bool :=
  match n with Some z => negb (z =? 0)%Z | None => false end.

(** The key of a group in [groupMap]:
    [`${name.toLowerCase().trim()}::${parentId}`]. *)
Definition groupKey (name parentId : jsstring) : jsstring :=
  trim (toLowerCase name) ++ sepKey ++ parentId.

Definition buildGroupMap (groups : list Group) : gmap jsstring Group :=
  fold_left
    (fun map g =>
       let parentId := strOrEmpty (group_parent_id g) in
       <[groupKey (group_name g) parentId := g]> map)
    groups ∅.

(** [parentGroupId || null] *)
Definition orNull (x : jsstring) : option jsstring :=
  if nonempty x then Some x else None.

(** What [resolveGroupId] does for the parent and again for the category
    itself: [groupMap.get(key)], and on a miss [createGroup] followed by
    [groupMap.set(key, group)]. *)
Definition getOrCreateInMap {S} (api : PosApi S) (key name : jsstring)
    (parentId : option jsstring) (groupMap : gmap jsstring Group) (s : S)
    : result Group * gmap jsstring Group * S :=
  match groupMap !! key with
  | Some group => (Ok group, groupMap, s)
  | None =>
      match createGroup api name parentId s with
      | (Ok group, s1) => (Ok group, <[key := group]> groupMap, s1)
      | (Throw e, s1) => (Throw e, groupMap, s1)
      end
  end.

(** [keycrmCats.get(id)] for an identifier that passed [if (id)]. *)
Definition getCategory (keycrmCats : gmap Z Category) (i : option Z)
    : option Category :=
  if truthyZ i then keycrmCats !! default 0%Z i else None.

(** [resolveGroupId(categoryId, keycrmCats, groupMap)] of the revision
    that keeps a [Map] of groups; the map is mutated in place, so it is
    returned together with the result. *)
Definition resolveGroupId {S} (api : PosApi S) (categoryId : option Z)
    (keycrmCats : gmap Z Category) (groupMap : gmap jsstring Group) (s : S)
    : result (option jsstring) * gmap jsstring Group * S :=
  match getCategory keycrmCats categoryId with
  | None => (Ok None, groupMap, s)
  | Some cat =>
      (* the parent group, when the category has a known parent *)
      let parent :=
        match getCategory keycrmCats (cat_parent_id cat) with
        | Some parentCat =>
            let parentKey := groupKey (cat_name parentCat) [] in
            match getOrCreateInMap api parentKey (cat_name parentCat) None
                    groupMap s with
            | (Ok parentGroup, groupMap1, s1) =>
                (Ok (group_id parentGroup), groupMap1, s1)
            | (Throw e, groupMap1, s1) => (Throw e, groupMap1, s1)
            end
        | None => (Ok [], groupMap, s)
        end in
      match parent with
      | (Throw e, groupMap1, s1) => (Throw e, groupMap1, s1)
      | (Ok parentGroupId, groupMap1, s1) =>
          let key := groupKey (cat_name cat) parentGroupId in
          match getOrCreateInMap api key (cat_name cat) (orNull parentGroupId)
                  groupMap1 s1 with
          | (Ok group, groupMap2, s2) => (Ok (Some (group_id group)), groupMap2, s2)
          | (Throw e, groupMap2, s2) => (Throw e, groupMap2, s2)
          end
      end
  end.

Definition quote : jsstring := js (String (ascii_of_N 34) EmptyString).

(** [err.message || ''] and the like: the first non-empty text. *)
Definition firstText (xs : list (option jsstring)) : jsstring :=
  match List.filter truthy xs with
  | Some t :: _ => t
  | _ => []
  end.

(** The state of a run between two units: the summary, the group map and
    the remote catalog. *)
Definition RunState (S : Type) : Type := Summary * gmap jsstring Group * S.

(** The body of the upsert loop, for one element of [units]
    (revision with the group map and the 422 branch). *)
Definition syncUnit {S} (api : PosApi S) (env : Env)
    (keycrmCats : gmap Z Category) (entry : UnitEntry) (st : RunState S)
    : RunState S :=
  let '(summary, groupMap, s) := st in
  let u := unit entry in
  if negb (truthy (name u)) then
    (pushError (mkErrorEntry (Some (id u)) None (js "Missing name, skipped") None)
       summary, groupMap, s)
  else
  let code := deriveCode u in
  if negb (nonempty code) || negb (nonempty (trim code)) then
    (incSkipped
       (pushError
          (mkErrorEntry (Some (id u)) None
             (js "Empty code (no SKU/barcode/name), skipped") None) summary),
     groupMap, s)
  else
  match getGoodByCode api code s with
  | (Throw err, s1) =>
      let msg := js "Error checking code " ++ quote ++ code ++ quote
                 ++ js ": " ++ message err in
      (pushError (mkErrorEntry None (Some code) msg None) summary, groupMap, s1)
  | (Ok existing, s1) =>
      (* best effort: a failure leaves [groupId] null *)
      let '(groupId, groupMap2, s2) :=
        match resolveGroupId api (categoryId entry) keycrmCats groupMap s1 with
        | (Ok g, gm, s') => (g, gm, s')
        | (Throw _, gm, s') => (None, gm, s')
        end in
      (* [toCheckboxGood(unit, productId, isOffer, groupId)]: the callee
         has no fourth parameter, [groupId] is dropped by the call *)
      let payload := toCheckboxGood env u (productId entry) (isOffer entry) in
      match existing with
      | None =>
          match createGood api payload s2 with
          | (Ok _, s3) =>
              (incCreated (default [] (name u)) summary, groupMap2, s3)
          | (Throw err, s3) =>
              if bool_decide (statusOf err = Some 422%Z) then
                (incSkipped summary, groupMap2, s3)
              else
                let detail := dataOf err in
                let errMsg :=
                  firstText [ detail ≫= data_message; detail ≫= data_detail;
                              Some (message err) ] in
                let msg := js "Failed to create " ++ quote ++ code ++ quote
                           ++ js ": " ++ errMsg in
                (pushError (mkErrorEntry None (Some code) msg detail) summary,
                 groupMap2, s3)
          end
      | Some good =>
          if needsUpdate good u
             || (truthy groupId
                 && negb (bool_decide (good_group_id good = groupId)))
          then
            match updateGood api (good_id good) payload s2 with
            | (Ok _, s3) => (incUpdated summary, groupMap2, s3)
            | (Throw err, s3) =>
                let msg := js "Failed to update " ++ quote ++ code ++ quote
                           ++ js ": "
                           ++ firstText [ dataMessageOf err; Some (message err) ] in
                (pushError (mkErrorEntry None (Some code) msg None) summary,
                 groupMap2, s3)
            end
          else (incSkipped summary, groupMap2, s2)
      end
  end.

(** [list.join(sep)] *)
Fixpoint join (sep : jsstring) (l : list jsstring) : jsstring :=
  match l with
  | [] => []
  | [x] => x
  | x :: rest => x ++ sep ++ join sep rest
  end.

(** A value inside a template literal; a missing one prints as [null]. *)
Definition shown (x : option jsstring) : jsstring :=
  match x with Some t => t | None => js "null" end.

(** U+2014, surrounded by spaces. *)
Definition emDash : jsstring := [32; 8212; 32].

(** The two assignments to [offer.name] made before an offer is pushed. *)
Definition namedOffer (product offer : Unit) : Unit :=
  let merged := if truthy (name offer) then name offer else name product in
  let shownName :=
    match properties offer with
    | [] => merged
    | _ :: _ =>
        Some (shown (name product) ++ emDash ++ join (js ", ") (properties offer))
    end in
  mkUnit (id offer) shownName (sku offer) (barcode offer) (price offer)
    (properties offer).

(** [product.category_id || product.category?.id || null] *)
Definition categoryOf (product : Product) : option Z :=
  if truthyZ (category_id product) then category_id product
  else if truthyZ (category_ref product) then category_ref product
  else None.

(** Step 2 of the route: the flat list of syncable units. *)
Fixpoint collectUnits (crm : CrmCatalog) (products : list Product)
    : result (list UnitEntry) :=
  match products with
  | [] => Ok []
  | product :: rest =>
      let pid := id (p_unit product) in
      let mine :=
        if has_offers product then
          match getOffersByProduct crm pid with
          | Ok offers =>
              Ok (List.map
                    (fun offer =>
                       mkUnitEntry (namedOffer (p_unit product) offer) pid true
                         (categoryOf product))
                    offers)
          | Throw e => Throw e
          end
        else Ok [mkUnitEntry (p_unit product) pid false (categoryOf product)] in
      match mine with
      | Throw e => Throw e
      | Ok us =>
          match collectUnits crm rest with
          | Ok more => Ok (us ++ more)
          | Throw e => Throw e
          end
      end
  end.

(** The upsert loop. *)
Definition syncUnits {S} (api : PosApi S) (env : Env)
    (keycrmCats : gmap Z Category) (units : list UnitEntry) (st : RunState S)
    : RunState S :=
  fold_left (fun st entry => syncUnit api env keycrmCats entry st) units st.

(** What the route answers. *)
Inductive RunResponse :=
| Unauthorized                                   (* 401 *)
| Fatal (error : jsstring) (summary : Summary)   (* 500 *)
| Done (summary : Summary).                      (* 200 *)

(** Step 1: categories and groups, both or none. *)
Definition prefetch {S} (api : PosApi S) (crm : CrmCatalog) (s : S)
    : gmap Z Category * gmap jsstring Group * S :=
  match getGroups api s with
  | (Ok groups, s1) =>
      match getProductCategories crm with
      | Ok cats => (cats, buildGroupMap groups, s1)
      | Throw _ => (∅, ∅, s1)
      end
  | (Throw _, s1) => (∅, ∅, s1)
  end.

(** [router.get('/')] *)
Definition run {S} (api : PosApi S) (crm : CrmCatalog) (env : Env)
    (secret : option jsstring) (s : S) : RunResponse * S :=
  if negb (bool_decide (secret = SYNC_SECRET env)) then (Unauthorized, s) else
  let '(keycrmCats, groupMap, s1) := prefetch api crm s in
  match getAllProducts crm with
  | Throw e => (Fatal (message e) emptySummary, s1)
  | Ok products =>
      match collectUnits crm products with
      | Throw e => (Fatal (message e) emptySummary, s1)
      | Ok units =>
          let '(summary, _, s2) :=
            syncUnits api env keycrmCats units (emptySummary, groupMap, s1) in
          (Done summary, s2)
      end
  end.

(** The create branch of the revision built on [getOrCreateGroup] (and
    of the first revision): every failure is recorded as an error. *)
Definition createOrRecord {S} (api : PosApi S) (code : jsstring)
    (payload : Payload) (u : Unit) (summary : Summary) (s : S) : Summary * S :=
  match createGood api payload s with
  | (Ok _, s1) => (incCreated (default [] (name u)) summary, s1)
  | (Throw err, s1) =>
      let detail := dataOf err in
      let msg := js "Failed to create " ++ quote ++ code ++ quote ++ js ": "
                 ++ firstText [ detail ≫= data_message; Some (message err) ] in
      (pushError (mkErrorEntry None (Some code) msg detail) summary, s1)
  end.

End Sync.

Import Sync.

(* ===================================================================== *)
(** * A Checkbox catalog to run the reconciler against *)
(* ===================================================================== *)

Module PosStore.

(** The remote catalog is not part of the bridge.  This store follows
    what the specification says of it: a good is found by its [code],
    which is unique in the catalog; creating a good whose code exists is
    answered 422; an update replaces the stored record; identifiers are
    generated by the catalog. *)
Record PosState := mkPosState {
  pos_goods : gmap jsstring Good;   (* by code *)
  pos_groups : list Group;
  pos_serial : N
}.

Definition freshId (s : PosState) : jsstring :=
  js "uuid-" ++ ofZ (Z.of_N (pos_serial s)).

(** The record the catalog keeps for a payload. *)
Definition goodOfPayload (i : jsstring) (p : Payload) : option Good :=
  match p !! "code", p !! "name", p !! "price" with
  | Some (VStr c), Some (VStr n), Some (VInt pr) =>
      Some (mkGood i c n pr
              (match p !! "group_id" with Some (VStr g) => Some g | _ => None end))
  | _, _, _ => None
  end.

Definition refused (code : Z) (text : string) : Error :=
  mkError (Some (mkResponse code (Some (mkErrorData (Some (js text)) None))))
    (js "Request failed").

Definition store_getGoodByCode (code : jsstring) (s : PosState)
    : result (option Good) * PosState :=
  (Ok (pos_goods s !! code), s).

Definition store_createGood (p : Payload) (s : PosState)
    : result () * PosState :=
  match goodOfPayload (freshId s) p with
  | None => (Throw (refused 400 "Validation error"), s)
  | Some g =>
      match pos_goods s !! good_code g with
      | Some _ => (Throw (refused 422 "Good with this code already exists"), s)
      | None =>
          (Ok (), mkPosState (<[good_code g := g]> (pos_goods s)) (pos_groups s)
                    (N.succ (pos_serial s)))
      end
  end.

(** The reconciler sends, with the identifier of the good it found, a
    payload that carries the code it looked up: the store finds the
    record under that code. *)
Definition store_updateGood (i : jsstring) (p : Payload) (s : PosState)
    : result () * PosState :=
  match goodOfPayload i p with
  | None => (Throw (refused 400 "Validation error"), s)
  | Some g =>
      match pos_goods s !! good_code g with
      | Some old =>
          if bool_decide (good_id old = i) then
            (Ok (), mkPosState (<[good_code g := g]> (pos_goods s)) (pos_groups s)
                      (pos_serial s))
          else (Throw (refused 404 "Not found"), s)
      | None => (Throw (refused 404 "Not found"), s)
      end
  end.

Definition store_getGroups (s : PosState) : result (list Group) * PosState :=
  (Ok (pos_groups s), s).

Definition store_createGroup (name : jsstring) (parent : option jsstring)
    (s : PosState) : result Group * PosState :=
  let g := mkGroup (freshId s) name parent in
  (Ok g, mkPosState (pos_goods s) (pos_groups s ++ [g]) (N.succ (pos_serial s))).

Definition storeApi : PosApi PosState :=
  mkPosApi PosState store_getGoodByCode store_createGood store_updateGood
    store_getGroups store_createGroup.

Definition emptyStore : PosState := mkPosState ∅ [] 0.

End PosStore.

Import PosStore.

(* ===================================================================== *)
(** * services/keycrm.js, as the webhook route uses it *)
(* ===================================================================== *)

Module Keycrm.

Record Payment := mkPayment {
  payment_method_id : Z;
  amount : Q;
  payment_status : jsstring
}.

(** The body of [POST /order]. *)
Record OrderPayload := mkOrderPayload {
  source_id : option Z;           (* [Number(undefined)] is [NaN]: [None] *)
  source_uuid : option jsstring;
  buyer_email : jsstring;
  products : list ProductLine;
  payments : option (list Payment);
  ordered_at : option jsstring
}.

(** The created order, as far as the route reads it. *)
Record Order := mkOrder { order_id : option Z }.

(** The body of [PUT /order/:id] sent after creation. *)
Record OrderUpdate := mkOrderUpdate { status_id : Z; client_id : Z }.

(** The calls of the KeyCRM service the webhook route uses, over the
    state [C] of the CRM.  [getOfferBySku] catches every failure and
    returns [null], so it has no [Throw] outcome. *)
Record CrmApi (C : Type) := mkCrmApi {
  getOfferBySku : jsstring -> C -> option Offer * C;
  getOfferByBarcode : jsstring -> C -> result (option Offer) * C;
  getProductByName : jsstring -> C -> result (option CrmProduct) * C;
  createOrder : OrderPayload -> C -> result Order * C;
  updateOrder : Z -> OrderUpdate -> C -> result () * C
}.

Arguments getOfferBySku {C} _ _ _.
Arguments getOfferByBarcode {C} _ _ _.
Arguments getProductByName {C} _ _ _.
Arguments createOrder {C} _ _ _.
Arguments updateOrder {C} _ _ _ _.

End Keycrm.

Import Keycrm.

(* ===================================================================== *)
(** * routes/webhook.js *)
(* ===================================================================== *)

Module Webhook.

Record Cashier := mkCashier { cashier_id : option jsstring }.

Record Shift := mkShift { shift_cashier : option Cashier }.

(** A Checkbox receipt, with the fields the route reads. *)
Record Receipt := mkReceipt {
  receipt_id : option jsstring;
  receipt_type : option jsstring;
  receipt_order_id : option jsstring;
  receipt_goods : option (list GoodItem);
  receipt_shift : option Shift;
  receipt_total_sum : option Q;
  receipt_created_at : option jsstring
}.

(** A property that should hold an object: falsy, a truthy value that is
    not an object, or the object. *)
Inductive Slot (A : Type) :=
| Falsy
| NotObject
| Object (a : A).

Arguments Falsy {A}.
Arguments NotObject {A}.
Arguments Object {A} a.

(** The parsed request body.  [body_fields] is the body itself read as a
    receipt, which is what the route does when the envelope names a
    receipt and carries neither [receipt] nor [data]; [body.type] is
    then both the envelope type and the receipt type. *)
Record Body := mkBody {
  body_callback : option jsstring;
  body_notification_type : option jsstring;
  body_receipt : Slot Receipt;
  body_data : Slot Receipt;
  body_fields : Receipt
}.

(** Why an event was ignored (the [reason] of the reply). *)
Inductive Reason :=
| NoReceipt                              (* 'no receipt object found' *)
| WrongType (t : option jsstring)        (* `receipt.type=${receipt.type}` *)
| FiscalOrder (order : jsstring)         (* `fiscalization receipt for order ...` *)
| AllGoodIdNull                          (* 'all good_id null ...' *)
| CashierMismatch (cashier : jsstring)   (* `cashier mismatch: ...` *)
| OtherCallback.                         (* first revision: not a receipt_notification *)

(** The HTTP reply of the route. *)
Inductive Reply :=
| InvalidSignature      (* 400 { ok: false, error: 'Invalid signature' } *)
| MissingReceipt        (* 400 { ok: false, error: 'Missing receipt in payload' } *)
| Ignored (reason : Reason)   (* 200 { ok: true, ignored: true, reason } *)
| Accepted.                   (* 200 { ok: true } *)

Definition replyStatus (r : Reply) : Z :=
  match r with
  | InvalidSignature | MissingReceipt => 400
  | Ignored _ | Accepted => 200
  end.

Definition hexValue (c : N) : option N :=
  if is_digit c then Some (c - 48)
  else if in_range 97 102 c then Some (c - 87)
  else if in_range 65 70 c then Some (c - 55)
  else None.

(** [Buffer.from(s, 'hex')]: pairs of hexadecimal digits, up to the
    first pair that is not one. *)
Fixpoint fromHex (s : jsstring) : list N :=
  match s with
  | a :: b :: r =>
      match hexValue a, hexValue b with
      | Some x, Some y => (16 * x + y) :: fromHex r
      | _, _ => []
      end
  | _ => []
  end.

(** [crypto.timingSafeEqual(a, b)]: throws ([None]) when the two buffers
    differ in length. *)
Definition timingSafeEqual (a b : list N) : option bool :=
  if (length a =? length b)%nat then Some (bool_decide (a = b)) else None.

Section Route.

(** [crypto.createHmac('sha256', secret).update(rawBody).digest('hex')]:
    the primitive itself is outside the bridge. *)
Variable hmacSha256Hex : jsstring -> list N -> jsstring.

Definition verifySignature (env : Env) (rawBody : list N)
    (signature : jsstring) : bool :=
  if negb (truthy (CHECKBOX_WEBHOOK_SECRET env)) then true else
  let secret := strOrEmpty (CHECKBOX_WEBHOOK_SECRET env) in
  let expected := hmacSha256Hex secret rawBody in
  match timingSafeEqual (fromHex expected) (fromHex signature) with
  | Some b => b
  | None => false   (* catch *)
  end.

(** [if (signature && !verifySignature(req.rawBody, signature))] *)
Definition signatureRejected (env : Env) (rawBody : list N)
    (signature : option jsstring) : bool :=
  truthy signature
  && negb (verifySignature env rawBody (strOrEmpty signature)).

(** [body.callback || body.notification_type || body.type || ''] *)
Definition callbackTypeOf (body : Body) : jsstring :=
  strOrEmpty
    (strOr (body_callback body)
       (strOr (body_notification_type body)
          (receipt_type (body_fields body)))).

(** [body.receipt || (callbackType.toLowerCase().includes('receipt')
                       ? body.data || body : null)] *)
Definition receiptOf (body : Body) : Slot Receipt :=
  match body_receipt body with
  | Falsy =>
      if includes (js "receipt") (toLowerCase (callbackTypeOf body)) then
        match body_data body with
        | Falsy => Object (body_fields body)
        | other => other
        end
      else Falsy
  | other => other
  end.

(** [receipt.shift?.cashier?.id] *)
Definition receiptCashierIdOf (receipt : Receipt) : option jsstring :=
  match receipt_shift receipt with
  | Some sh =>
      match shift_cashier sh with
      | Some c => cashier_id c
      | None => None
      end
  | None => None
  end.

(** [g.good_id == null] *)
Definition goodIdIsNull (g : GoodItem) : bool :=
  match gi_good_id g with Some _ => false | None => true end.

(** The outcome of the guards: ignored with a reason, or the receipt
    to process. *)
Inductive Verdict :=
| Ignore (reason : Reason)
| Process (receipt : Receipt).

(** The guards of [router.post('/')], from the detection of the
    receipt to the cashier check. *)
Definition saleFilter (ourCashierId : option jsstring) (body : Body)
    : Verdict :=
  match receiptOf body with
  | Falsy | NotObject => Ignore NoReceipt
  | Object receipt =>
      let receiptType := toUpperCase (strOrEmpty (receipt_type receipt)) in
      if nonempty receiptType && negb (JsString.eqb receiptType (js "SELL")) then
        Ignore (WrongType (receipt_type receipt))
      else
      match receipt_order_id receipt with
      | Some order => Ignore (FiscalOrder order)
      | None =>
          let goods := default [] (receipt_goods receipt) in
          let allGoodsHaveNullId :=
            (0 <? length goods)%nat && forallb goodIdIsNull goods in
          if allGoodsHaveNullId then Ignore AllGoodIdNull else
          let receiptCashierId := receiptCashierIdOf receipt in
          if truthy ourCashierId && truthy receiptCashierId
             && negb (bool_decide (receiptCashierId = ourCashierId))
          then Ignore (CashierMismatch (strOrEmpty receiptCashierId))
          else Process receipt
      end
  end.

Context {C : Type}.
Variable crm : CrmApi C.

(** The fallback chain that finds the offer of one sold good. *)
Definition findOffer (good : ReceiptGood) (c : C) : result (option Offer) * C :=
  (* a) by SKU *)
  let '(offer1, c1) :=
    if truthy (rg_code good)
    then getOfferBySku crm (strOrEmpty (rg_code good)) c
    else (None, c) in
  (* b) by barcode *)
  let step2 :=
    match offer1 with
    | Some _ => (Ok offer1, c1)
    | None =>
        if truthy (rg_barcode good)
        then getOfferByBarcode crm (strOrEmpty (rg_barcode good)) c1
        else (Ok None, c1)
    end in
  (* c) by product name *)
  match step2 with
  | (Throw e, c2) => (Throw e, c2)
  | (Ok (Some o), c2) => (Ok (Some o), c2)
  | (Ok None, c2) =>
      if truthy (rg_name good) then
        match getProductByName crm (strOrEmpty (rg_name good)) c2 with
        | (Ok (Some product), c3) =>
            (Ok (Some (mkOffer (cp_sku product) None (Some product))), c3)
        | (Ok None, c3) => (Ok None, c3)
        | (Throw e, c3) => (Throw e, c3)
        end
      else (Ok None, c2)
  end.

(** The loop of [processReceipt] that builds [products]. *)
Fixpoint buildProducts (goods : list GoodItem) (c : C)
    : result (list ProductLine) * C :=
  match goods with
  | [] => (Ok [], c)
  | goodItem :: rest =>
      let good := default noGood (gi_good goodItem) in
      match findOffer good c with
      | (Throw e, c1) => (Throw e, c1)
      | (Ok offer, c1) =>
          let unidentified :=
            match offer with
            | Some _ => false
            | None => negb (truthy (rg_code good)) && negb (truthy (rg_name good))
            end in
          match buildProducts rest c1 with
          | (Throw e, c2) => (Throw e, c2)
          | (Ok lines, c2) =>
              if unidentified then (Ok lines, c2)
              else (Ok (toKeycrmProduct goodItem offer :: lines), c2)
          end
      end
  end.

(** [s.replace('T', ' ')]: the first occurrence only. *)
Fixpoint replaceFirst (old new : N) (s : jsstring) : jsstring :=
  match s with
  | [] => []
  | c :: r => if c =? old then new :: r else c :: replaceFirst old new r
  end.

(** [s.split(sep)[0]] *)
Definition upTo (sep : N) (s : jsstring) : jsstring := hd [] (split sep s).

(** [created_at.replace('T', ' ').split('.')[0].split('+')[0].split('Z')[0]] *)
Definition orderedAtOf (created_at : jsstring) : jsstring :=
  upTo 90 (upTo 43 (upTo 46 (replaceFirst 84 32 created_at))).

Definition orderPayloadOf (env : Env) (receipt : Receipt)
    (lines : list ProductLine) : OrderPayload :=
  let paymentMethodId := default 2%Z (KEYCRM_PAYMENT_METHOD_ID env) in
  let totalAmount := (numOr (receipt_total_sum receipt) 0 / 100)%Q in
  let payments :=
    if negb (Qle_bool totalAmount 0)     (* [totalAmount > 0] *)
    then [mkPayment paymentMethodId totalAmount (js "paid")]
    else [] in
  let buyerEmail :=
    match KEYCRM_BUYER_EMAIL env with
    | Some e => if nonempty e then e else js "klumba.zakarpattia@gmail.com"
    | None => js "klumba.zakarpattia@gmail.com"
    end in
  {| source_id := KEYCRM_SOURCE_ID env;
     source_uuid := receipt_id receipt;
     buyer_email := buyerEmail;
     products := lines;
     payments := match payments with [] => None | _ :: _ => Some payments end;
     ordered_at :=
       match receipt_created_at receipt with
       | Some t => if nonempty t then Some (orderedAtOf t) else None
       | None => None
       end |}.

(** The test of the [catch] block: status 422 and a message that names
    [source_uuid]. *)
Definition isDuplicate (err : Error) : bool :=
  let msg := strOr (dataMessageOf err) (Some (message err)) in
  bool_decide (statusOf err = Some 422%Z)
  && truthy msg
  && includes (js "source_uuid") (toLowerCase (strOrEmpty msg)).

(** [processReceipt(receipt)]: [Ok] when the function returns,
    [Throw] when it rethrows. *)
Definition processReceipt (env : Env) (receipt : Receipt) (c : C)
    : result () * C :=
  match buildProducts (default [] (receipt_goods receipt)) c with
  | (Throw e, c1) => (Throw e, c1)
  | (Ok [], c1) => (Ok (), c1)      (* no products resolved: no order *)
  | (Ok lines, c1) =>
      let statusId := default 12%Z (KEYCRM_ORDER_STATUS_ID env) in
      let buyerId := default 4%Z (KEYCRM_BUYER_ID env) in
      let orderPayload := orderPayloadOf env receipt lines in
      let attempt :=
        match createOrder crm orderPayload c1 with
        | (Ok order, c2) =>
            if truthyZ (order_id order)
            then updateOrder crm (default 0%Z (order_id order))
                   (mkOrderUpdate statusId buyerId) c2
            else (Ok (), c2)
        | (Throw e, c2) => (Throw e, c2)
        end in
      match attempt with
      | (Ok _, c3) => (Ok (), c3)
      | (Throw err, c3) =>
          if isDuplicate err then (Ok (), c3) else (Throw err, c3)
      end
  end.

(** [router.post('/')]: the reply, and the CRM after the work done
    behind the reply.  An error of [processReceipt] is logged and
    dropped. *)
Definition post (env : Env) (ourCashierId : option jsstring)
    (signature : option jsstring) (rawBody : list N) (body : Body) (c : C)
    : Reply * C :=
  if signatureRejected env rawBody signature then (InvalidSignature, c) else
  match saleFilter ourCashierId body with
  | Ignore reason => (Ignored reason, c)
  | Process receipt => (Accepted, snd (processReceipt env receipt c))
  end.

(** The reply of the first revision of the route: only
    [receipt_notification] callbacks with a SELL receipt are processed. *)
Definition replyFirst (env : Env) (signature : option jsstring)
    (rawBody : list N) (body : Body) : Reply :=
  if signatureRejected env rawBody signature then InvalidSignature else
  if negb (bool_decide (body_callback body = Some (js "receipt_notification")))
  then Ignored OtherCallback else
  match body_receipt body with
  | Falsy => MissingReceipt
  | NotObject => Ignored (WrongType None)
  | Object receipt =>
      if negb (bool_decide (receipt_type receipt = Some (js "SELL")))
      then Ignored (WrongType (receipt_type receipt))
      else Accepted
  end.

End Route.

End Webhook.

Import Webhook.

(* ===================================================================== *)
(** * services/keycrm.js: the paginated reads *)
(* ===================================================================== *)

Module KeycrmHttp.

Section Paging.

Context {A : Type}.

(** [res.data] of a listing request: [{ data, total }]. *)
Record Page := mkPage {
  page_data : list A;
  page_total : nat
}.

Definition limit : nat := 50%nat.

(** The loop of [getAllProducts] and of [getOffersByProduct]: request
    page after page and append, until the total is reached or a page
    comes back short.  [get] is the request for one page.  The source
    loops with [while (true)]; [fuel] bounds the number of requests, and
    [None] says the bound was reached. *)
Fixpoint fetchAll (fuel : nat) (get : nat -> result Page) (page : nat)
    (acc : list A) : option (result (list A)) :=
  match fuel with
  | O => None
  | Datatypes.S fuel' =>
      match get page with
      | Throw e => Some (Throw e)
      | Ok data =>
          let acc' := acc ++ page_data data in
          if (page_total data <=? length acc')%nat
             || (length (page_data data) <? limit)%nat
          then Some (Ok acc')
          else fetchAll fuel' get (page + 1)%nat acc'
      end
  end.

(** [data.find(test)] for a test that can throw. *)
Fixpoint findOrThrow (test : A -> result bool) (l : list A)
    : result (option A) :=
  match l with
  | [] => Ok None
  | x :: r =>
      match test x with
      | Throw e => Throw e
      | Ok true => Ok (Some x)
      | Ok false => findOrThrow test r
      end
  end.

(** The loop of [getOfferByBarcode] and of [getProductByName]: request
    page after page and return the first element that passes [test], or
    [null] after a short or last page. *)
Fixpoint scan (fuel : nat) (get : nat -> result Page)
    (test : A -> result bool) (page : nat) : option (result (option A)) :=
  match fuel with
  | O => None
  | Datatypes.S fuel' =>
      match get page with
      | Throw e => Some (Throw e)
      | Ok data =>
          match findOrThrow test (page_data data) with
          | Throw e => Some (Throw e)
          | Ok (Some found) => Some (Ok (Some found))
          | Ok None =>
              if (length (page_data data) <? limit)%nat
                 || (page_total data <=? page * limit)%nat
              then Some (Ok None)
              else scan fuel' get test (page + 1)%nat
          end
      end
  end.

End Paging.

Arguments Page A : clear implicits.

Definition getAllProducts {A} (fuel : nat) (get : nat -> result (Page A))
    : option (result (list A)) :=
  fetchAll fuel get 1%nat [].

Definition getOffersByProduct {A} (fuel : nat)
    (get : Z -> nat -> result (Page A)) (productId : Z)
    : option (result (list A)) :=
  fetchAll fuel (get productId) 1%nat [].

(** [o.barcode === barcode] *)
Definition barcodeIs (barcode : jsstring) (o : Offer) : bool :=
  bool_decide (offer_barcode o = Some barcode).

Definition getOfferByBarcode (fuel : nat) (get : nat -> result (Page Offer))
    (barcode : jsstring) : option (result (option Offer)) :=
  scan fuel get (fun o => Ok (barcodeIs barcode o)) 1%nat.

(** The [TypeError] of [p.name.toLowerCase()] on a product without name. *)
Definition nameTypeError : Error :=
  mkError None (js "Cannot read properties of null (reading 'toLowerCase')").

(** [p.name.toLowerCase().trim() === needle] *)
Definition nameIs (needle : jsstring) (p : CrmProduct) : result bool :=
  match cp_name p with
  | Some n => Ok (bool_decide (trim (toLowerCase n) = needle))
  | None => Throw nameTypeError
  end.

Definition getProductByName (fuel : nat)
    (get : nat -> result (Page CrmProduct)) (name : jsstring)
    : option (result (option CrmProduct)) :=
  let needle := trim (toLowerCase name) in
  scan fuel get (nameIs needle) 1%nat.

(** [getOfferBySku]: the first offer of the answer, [null] when there is
    none and also when the request fails. *)
Definition getOfferBySku (get : jsstring -> result (list Offer))
    (sku : jsstring) : option Offer :=
  match get sku with
  | Ok (o :: _) => Some o
  | Ok [] => None
  | Throw _ => None
  end.

End KeycrmHttp.

(* ===================================================================== *)
(** * A CRM to ingest receipts into *)
(* ===================================================================== *)

Module CrmStore.

(** The CRM is not part of the bridge.  This store follows what the
    specification says of it: it keeps at most one order per
    [source_uuid] and answers a second creation with 422 and a message
    that names the field.  Lookups read the offers and products it
    holds. *)
Record CrmState := mkCrmState {
  crm_offers : list Offer;
  crm_products : list CrmProduct;
  crm_orders : list (Z * OrderPayload);
  crm_serial : Z
}.

Definition sameUuid (u : option jsstring) (o : Z * OrderPayload) : bool :=
  match u with
  | Some _ => bool_decide (source_uuid (snd o) = u)
  | None => false
  end.

(** The orders that carry the idempotency key [u]. *)
Definition ordersFor (u : jsstring) (st : CrmState) : list (Z * OrderPayload) :=
  List.filter (sameUuid (Some u)) (crm_orders st).

Definition duplicateError : Error :=
  mkError
    (Some (mkResponse 422
             (Some (mkErrorData (Some (js "The source_uuid has already been taken."))
                      None))))
    (js "Request failed with status code 422").

Definition store_getOfferBySku (sku : jsstring) (st : CrmState)
    : option Offer * CrmState :=
  (List.find (fun o => bool_decide (offer_sku o = Some sku)) (crm_offers st), st).

Definition store_getOfferByBarcode (barcode : jsstring) (st : CrmState)
    : result (option Offer) * CrmState :=
  (Ok (List.find (fun o => bool_decide (offer_barcode o = Some barcode))
         (crm_offers st)), st).

(** The products are read in the order of the listing, as
    [getProductByName] reads them page after page: a product without a
    name that comes before any match ends the call with the [TypeError]
    of [p.name.toLowerCase()]. *)
Definition store_getProductByName (name : jsstring) (st : CrmState)
    : result (option CrmProduct) * CrmState :=
  let needle := trim (toLowerCase name) in
  (KeycrmHttp.findOrThrow (KeycrmHttp.nameIs needle) (crm_products st), st).

Definition store_createOrder (p : OrderPayload) (st : CrmState)
    : result Order * CrmState :=
  if existsb (sameUuid (source_uuid p)) (crm_orders st)
  then (Throw duplicateError, st)
  else
    let i := (crm_serial st + 1)%Z in
    (Ok (mkOrder (Some i)),
     mkCrmState (crm_offers st) (crm_products st)
       (crm_orders st ++ [(i, p)]) i).

Definition store_updateOrder (i : Z) (u : OrderUpdate) (st : CrmState)
    : result () * CrmState :=
  (Ok (), st).

Definition storeCrm : CrmApi CrmState :=
  mkCrmApi CrmState store_getOfferBySku store_getOfferByBarcode
    store_getProductByName store_createOrder store_updateOrder.

Definition emptyCrm : CrmState := mkCrmState [] [] [] 0.

End CrmStore.

Import CrmStore.

(* ===================================================================== *)
(** * Vocabulary of the statements *)
(* ===================================================================== *)

Module Vocabulary.

(** The characters a slug is made of. *)
Definition slug_char (c : N) : bool :=
is_lower c || is_digit c || (c =? hyphen).

(** After the first replacement only lower-case word characters, white
  space and hyphens are left. *)
Definition kept_char (c : N) : bool :=
negb (is_upper c) && (is_word c || is_space c || (c =? hyphen)).

(** A field of a unit that is missing, empty or made of white space. *)
Definition blank (x : option jsstring) : Prop :=
match x with Some s => trim s = [] | None => True end.

(** The text that is slugged when neither SKU nor barcode is usable: the
  display name, or [product-<id>] when the name is empty or missing. *)
Definition slugSource (u : Unit) : jsstring :=
match name u with
| Some (c :: n) => c :: n
| _ => js "product-" ++ ofZ (id u)
end.

(** The property names [toCheckboxGood] can set. *)
Definition payloadKeys : gset string :=
  {[ "name"; "code"; "price"; "type"; "is_weight"; "tax_codes"; "external_id";
     "barcode" ]}.

(** The names under which a payload could carry a group. *)
Definition groupKeys : list string := ["group_id"; "group"; "parent_group_id"].

(** The receipt names a cashier, the bridge knows the cashier it signed
    in as, and the two differ. *)
Definition cashierMismatch (ourCashierId : option jsstring) (receipt : Receipt)
    : Prop :=
  exists ours theirs,
    ourCashierId = Some ours /\ ours <> []
    /\ receiptCashierIdOf receipt = Some theirs /\ theirs <> []
    /\ theirs <> ours.

(** The sold goods of a receipt. *)
Definition goodsOf (receipt : Receipt) : list GoodItem :=
  default [] (receipt_goods receipt).

(** The receipt has a line, and no line refers to a catalog good. *)
Definition allGoodIdsNull (receipt : Receipt) : Prop :=
  goodsOf receipt <> [] /\ Forall (fun g => gi_good_id g = None) (goodsOf receipt).

(** Some line of the receipt refers to a catalog good. *)
Definition hasCatalogLine (receipt : Receipt) : Prop :=
  Exists (fun g => gi_good_id g <> None) (goodsOf receipt).

(** The code under which the reconciler files a unit. *)
Definition codeOf (e : UnitEntry) : jsstring := deriveCode (unit e).

(** A code the reconciler accepts: not empty, also after trimming. *)
Definition usable (code : jsstring) : bool :=
  nonempty code && nonempty (trim code).

(** The codes the reconciler looks up during a run, in order. *)
Definition usableCodes (units : list UnitEntry) : list jsstring :=
  List.filter usable (List.map codeOf units).

Definition named (e : UnitEntry) : Prop := truthy (name (unit e)) = true.

(** The unit is not filed under a category. *)
Definition uncategorised (e : UnitEntry) : Prop := truthyZ (categoryId e) = false.

(** The catalog holds, under the code of the unit, a good with the name
    and the price the unit asks for. *)
Definition synced (goods : gmap jsstring Good) (e : UnitEntry) : Prop :=
  usable (codeOf e) = true ->
  exists g, goods !! codeOf e = Some g /\ needsUpdate g (unit e) = false.

(** A lower-case letter or a digit. *)
Definition alnum (c : N) : bool := is_lower c || is_digit c.

(** No two hyphens side by side. *)
Fixpoint single_hyphens (s : jsstring) : bool :=
  match s with
  | a :: (b :: _) as r =>
      negb ((a =? hyphen) && (b =? hyphen)) && single_hyphens r
  | _ => true
  end.

(** What a run does between two resolutions of a pair: it resolves
    other pairs, and it reads and writes goods, which changes the
    catalog. *)
Inductive Between (St : Type) : Type :=
| Resolves (name : jsstring) (parent : option jsstring)
| Changes (f : St -> St).

Arguments Resolves {St} _ _.
Arguments Changes {St} _.

(** The cache and the catalog after the steps [steps]. *)
Fixpoint later {St} (api : PosApi St) (steps : list (Between St))
    (cache : GroupCache) (s : St) : GroupCache * St :=
  match steps with
  | [] => (cache, s)
  | Resolves name parent :: rest =>
      let '(_, cache1, s1) := getOrCreateGroup api name parent cache s in
      later api rest cache1 s1
  | Changes f :: rest => later api rest cache (f s)
  end.

End Vocabulary.

Import Vocabulary.

(* ===================================================================== *)
(** * Sample data *)
(* ===================================================================== *)

Module Samples.

Definition skuUnit : Unit :=
mkUnit 7 (Some (js "Widget")) (Some (js " A1 ")) (Some (js "482")) None [].

Definition barcodeUnit : Unit :=
mkUnit 7 (Some (js "Widget")) (Some (js "  ")) (Some (js "482 ")) None [].

Definition bareUnit : Unit := mkUnit 7 None None (Some []) None [].

(** A name whose slug is longer than 150 characters with a hyphen at
  position 150: 149 letters, a space, one more letter. *)
Definition longNameUnit : Unit :=
mkUnit 1 (Some (repeat 97 149 ++ js " b")) (Some []) (Some []) None [].

Definition plainEnv : Env := mkEnv None None None None None None None None.

Definition mugs : Category := mkCategory 5 (js "Mugs") None.

Definition mugCats : gmap Z Category := {[ 5%Z := mugs ]}.

(** A named unit with a SKU, filed under the category [mugs]. *)
Definition mugEntry : UnitEntry :=
  mkUnitEntry (mkUnit 11 (Some (js "Blue Mug")) (Some (js "MUG-1")) None
                 (Some (1999 # 100)%Q) [])
    11 false (Some 5%Z).

(** A stand-in for the digest, for running the route on examples. *)
Definition sampleHmac (secret : jsstring) (rawBody : list N) : jsstring :=
  js "00ff".

Definition signedEnv : Env :=
  mkEnv None None (Some (js "s3cret")) None None None None None.

Definition ourCashier : option jsstring := Some (js "cashier-1").

(** A line that refers to the catalog good [g-1] with code [A1]. *)
Definition catalogLine : GoodItem :=
  mkGoodItem (Some (mkReceiptGood (Some (js "A1")) None None None))
    (Some (js "g-1")) (Some 2000%Q) None.

(** A line without reference to the catalog. *)
Definition foreignLine : GoodItem :=
  mkGoodItem (Some (mkReceiptGood (Some (js "A1")) None None None))
    None (Some 2000%Q) None.

Definition receiptWith (type order : option jsstring) (goods : list GoodItem)
    (cashier : option jsstring) : Receipt :=
  mkReceipt (Some (js "r-1")) type order (Some goods)
    (Some (mkShift (Some (mkCashier cashier)))) (Some 3998%Q) None.

(** The envelope [{ callback: 'receipt_notification', receipt }]. *)
Definition envelope (receipt : Receipt) : Body :=
  mkBody (Some (js "receipt_notification")) None (Object receipt) Falsy
    (mkReceipt None None None None None None None).

Definition sellReceipt : Receipt :=
  receiptWith (Some (js "SELL")) None [catalogLine] ourCashier.

Definition returnReceipt : Receipt :=
  receiptWith (Some (js "RETURN")) None [catalogLine] ourCashier.

Definition echoReceipt : Receipt :=
  receiptWith (Some (js "SELL")) (Some (js "order-9")) [catalogLine] ourCashier.

Definition foreignReceipt : Receipt :=
  receiptWith (Some (js "SELL")) None [foreignLine] ourCashier.

Definition otherCashierReceipt : Receipt :=
  receiptWith (Some (js "SELL")) None [catalogLine] (Some (js "cashier-2")).

(** A catalog whose lookup by code finds nothing and whose creation fails
    with [err]: the inconsistency the 422 branch is written for. *)
Definition failingApi (err : Error) : PosApi () :=
  mkPosApi ()
    (fun _ s => (Ok None, s))
    (fun _ s => (Throw err, s))
    (fun _ _ s => (Ok (), s))
    (fun s => (Ok [], s))
    (fun name parent s => (Ok (mkGroup (js "grp-1") name parent), s)).

Definition conflictError : Error :=
  mkError
    (Some (mkResponse 422 (Some (mkErrorData (Some (js "code already exists")) None))))
    (js "Request failed with status code 422").

Definition serverError : Error :=
  mkError (Some (mkResponse 500 None)) (js "Request failed with status code 500").

(** A catalog that cannot create groups. *)
Definition noCreateApi : PosApi PosState :=
  mkPosApi PosState store_getGoodByCode store_createGood store_updateGood
    store_getGroups
    (fun _ _ s => (Throw serverError, s)).

Definition pots : Category := mkCategory 6 (js "Pots") (Some 5%Z).

Definition potCats : gmap Z Category := {[ 5%Z := mugs; 6%Z := pots ]}.

(** A CRM that knows the offer with SKU [A1] of the product Widget. *)
Definition widgetCrm : CrmState :=
  mkCrmState
    [mkOffer (Some (js "A1")) None (Some (mkCrmProduct (Some (js "Widget")) None))]
    [mkCrmProduct (Some (js "Widget")) None] [] 0.

(** The receipt of the scenario
    [{type:"SELL", order_id:null, goods:[{good:{code:"A1"}, quantity:2000}],
      total_sum:3998}], issued by our cashier.  The scenario gives the line
    neither [good_id] nor a price; both can be supplied here. *)
Definition scenarioReceipt (goodId : option jsstring) (goodPrice : option Q)
    : Receipt :=
  mkReceipt None (Some (js "SELL")) None
    (Some [mkGoodItem (Some (mkReceiptGood (Some (js "A1")) None None goodPrice))
             goodId (Some 2000%Q) None])
    (Some (mkShift (Some (mkCashier ourCashier)))) (Some 3998%Q) None.

(** A catalog of one product without name and without offers. *)
Definition namelessCatalog : CrmCatalog :=
  mkCrmCatalog (Ok ∅)
    (Ok [mkProduct (mkUnit 3 None (Some (js "X-3")) None (Some 5%Q) []) false None None])
    (fun _ => Ok []).

(** Two products that share a SKU and differ in price. *)
Definition twinCatalog : CrmCatalog :=
  mkCrmCatalog (Ok ∅)
    (Ok [mkProduct (mkUnit 1 (Some (js "Mug")) (Some (js "M")) None (Some 5%Q) [])
           false None None;
         mkProduct (mkUnit 2 (Some (js "Mug")) (Some (js "M")) None (Some 6%Q) [])
           false None None])
    (fun _ => Ok []).

(** One product filed under the category Mugs. *)
Definition mugCatalog : CrmCatalog :=
  mkCrmCatalog (Ok mugCats)
    (Ok [mkProduct (unit mugEntry) false (Some 5%Z) None])
    (fun _ => Ok []).

(** A plain product, an offer-bearing product with two variants, and a
    product whose name leaves no code. *)
Definition shopCatalog : CrmCatalog :=
  mkCrmCatalog (Ok mugCats)
    (Ok [mkProduct (mkUnit 1 (Some (js "Widget")) (Some (js "A1")) None
                      (Some (1999 # 100)%Q) []) false None None;
         mkProduct (mkUnit 2 (Some (js "Shirt")) None None None []) true None None;
         mkProduct (mkUnit 3 (Some (js "!!!")) None None (Some 1%Q) []) false None None])
    (fun pid =>
       if (pid =? 2)%Z
       then Ok [mkUnit 21 None None (Some (js "4820001")) (Some 10%Q) [js "S"];
                mkUnit 22 None None None (Some 12%Q) [js "M"; js "red"]]
       else Ok []).

(** A receipt whose only good has a name and neither code nor barcode. *)
Definition nameOnlyReceipt : Receipt :=
  receiptWith (Some (js "SELL")) None
    [mkGoodItem (Some (mkReceiptGood None None (Some (js "Widget")) None))
       (Some (js "g-7")) (Some 1000%Q) None]
    ourCashier.

(** A CRM that lists a product without name before the product asked
    for. *)
Definition namelessCrm : CrmState :=
  mkCrmState [] [mkCrmProduct None (Some (js "N-0"));
                 mkCrmProduct (Some (js "Widget")) None] [] 0.

(** A name that needs every step of the slug: capitals, white space in
    front and at the end, runs of blanks and underscores, punctuation. *)
Definition messyUnit : Unit :=
  mkUnit 9 (Some (js "  Blue__ Mug  #5 (BIG)! ")) (Some (js " ")) None None [].

(** A second unit filed under the category [mugs], and a unit filed under
    [pots], the category below it. *)
Definition redMugEntry : UnitEntry :=
  mkUnitEntry (mkUnit 12 (Some (js "Red Mug")) (Some (js "MUG-2")) None
                 (Some (2499 # 100)%Q) [])
    12 false (Some 5%Z).

Definition potEntry : UnitEntry :=
  mkUnitEntry (mkUnit 13 (Some (js "Clay Pot")) (Some (js "POT-1")) None
                 (Some (900 # 100)%Q) [])
    13 false (Some 6%Z).

End Samples.

Import Samples.

(* ===================================================================== *)
(** * services/checkbox.js: the retry wrapper *)
(* ===================================================================== *)

Module CheckboxHttp.

Section Transport.

Context {S : Type}.

(** [login()], as far as the wrapper is concerned. *)
Variable login : S -> result () * S.

(** [withRetry(fn)]: one more attempt, after signing in again, when the
    first one is answered 401. *)
Definition withRetry {A} (fn : S -> result A * S) (s : S) : result A * S :=
  match fn s with
  | (Ok a, s1) => (Ok a, s1)
  | (Throw err, s1) =>
      if bool_decide (statusOf err = Some 401%Z) then
        match login s1 with
        | (Ok _, s2) => fn s2
        | (Throw e, s2) => (Throw e, s2)
        end
      else (Throw err, s1)
  end.

(** [getGoodByCode(code)] over the request [get] for
    [/goods/by-code/<code>]: a 404 is [null]. *)
Definition getGoodByCode (get : jsstring -> S -> result Good * S)
    (code : jsstring) (s : S) : result (option Good) * S :=
  withRetry
    (fun s0 =>
       match get code s0 with
       | (Ok good, s1) => (Ok (Some good), s1)
       | (Throw err, s1) =>
           if bool_decide (statusOf err = Some 404%Z) then (Ok None, s1)
           else (Throw err, s1)
       end) s.

End Transport.

End CheckboxHttp.

(* ===================================================================== *)
(** * routes/webhook.js: the log of recent calls *)
(* ===================================================================== *)

Module WebhookLog.

(** [logWebhook(entry)]: [unshift], then [pop] when more than 20 entries
    are held.  The time stamp is part of [entry]. *)
Definition logWebhook {E} (entry : E) (recentWebhooks : list E) : list E :=
  let held := entry :: recentWebhooks in
  if (20 <? length held)%nat then removelast held else held.

(** [GET /log]: 401 ([None]) without the secret, else the count and the
    entries. *)
Definition getLog {E} (env : Env) (secret : option jsstring)
    (recentWebhooks : list E) : option (nat * list E) :=
  if negb (bool_decide (secret = SYNC_SECRET env)) then None
  else Some (length recentWebhooks, recentWebhooks).

End WebhookLog.

Import WebhookLog.

(* ===================================================================== *)
(** * Vocabulary of the further statements *)
(* ===================================================================== *)

Module MoreVocabulary.

(** A listing served in pages: page [p] holds the elements from position
    [(p - 1) * limit] on, [limit] at most, and every page tells the
    length of the listing. *)
Definition servePages {A} (items : list A) (page : nat)
    : result (KeycrmHttp.Page A) :=
  Ok (KeycrmHttp.mkPage (take KeycrmHttp.limit
                           (drop ((page - 1) * KeycrmHttp.limit) items))
        (length items)).

(** The requests needed to read a listing of [n] elements. *)
Definition pagesFor (n : nat) : nat := Datatypes.S (n / KeycrmHttp.limit).

(** The sum of the counters of a summary. *)
Definition tally (m : Summary) : nat :=
  (created m + updated m + skipped m + length (errors m))%nat.

(** A unit the loop counts twice: named, without usable code. *)
Definition countedTwice (e : UnitEntry) : bool :=
  truthy (name (unit e)) && negb (usable (codeOf e)).

(** The units a product contributes. *)
Definition unitsOf (crm : CrmCatalog) (product : Product) : nat :=
  if has_offers product then
    match getOffersByProduct crm (id (p_unit product)) with
    | Ok offers => length offers
    | Throw _ => 0%nat
    end
  else 1%nat.

(** The key of a listed group in the group map. *)
Definition keyOfGroup (g : Group) : jsstring :=
  groupKey (group_name g) (strOrEmpty (group_parent_id g)).

(** The key of a listed group in the cache object. *)
Definition cacheKeyOf (g : Group) : jsstring :=
  group_name g ++ sepKey ++ strOrEmpty (group_parent_id g).

(** A wrapper call by call: the state carries the number of attempts and
    the number of sign-ins made so far. *)
Definition counted {S A} (fn : S -> result A * S) (s : S * nat * nat)
    : result A * (S * nat * nat) :=
  let '(s0, attempts, logins) := s in
  let '(r, s1) := fn s0 in
  (r, (s1, Datatypes.S attempts, logins)).

Definition countedLogin {S} (login : S -> result () * S) (s : S * nat * nat)
    : result () * (S * nat * nat) :=
  let '(s0, attempts, logins) := s in
  let '(r, s1) := login s0 in
  (r, (s1, attempts, Datatypes.S logins)).

(** The characters [orderedAtOf] cuts at: [.], [+] and [Z]. *)
Definition is_cut (c : N) : bool := (c =? 46) || (c =? 43) || (c =? 90).

(** The unit pushed for an offer: the offer with its name settled.  With
    properties the name is the name of the product, a dash and the
    values of the properties; without, it is the offer's own name if it
    has one and the name of the product otherwise. *)
Definition fromOffer (product offer u : Unit) : Prop :=
  id u = id offer /\ sku u = sku offer /\ barcode u = barcode offer
  /\ price u = price offer /\ properties u = properties offer
  /\ (properties offer <> [] ->
      name u = Some (shown (name product) ++ [32; 8212; 32]
                     ++ join [44; 32] (properties offer)))
  /\ (properties offer = [] -> truthy (name offer) = true -> name u = name offer)
  /\ (properties offer = [] -> truthy (name offer) = false ->
      name u = name product).

(** Where a unit comes from. *)
Definition fromProduct (crm : CrmCatalog) (product : Product) (e : UnitEntry)
    : Prop :=
  productId e = id (p_unit product)
  /\ isOffer e = has_offers product
  /\ categoryId e = categoryOf product
  /\ (if has_offers product
      then exists offers offer,
          getOffersByProduct crm (id (p_unit product)) = Ok offers
          /\ In offer offers
          /\ fromOffer (p_unit product) offer (unit e)
      else unit e = p_unit product).

(** [goodItem.good || {}] *)
Definition soldGood (g : GoodItem) : ReceiptGood := default noGood (gi_good g).

(** A sold good with nothing to look it up by: no code, no barcode and no
    name. *)
Definition anonymous (g : GoodItem) : bool :=
  negb (truthy (rg_code (soldGood g)))
  && negb (truthy (rg_barcode (soldGood g)))
  && negb (truthy (rg_name (soldGood g))).

(** A sold good that carries a code or a name. *)
Definition identified (g : GoodItem) : bool :=
  truthy (rg_code (soldGood g)) || truthy (rg_name (soldGood g)).

(** The code units whose lower-case form [lower_unit] gives as
    [String.prototype.toLowerCase] does: Basic Latin and Latin-1, the
    Cyrillic and Cyrillic Supplement blocks (U+0400 to U+052F), U+0130
    and U+212A. *)
Definition tabled (c : N) : bool :=
  (c <=? 255) || in_range 1024 1327 c || (c =? 304) || (c =? 8490).

(** A text written with these code units only. *)
Definition tabledText (s : jsstring) : bool := forallb tabled s.

End MoreVocabulary.

Import MoreVocabulary.

(* ===================================================================== *)
(** * Further sample data *)
(* ===================================================================== *)

Module MoreSamples.

(** A listing of 120 product identifiers: three pages. *)
Definition manyIds : list Z := List.map Z.of_nat (seq 1 120).

Definition fillerOffer : Offer := mkOffer (Some (js "F")) (Some (js "000")) None.

Definition wantedOffer : Offer := mkOffer (Some (js "W")) (Some (js "4820001")) None.

(** 55 offers with another barcode, then the wanted one (on page two),
    then one more with the same barcode. *)
Definition manyOffers : list Offer :=
  repeat fillerOffer 55 ++ [wantedOffer; mkOffer (Some (js "W2")) (Some (js "4820001")) None].

Definition fillerProduct : CrmProduct := mkCrmProduct (Some (js "Vase")) None.

Definition wantedProduct : CrmProduct :=
  mkCrmProduct (Some (js "  Blue MUG ")) (Some (js "MUG-1")).

Definition namelessProduct : CrmProduct := mkCrmProduct None (Some (js "N-1")).

Definition manyProducts : list CrmProduct :=
  repeat fillerProduct 55 ++ [wantedProduct].

(** The groups the catalog lists: Mugs twice, in different spellings, and
    a subgroup of the second. *)
Definition listedGroups : list Group :=
  [mkGroup (js "g-1") (js "MUGS ") None;
   mkGroup (js "g-2") (js "Mugs") (Some []);
   mkGroup (js "g-3") (js "Pots") (Some (js "g-2"))].

(** A catalog that lists [listedGroups] and cannot create groups. *)
Definition listingApi : PosApi PosState :=
  mkPosApi PosState store_getGoodByCode store_createGood store_updateGood
    (fun s => (Ok listedGroups, s))
    (fun _ _ s => (Throw serverError, s)).

Definition expiredError : Error :=
  mkError (Some (mkResponse 401 None)) (js "Request failed with status code 401").

Definition notFoundError : Error :=
  mkError (Some (mkResponse 404 None)) (js "Request failed with status code 404").

(** A session: [true] once signed in again.  Requests are answered 401
    until then, and 404 after. *)
Definition staleGet (code : jsstring) (fresh : bool) : result Good * bool :=
  if fresh then (Throw notFoundError, fresh) else (Throw expiredError, fresh).

Definition signIn (fresh : bool) : result () * bool := (Ok (), true).

(** A line typed in at the till: no [good] object. *)
Definition anonymousLine : GoodItem :=
  mkGoodItem None None (Some 1000%Q) (Some 500%Q).

(** A line whose code no offer of [widgetCrm] carries. *)
Definition unknownLine : GoodItem :=
  mkGoodItem (Some (mkReceiptGood (Some (js "ZZ-9")) None None None))
    None None None.

Definition anonymousReceipt : Receipt :=
  receiptWith (Some (js "SELL")) None [anonymousLine; anonymousLine] ourCashier.

(** A product with three variants: one with a name of its own, one
    without name, one with a name and two properties. *)
Definition variantCatalog : CrmCatalog :=
  mkCrmCatalog (Ok ∅)
    (Ok [mkProduct (mkUnit 2 (Some (js "Shirt")) None None None []) true None None])
    (fun _ =>
       Ok [mkUnit 21 (Some (js "Own2")) (Some (js "S-21")) None (Some 10%Q) [];
           mkUnit 22 None (Some (js "S-22")) None (Some 11%Q) [];
           mkUnit 23 (Some (js "Own3")) (Some (js "S-23")) None (Some 12%Q)
             [js "M"; js "red"]]).

(** A product named with the Ukrainian word for button, written with the
    capital letter U+0490, and the same word in small letters. *)
Definition buttonProduct : CrmProduct :=
  mkCrmProduct (Some [1168; 1091; 1076; 1079; 1080; 1082]) (Some (js "BTN-1")).

Definition buttonName : jsstring := [1169; 1091; 1076; 1079; 1080; 1082].

(** Two listed groups whose names differ in the case of U+0491 / U+0490
    only, and a category named with capitals throughout. *)
Definition buttonGroups : list Group :=
  [mkGroup (js "g-1") [1169; 1091] None; mkGroup (js "g-2") [1168; 1091] None].

Definition buttonCats : gmap Z Category :=
  {[ 8%Z := mkCategory 8 [1168; 1059] None ]}.

End MoreSamples.

Import MoreSamples.

(* ===================================================================== *)
(** * Properties *)
(* ===================================================================== *)

Example slug_blue_mug : slugify (js "Blue Mug #2!") = js "blue-mug-2".
Proof. reflexivity. Qed.

Example ofZ_samples : ofZ 0 = js "0" /\ ofZ 42 = js "42" /\ ofZ (-7) = js "-7".
Proof. repeat split; reflexivity. Qed.

(* --------------------------------------------------------------------- *)
(** ** Identity deriver: [deriveCode] and [slugify] *)
(* --------------------------------------------------------------------- *)

Section StringFacts.

Variable p : N -> bool.

Lemma dropWhile_Forall (P : N -> Prop) s :
  Forall P s -> Forall P (dropWhile p s).
Proof.
  induction 1 as [|c r Hc Hr IH]; simpl; [constructor|].
  destruct (p c); [exact IH | constructor; assumption].
Qed.

Lemma dropWhile_head s c r : dropWhile p s = c :: r -> p c = false.
Proof.
  induction s as [|d s IH]; simpl; [discriminate|].
  destruct (p d) eqn:Hd; [exact IH|].
  intros [= <- _]. exact Hd.
Qed.

Lemma dropWhileEnd_Forall (P : N -> Prop) s :
  Forall P s -> Forall P (dropWhileEnd p s).
Proof.
  intros H. unfold dropWhileEnd.
  apply Forall_rev, dropWhile_Forall, Forall_rev, H.
Qed.

(** What [dropWhile] removes is a prefix. *)
Lemma dropWhile_suffix s : exists pre, s = pre ++ dropWhile p s.
Proof.
  induction s as [|d s [pre IH]]; simpl; [exists []; reflexivity|].
  destruct (p d); [exists (d :: pre); simpl; congruence | exists []; reflexivity].
Qed.

(** What [dropWhileEnd] removes is a suffix. *)
Lemma dropWhileEnd_prefix s : exists suf, s = dropWhileEnd p s ++ suf.
Proof.
  unfold dropWhileEnd.
  destruct (dropWhile_suffix (rev s)) as [pre Hpre].
  exists (rev pre).
  rewrite <- rev_app_distr, <- Hpre, rev_involutive. reflexivity.
Qed.

Lemma dropWhileEnd_last s r c : dropWhileEnd p s = r ++ [c] -> p c = false.
Proof.
  unfold dropWhileEnd. intros H.
  apply (f_equal (@rev N)) in H.
  rewrite rev_involutive, rev_app_distr in H. simpl in H.
  exact (dropWhile_head _ _ _ H).
Qed.

Lemma dropWhileEnd_head s c r :
  dropWhileEnd p s = c :: r -> exists r', s = c :: r'.
Proof.
  intros H. destruct (dropWhileEnd_prefix s) as [suf Hs].
  rewrite H in Hs. simpl in Hs. eauto.
Qed.

End StringFacts.

Ltac unfold_classes :=
  unfold slug_char, is_sep, is_word, is_space, is_upper, is_lower, is_digit,
    is_hyphen, in_range, hyphen, underscore in *.

Ltac solve_class :=
  unfold_classes;
  repeat match goal with
         | H : _ && _ = true |- _ => apply andb_prop in H; destruct H
         | H : _ || _ = true |- _ => apply orb_prop in H; destruct H
         | H : _ || _ = false |- _ => apply orb_false_elim in H; destruct H
         | H : _ && _ = false |- _ => apply andb_false_iff in H; destruct H
         | H : (_ <=? _) = true |- _ => apply N.leb_le in H
         | H : (_ <=? _) = false |- _ => apply N.leb_gt in H
         | H : (_ =? _) = true |- _ => apply N.eqb_eq in H
         | H : (_ =? _) = false |- _ => apply N.eqb_neq in H
         end;
  repeat match goal with
         | |- _ && _ = true => apply andb_true_intro; split
         | |- _ || _ = false => apply orb_false_intro
         | |- (_ <=? _) = true => apply N.leb_le
         | |- (_ =? _) = true => apply N.eqb_eq
         | |- (_ =? _) = false => apply N.eqb_neq
         end;
  try lia.

Lemma lower_unit_no_upper c :
  Forall (fun d => is_upper d = false) (lower_unit c).
Proof.
  unfold lower_unit.
  destruct (is_upper c) eqn:Hu.
  { repeat constructor. solve_class; apply andb_false_iff; right; apply N.leb_gt; lia. }
  repeat match goal with
         | |- context [if ?b then _ else _] => destruct b eqn:?
         end;
    repeat constructor; try reflexivity; try exact Hu;
    solve_class; apply andb_false_iff; right; apply N.leb_gt; lia.
Qed.

Lemma toLowerCase_no_upper s :
  Forall (fun d => is_upper d = false) (toLowerCase s).
Proof.
  unfold toLowerCase. induction s as [|c s IH]; simpl; [constructor|].
  apply Forall_app. split; [apply lower_unit_no_upper | exact IH].
Qed.

Lemma stripSpecial_kept s :
  Forall (fun d => is_upper d = false) s ->
  Forall (fun c => kept_char c = true) (stripSpecial s).
Proof.
  unfold stripSpecial. induction 1 as [|c r Hc Hr IH]; simpl; [constructor|].
  destruct (is_word c || is_space c || (c =? hyphen)) eqn:Hk; [|exact IH].
  constructor; [|exact IH]. unfold kept_char. rewrite Hc, Hk. reflexivity.
Qed.

Lemma kept_not_sep_slug c :
  kept_char c = true -> is_sep c = false -> slug_char c = true.
Proof.
  unfold kept_char. intros Hk Hs.
  apply andb_prop in Hk. destruct Hk as [Hu Hk].
  apply negb_true_iff in Hu.
  apply orb_false_elim in Hs. destruct Hs as [Hsp Hun].
  unfold slug_char. unfold is_word in Hk.
  rewrite Hu, Hsp, Hun in Hk.
  destruct (is_lower c), (is_digit c), (c =? hyphen); simpl in *; congruence.
Qed.

Lemma collapseFrom_slug b s :
  Forall (fun c => kept_char c = true) s ->
  Forall (fun c => slug_char c = true) (collapseFrom b s).
Proof.
  intros H. revert b. induction H as [|c r Hc Hr IH]; intros b; simpl; [constructor|].
  destruct (is_sep c) eqn:Hs.
  - destruct b; [apply IH | constructor; [reflexivity | apply IH]].
  - constructor; [apply kept_not_sep_slug; assumption | apply IH].
Qed.

Lemma slugify_chars str : Forall (fun c => slug_char c = true) (slugify str).
Proof.
  unfold slugify, stripHyphens.
  apply dropWhileEnd_Forall, dropWhile_Forall, collapseFrom_slug,
    stripSpecial_kept, toLowerCase_no_upper.
Qed.

Lemma slugify_no_leading_hyphen str c r : slugify str = c :: r -> c <> hyphen.
Proof.
  unfold slugify, stripHyphens. intros H.
  destruct (dropWhileEnd_head _ _ _ _ H) as [r' Hr'].
  apply dropWhile_head in Hr'. unfold is_hyphen in Hr'.
  apply N.eqb_neq in Hr'. exact Hr'.
Qed.

Lemma slugify_no_trailing_hyphen str r c : slugify str = r ++ [c] -> c <> hyphen.
Proof.
  unfold slugify, stripHyphens. intros H.
  apply dropWhileEnd_last in H. unfold is_hyphen in H.
  apply N.eqb_neq in H. exact H.
Qed.

Lemma trimmedIfAny_blank x : blank x -> trimmedIfAny x = None.
Proof.
  destruct x as [s|]; simpl; [|reflexivity].
  intros ->. rewrite andb_false_r. reflexivity.
Qed.

Lemma trim_nonempty_source s : trim s <> [] -> nonempty s = true.
Proof. destruct s; [intros H; exfalso; apply H|]; reflexivity. Qed.

Lemma trimmedIfAny_some s : trim s <> [] -> trimmedIfAny (Some s) = Some (trim s).
Proof.
  intros H. simpl. rewrite (trim_nonempty_source s H).
  destruct (trim s); [contradiction | reflexivity].
Qed.

Lemma nameOrProductId_slugSource u : nameOrProductId u = slugSource u.
Proof. unfold nameOrProductId, slugSource. destruct (name u) as [[|c n]|]; reflexivity. Qed.

Lemma deriveCode_slug u :
  blank (sku u) -> blank (barcode u) ->
  deriveCode u = take 150 (slugify (slugSource u)).
Proof.
  intros Hsku Hbar. unfold deriveCode.
  rewrite (trimmedIfAny_blank _ Hsku), (trimmedIfAny_blank _ Hbar),
    nameOrProductId_slugSource. reflexivity.
Qed.

(** What the steps of [slugify] do to letters and digits: nothing. *)
Lemma alnum_kept c :
  alnum c = true -> is_word c || is_space c || (c =? hyphen) = true.
Proof.
  unfold alnum, is_word. intros H.
  destruct (is_upper c), (is_lower c), (is_digit c); cbn in *; congruence.
Qed.

Lemma sep_not_alnum c : is_sep c = true -> alnum c = false.
Proof.
  intros H. destruct (alnum c) eqn:Ha; [exfalso | reflexivity].
  unfold alnum in Ha. solve_class; lia.
Qed.

Lemma hyphen_not_alnum c : is_hyphen c = true -> alnum c = false.
Proof.
  intros H. destruct (alnum c) eqn:Ha; [exfalso | reflexivity].
  unfold alnum in Ha. solve_class; lia.
Qed.

Lemma filter_alnum_stripSpecial s :
  List.filter alnum (stripSpecial s) = List.filter alnum s.
Proof.
  unfold stripSpecial. induction s as [|c s IH]; [reflexivity|]. cbn [List.filter].
  destruct (is_word c || is_space c || (c =? hyphen)) eqn:Hk.
  - cbn [List.filter]. rewrite IH. reflexivity.
  - rewrite IH. destruct (alnum c) eqn:Ha; [|reflexivity].
    rewrite (alnum_kept c Ha) in Hk. discriminate.
Qed.

Lemma filter_alnum_collapseFrom b s :
  List.filter alnum (collapseFrom b s) = List.filter alnum s.
Proof.
  revert b. induction s as [|c s IH]; intros b; [reflexivity|].
  cbn [collapseFrom List.filter].
  destruct (is_sep c) eqn:Hs.
  - rewrite (sep_not_alnum c Hs).
    destruct b; [apply IH|]. cbn [List.filter].
    rewrite (hyphen_not_alnum hyphen eq_refl). apply IH.
  - cbn [List.filter]. rewrite IH. reflexivity.
Qed.

Lemma filter_alnum_dropWhile s :
  List.filter alnum (dropWhile is_hyphen s) = List.filter alnum s.
Proof.
  induction s as [|c s IH]; [reflexivity|]. cbn [dropWhile].
  destruct (is_hyphen c) eqn:Hh; [|reflexivity].
  cbn [List.filter]. rewrite (hyphen_not_alnum c Hh). exact IH.
Qed.

Lemma filter_alnum_dropWhileEnd s :
  List.filter alnum (dropWhileEnd is_hyphen s) = List.filter alnum s.
Proof.
  unfold dropWhileEnd.
  rewrite List.filter_rev, filter_alnum_dropWhile, <- List.filter_rev, rev_involutive.
  reflexivity.
Qed.

(** The letters and digits of a slug are those of the lower-cased text,
    in the same order. *)
Lemma slugify_alnum str :
  List.filter alnum (slugify str) = List.filter alnum (toLowerCase str).
Proof.
  unfold slugify, stripHyphens, collapse.
  rewrite filter_alnum_dropWhileEnd, filter_alnum_dropWhile,
    filter_alnum_collapseFrom, filter_alnum_stripSpecial.
  reflexivity.
Qed.

Lemma lower_unit_no_hyphen c :
  c <> hyphen -> Forall (fun d => d <> hyphen) (lower_unit c).
Proof.
  intros Hc. unfold lower_unit.
  repeat match goal with
         | |- context [if ?b then _ else _] => destruct b eqn:?
         end;
    repeat constructor; try exact Hc; solve_class; lia.
Qed.

Lemma toLowerCase_no_hyphen s :
  Forall (fun c => c <> hyphen) s -> Forall (fun c => c <> hyphen) (toLowerCase s).
Proof.
  unfold toLowerCase. induction 1 as [|c r Hc Hr IH]; cbn; [constructor|].
  apply Forall_app. split; [exact (lower_unit_no_hyphen c Hc) | exact IH].
Qed.

Lemma stripSpecial_no_hyphen s :
  Forall (fun c => c <> hyphen) s -> Forall (fun c => c <> hyphen) (stripSpecial s).
Proof.
  unfold stripSpecial. induction 1 as [|c r Hc Hr IH]; cbn; [constructor|].
  destruct (is_word c || is_space c || (c =? hyphen)); [constructor|]; assumption.
Qed.

Lemma single_hyphens_cons a b r :
  single_hyphens (a :: b :: r)
  = negb ((a =? hyphen) && (b =? hyphen)) && single_hyphens (b :: r).
Proof. reflexivity. Qed.

(** A run of separators becomes one hyphen: in a text without hyphens of
    its own no two hyphens come out side by side, and none comes first
    while a run is being replaced. *)
Lemma collapseFrom_single b s :
  Forall (fun c => c <> hyphen) s ->
  single_hyphens (collapseFrom b s) = true
  /\ (b = true -> forall c r, collapseFrom b s = c :: r -> c <> hyphen).
Proof.
  intros H. revert b. induction H as [|c r Hc Hr IH]; intros b.
  - split; [reflexivity | discriminate].
  - cbn [collapseFrom]. destruct (is_sep c) eqn:Hs.
    + destruct b.
      * exact (IH true).
      * split; [|discriminate].
        destruct (IH true) as [Hsingle Hhead].
        destruct (collapseFrom true r) as [|d t] eqn:Hrest; [reflexivity|].
        rewrite single_hyphens_cons, Hsingle, andb_true_r.
        apply negb_true_iff, andb_false_iff. right.
        apply N.eqb_neq. exact (Hhead eq_refl d t eq_refl).
    + destruct (IH false) as [Hsingle _]. split.
      * destruct (collapseFrom false r) as [|d t] eqn:Hrest; [reflexivity|].
        rewrite single_hyphens_cons, Hsingle, andb_true_r.
        apply negb_true_iff, andb_false_iff. left.
        apply N.eqb_neq. exact Hc.
      * intros _ d t [= <- _]. exact Hc.
Qed.

Lemma single_hyphens_tail c s :
  single_hyphens (c :: s) = true -> single_hyphens s = true.
Proof.
  destruct s as [|d t]; [reflexivity|]. rewrite single_hyphens_cons.
  intros H. apply andb_prop in H. exact (proj2 H).
Qed.

Lemma single_hyphens_suffix pre s :
  single_hyphens (pre ++ s) = true -> single_hyphens s = true.
Proof.
  induction pre as [|c pre IH]; [trivial|].
  intros H. apply IH. exact (single_hyphens_tail c _ H).
Qed.

Lemma single_hyphens_prefix s suf :
  single_hyphens (s ++ suf) = true -> single_hyphens s = true.
Proof.
  induction s as [|c s IH]; [reflexivity|].
  intros H. destruct s as [|d t]; [reflexivity|].
  cbn [app] in H. rewrite single_hyphens_cons in H |- *.
  apply andb_prop in H. destruct H as [Hcd H].
  rewrite Hcd. cbn [andb]. apply IH. exact H.
Qed.

Lemma slugify_single_hyphens str :
  Forall (fun c => c <> hyphen) str -> single_hyphens (slugify str) = true.
Proof.
  intros H. unfold slugify, stripHyphens, collapse.
  set (t := collapseFrom false (stripSpecial (toLowerCase str))).
  assert (Ht : single_hyphens t = true).
  { apply collapseFrom_single, stripSpecial_no_hyphen, toLowerCase_no_hyphen, H. }
  destruct (dropWhile_suffix is_hyphen t) as [pre Hpre].
  destruct (dropWhileEnd_prefix is_hyphen (dropWhile is_hyphen t)) as [suf Hsuf].
  rewrite Hpre in Ht. apply single_hyphens_suffix in Ht.
  rewrite Hsuf in Ht. exact (single_hyphens_prefix _ _ Ht).
Qed.

(** C4. [deriveCode] follows the precedence SKU, barcode, name: the trimmed
    SKU when it is not empty, whatever barcode and name are; otherwise the
    trimmed barcode when it is not empty; otherwise the slug (cut to the
    150 characters Checkbox accepts) of the display name, or of
    [product-<id>] when the name is empty or missing.  That slug is what
    the word says: lower-case letters, digits and hyphens only, no hyphen
    in front and none at the end of the uncut slug; its letters and
    digits are those of the lower-cased text, in order; and where the
    text has no hyphen of its own, no two hyphens stand side by side. *)
Theorem deriveCode_precedence (u : Unit) :
  (forall s, sku u = Some s -> trim s <> [] -> deriveCode u = trim s)
  /\ (blank (sku u) ->
      forall b, barcode u = Some b -> trim b <> [] -> deriveCode u = trim b)
  /\ (blank (sku u) -> blank (barcode u) ->
      deriveCode u = take 150 (slugify (slugSource u))
      /\ Forall (fun c => slug_char c = true) (deriveCode u)
      /\ (length (deriveCode u) <= 150)%nat
      /\ (forall c r, deriveCode u = c :: r -> c <> hyphen)
      /\ (forall r c, slugify (slugSource u) = r ++ [c] -> c <> hyphen)
      /\ List.filter alnum (slugify (slugSource u))
         = List.filter alnum (toLowerCase (slugSource u))
      /\ (Forall (fun c => c <> hyphen) (slugSource u) ->
          single_hyphens (deriveCode u) = true)).
Proof.
  split; [|split].
  - intros s Hs Ht. unfold deriveCode. rewrite Hs, (trimmedIfAny_some s Ht).
    reflexivity.
  - intros Hsku b Hb Ht. unfold deriveCode.
    rewrite (trimmedIfAny_blank _ Hsku), Hb, (trimmedIfAny_some b Ht). reflexivity.
  - intros Hsku Hbar. rewrite (deriveCode_slug u Hsku Hbar).
    split; [reflexivity|].
    split; [apply Forall_take, slugify_chars|].
    split; [rewrite length_take; lia|].
    split.
    { intros c r H. destruct (slugify (slugSource u)) as [|d t] eqn:Hslug;
        [discriminate|].
      cbn in H. injection H as <- _.
      exact (slugify_no_leading_hyphen _ _ _ Hslug). }
    split; [exact (slugify_no_trailing_hyphen (slugSource u))|].
    split; [apply slugify_alnum|].
    intros Hplain.
    apply (single_hyphens_prefix _ (drop 150 (slugify (slugSource u)))).
    rewrite take_drop. exact (slugify_single_hyphens _ Hplain).
Qed.

(** The cases on concrete units: a SKU wins over barcode and name, a
    barcode over the name, a unit with neither gets the slug of
    [product-<id>], and a name with capitals, runs of blanks and
    underscores and punctuation is slugged. *)
Lemma deriveCode_precedence_witness :
  deriveCode skuUnit = js "A1"
  /\ deriveCode barcodeUnit = js "482"
  /\ deriveCode bareUnit = js "product-7"
  /\ deriveCode messyUnit = js "blue-mug-5-big"
  /\ single_hyphens (deriveCode messyUnit) = true.
Proof.
  split; [|split; [|split; [|split]]].
  - refine (proj1 (deriveCode_precedence skuUnit) (js " A1 ") _ _);
      [reflexivity | vm_compute; discriminate].
  - refine (proj1 (proj2 (deriveCode_precedence barcodeUnit)) _ (js "482 ") _ _);
      [reflexivity | reflexivity | vm_compute; discriminate].
  - rewrite (proj1 (proj2 (proj2 (deriveCode_precedence bareUnit)) I eq_refl)).
    reflexivity.
  - rewrite (proj1 (proj2 (proj2 (deriveCode_precedence messyUnit)) eq_refl I)).
    reflexivity.
  - apply (proj2 (proj2 (deriveCode_precedence messyUnit)) eq_refl I).
    apply Forall_forall. intros c Hc. apply list_elem_of_In in Hc.
    vm_compute in Hc.
    repeat (destruct Hc as [<-|Hc]; [discriminate|]). destruct Hc.
Defined.

(** What holds of the code of a unit without SKU and barcode: slug
    characters only, at most 150 of them, no hyphen in front, and no
    hyphen at the end as long as the slug was not cut. *)
Lemma deriveCode_slug_shape (u : Unit) :
  blank (sku u) -> blank (barcode u) ->
  Forall (fun c => slug_char c = true) (deriveCode u)
  /\ (length (deriveCode u) <= 150)%nat
  /\ (forall c r, deriveCode u = c :: r -> c <> hyphen)
  /\ ((length (slugify (slugSource u)) <= 150)%nat ->
      forall r c, deriveCode u = r ++ [c] -> c <> hyphen).
Proof.
  intros Hsku Hbar.
  rewrite (deriveCode_slug u Hsku Hbar).
  repeat split.
  - apply Forall_take, slugify_chars.
  - rewrite length_take. lia.
  - intros c r H. destruct (slugify (slugSource u)) as [|d t] eqn:Hslug;
      [discriminate|].
    simpl in H. injection H as <- _.
    exact (slugify_no_leading_hyphen _ _ _ Hslug).
  - intros Hlen r c H. rewrite take_ge in H by exact Hlen.
    exact (slugify_no_trailing_hyphen _ _ _ H).
Qed.

(** C5, at the failing input: the slug of [longNameUnit] is cut right after
    the hyphen that replaced the space, so the code ends with a hyphen. *)
Theorem deriveCode_cut_slug_ends_with_hyphen :
  blank (sku longNameUnit) /\ blank (barcode longNameUnit)
  /\ slugify (slugSource longNameUnit) = repeat 97 149 ++ js "-b"
  /\ deriveCode longNameUnit = repeat 97 149 ++ [hyphen].
Proof. repeat split; vm_compute; reflexivity. Qed.

(* --------------------------------------------------------------------- *)
(** ** Catalog mapper: the payload of a good *)
(* --------------------------------------------------------------------- *)

Lemma toCheckboxGood_dom env u pid o :
  dom (toCheckboxGood env u pid o) ⊆ payloadKeys.
Proof.
  unfold toCheckboxGood, payloadKeys.
  destruct (trimmedIfAny (barcode u));
    rewrite !dom_insert_L, dom_empty_L; set_solver.
Qed.

Lemma toCheckboxGood_lookup_other env u pid o k :
  k ∉ payloadKeys -> toCheckboxGood env u pid o !! k = None.
Proof.
  intros Hk. apply not_elem_of_dom. intros Hd.
  apply Hk. exact (toCheckboxGood_dom env u pid o k Hd).
Qed.

Lemma toCheckboxGood_no_group_key env u pid o k :
  In k groupKeys -> toCheckboxGood env u pid o !! k = None.
Proof.
  intros Hk. apply toCheckboxGood_lookup_other.
  unfold payloadKeys. simpl in Hk.
  destruct Hk as [<-|[<-|[<-|[]]]]; set_solver.
Qed.

Lemma goodOfPayload_toCheckboxGood i env u pid o :
  goodOfPayload i (toCheckboxGood env u pid o)
  = Some (mkGood i (deriveCode u) (expectedName u) (expectedPrice u) None).
Proof.
  unfold goodOfPayload.
  rewrite (toCheckboxGood_no_group_key env u pid o "group_id") by (simpl; auto).
  unfold toCheckboxGood.
  destruct (trimmedIfAny (barcode u)); simplify_map_eq; reflexivity.
Qed.

(* --------------------------------------------------------------------- *)
(** ** The reconciler over the catalog store *)
(* --------------------------------------------------------------------- *)

Ltac store_calls :=
  change (@getGoodByCode PosState storeApi) with store_getGoodByCode in *;
  change (@createGood PosState storeApi) with store_createGood in *;
  change (@updateGood PosState storeApi) with store_updateGood in *;
  change (@getGroups PosState storeApi) with store_getGroups in *;
  change (@createGroup PosState storeApi) with store_createGroup in *.

(** Resolving a group creates groups at most: the goods are left alone. *)
Lemma resolveGroupId_store_goods cid cats gm s r gm' s' :
  resolveGroupId storeApi cid cats gm s = (r, gm', s') ->
  pos_goods s' = pos_goods s.
Proof.
  unfold resolveGroupId, getOrCreateInMap. store_calls.
  unfold store_createGroup.
  repeat case_match; intros; simplify_eq; reflexivity.
Qed.

Lemma store_createGood_mapped env u pid o s :
  store_createGood (toCheckboxGood env u pid o) s
  = match pos_goods s !! deriveCode u with
    | Some _ => (Throw (refused 422 "Good with this code already exists"), s)
    | None =>
        (Ok (),
         mkPosState
           (<[deriveCode u :=
                mkGood (freshId s) (deriveCode u) (expectedName u) (expectedPrice u)
                  None]> (pos_goods s))
           (pos_groups s) (N.succ (pos_serial s)))
    end.
Proof.
  unfold store_createGood. rewrite goodOfPayload_toCheckboxGood. reflexivity.
Qed.

Lemma store_updateGood_mapped i env u pid o s :
  store_updateGood i (toCheckboxGood env u pid o) s
  = match pos_goods s !! deriveCode u with
    | Some old =>
        if bool_decide (good_id old = i) then
          (Ok (),
           mkPosState
             (<[deriveCode u :=
                  mkGood i (deriveCode u) (expectedName u) (expectedPrice u) None]>
                (pos_goods s))
             (pos_groups s) (pos_serial s))
        else (Throw (refused 404 "Not found"), s)
    | None => (Throw (refused 404 "Not found"), s)
    end.
Proof.
  unfold store_updateGood. rewrite goodOfPayload_toCheckboxGood. reflexivity.
Qed.

(** The record the store keeps for a unit. *)
Lemma syncUnit_store_goods env cats e m gm s m' gm' s' :
  syncUnit storeApi env cats e (m, gm, s) = (m', gm', s') ->
  pos_goods s' = pos_goods s
  \/ exists i,
      pos_goods s'
      = <[deriveCode (unit e) :=
            mkGood i (deriveCode (unit e)) (expectedName (unit e))
              (expectedPrice (unit e)) None]> (pos_goods s).
Proof.
  unfold syncUnit. store_calls. unfold store_getGoodByCode.
  destruct (negb (truthy (name (unit e)))); [intros; simplify_eq; auto|].
  destruct (negb (nonempty (deriveCode (unit e)))
            || negb (nonempty (trim (deriveCode (unit e)))));
    [intros; simplify_eq; auto|].
  destruct (resolveGroupId storeApi (categoryId e) cats gm s)
    as [[rg gm2] s2] eqn:Hres.
  pose proof (resolveGroupId_store_goods _ _ _ _ _ _ _ Hres) as Hgoods.
  assert (exists groupId,
             match rg with
             | Ok g0 => (g0, gm2, s2)
             | Throw _ => (None, gm2, s2)
             end = (groupId, gm2, s2)) as [groupId ->]
    by (destruct rg; eauto).
  rewrite store_createGood_mapped, Hgoods.
  destruct (pos_goods s !! deriveCode (unit e)) as [good|] eqn:Hlook.
  - destruct (needsUpdate good (unit e)
              || truthy groupId && negb (bool_decide (good_group_id good = groupId))).
    + rewrite store_updateGood_mapped, Hgoods, Hlook.
      rewrite bool_decide_eq_true_2 by reflexivity.
      intros; simplify_eq; simpl. eauto.
    + intros; simplify_eq; auto.
  - intros; simplify_eq; simpl. eauto.
Qed.

(** C9. The payload [toCheckboxGood] builds has no group property: its
    properties are among name, code, price, type, is_weight, tax_codes,
    external_id and barcode.  The reconciler passes the resolved group as
    a fourth argument, for which the function has no parameter, so every
    record that one pass of the loop writes into the catalog, by creation
    or by update, is without a group. *)
Theorem toCheckboxGood_drops_group env u pid o :
  dom (toCheckboxGood env u pid o) ⊆ payloadKeys
  /\ (forall k, In k groupKeys -> toCheckboxGood env u pid o !! k = None)
  /\ (forall cats e m gm s m' gm' s' code g,
        syncUnit storeApi env cats e (m, gm, s) = (m', gm', s') ->
        pos_goods s' !! code = Some g ->
        pos_goods s !! code = Some g \/ good_group_id g = None).
Proof.
  split; [apply toCheckboxGood_dom|].
  split; [intros k; apply toCheckboxGood_no_group_key|].
  intros cats e m gm s m' gm' s' code g Hstep Hg.
  destruct (syncUnit_store_goods _ _ _ _ _ _ _ _ _ Hstep) as [Heq|[i Heq]];
    rewrite Heq in Hg; [left; exact Hg|].
  rewrite lookup_insert in Hg. case_decide; [|left; exact Hg].
  right. injection Hg as <-. reflexivity.
Qed.

(** The unit [mugEntry] is filed under a category, its group is created
    and resolved, and the good written for it still has no group. *)
Lemma toCheckboxGood_drops_group_witness :
  exists m' gm' s' g,
    syncUnit storeApi plainEnv mugCats mugEntry (emptySummary, ∅, emptyStore)
    = (m', gm', s')
    /\ length (pos_groups s') = 1%nat
    /\ pos_goods s' !! js "MUG-1" = Some g
    /\ (pos_goods emptyStore !! js "MUG-1" = Some g \/ good_group_id g = None).
Proof.
  eexists _, _, _, _.
  split; [vm_compute; reflexivity|].
  split; [reflexivity|].
  split; [vm_compute; reflexivity|].
  eapply (proj2 (proj2 (toCheckboxGood_drops_group plainEnv (unit mugEntry) 11 false))
            mugCats mugEntry emptySummary ∅ emptyStore);
    vm_compute; reflexivity.
Defined.

(* --------------------------------------------------------------------- *)
(** ** Webhook: signature check and sale filter *)
(* --------------------------------------------------------------------- *)

Lemma signatureRejected_absent hmac env raw :
  signatureRejected hmac env raw None = false.
Proof. reflexivity. Qed.

(** C10. A request without [x-request-signature] header is never answered
    with the 400 of a failed signature check, whether or not a secret is
    configured, in the current route and in its first revision; and
    without a configured secret [verifySignature] accepts every body and
    signature. *)
Theorem unsigned_request_not_rejected :
  (forall hmac C (crm : CrmApi C) env ours raw body c,
      fst (post hmac crm env ours None raw body c) <> InvalidSignature)
  /\ (forall hmac env raw body, replyFirst hmac env None raw body <> InvalidSignature)
  /\ (forall hmac env raw signature,
        truthy (CHECKBOX_WEBHOOK_SECRET env) = false ->
        verifySignature hmac env raw signature = true).
Proof.
  split; [|split].
  - intros hmac C crm env ours raw body c. unfold post.
    rewrite signatureRejected_absent.
    destruct (saleFilter ours body); simpl; discriminate.
  - intros hmac env raw body. unfold replyFirst.
    rewrite signatureRejected_absent.
    repeat case_match; discriminate.
  - intros hmac env raw signature Hsecret. unfold verifySignature.
    rewrite Hsecret. reflexivity.
Qed.

Lemma unsigned_request_not_rejected_witness :
  verifySignature sampleHmac plainEnv (js "{}") (js "abcd") = true.
Proof.
  apply (proj2 (proj2 unsigned_request_not_rejected)). reflexivity.
Defined.

(** With a secret configured the check is a real one: a wrong signature
    is answered 400, the expected one is let through, and so is a request
    that carries none. *)
Example signature_check_on_samples :
  fst (post sampleHmac storeCrm signedEnv ourCashier (Some (js "abcd")) (js "{}")
         (envelope returnReceipt) emptyCrm) = InvalidSignature
  /\ fst (post sampleHmac storeCrm signedEnv ourCashier (Some (js "00FF")) (js "{}")
           (envelope returnReceipt) emptyCrm) = Ignored (WrongType (Some (js "RETURN")))
  /\ fst (post sampleHmac storeCrm signedEnv ourCashier None (js "{}")
           (envelope returnReceipt) emptyCrm) = Ignored (WrongType (Some (js "RETURN"))).
Proof. repeat split; vm_compute; reflexivity. Qed.

Lemma forallb_goodIdIsNull goods :
  forallb goodIdIsNull goods = true <-> Forall (fun g => gi_good_id g = None) goods.
Proof.
  unfold goodIdIsNull. induction goods as [|g goods IH]; simpl.
  - split; [constructor | reflexivity].
  - rewrite andb_true_iff, IH. split.
    + intros [Hg Hrest]. constructor; [|exact Hrest].
      destruct (gi_good_id g); [discriminate | reflexivity].
    + intros H. inversion H as [|? ? Hg Hrest]; subst.
      rewrite Hg. split; [reflexivity | exact Hrest].
Qed.

Lemma toUpperCase_SELL : toUpperCase (js "SELL") = js "SELL".
Proof. reflexivity. Qed.

Lemma toUpperCase_RETURN : toUpperCase (js "RETURN") = js "RETURN".
Proof. reflexivity. Qed.

Lemma truthy_Some_nonempty (x : jsstring) : x <> [] -> truthy (Some x) = true.
Proof. destruct x; [contradiction | reflexivity]. Qed.

Lemma truthy_true_inv (x : option jsstring) :
  truthy x = true -> exists t, x = Some t /\ t <> [].
Proof.
  destruct x as [[|c t]|]; simpl; try discriminate.
  intros _. exists (c :: t). split; [reflexivity | discriminate].
Qed.

Lemma allGoodIdsNull_test receipt :
  allGoodIdsNull receipt <->
  (0 <? length (default [] (receipt_goods receipt)))%nat
  && forallb goodIdIsNull (default [] (receipt_goods receipt)) = true.
Proof.
  unfold allGoodIdsNull, goodsOf.
  rewrite andb_true_iff, forallb_goodIdIsNull, Nat.ltb_lt.
  destruct (default [] (receipt_goods receipt)); simpl; split; intros [H1 H2];
    split; try assumption; try lia; try discriminate; try contradiction.
Qed.

Lemma cashierMismatch_test ours receipt :
  cashierMismatch ours receipt <->
  truthy ours && truthy (receiptCashierIdOf receipt)
  && negb (bool_decide (receiptCashierIdOf receipt = ours)) = true.
Proof.
  unfold cashierMismatch. rewrite !andb_true_iff, negb_true_iff. split.
  - intros (o & t & -> & Ho & -> & Ht & Hd).
    rewrite !truthy_Some_nonempty by assumption.
    repeat split. apply bool_decide_eq_false_2. congruence.
  - intros [[Ho Ht] Hd].
    apply truthy_true_inv in Ho. destruct Ho as (o & -> & Ho).
    apply truthy_true_inv in Ht. destruct Ht as (t & Ht & Hne).
    rewrite Ht in Hd. apply bool_decide_eq_false_1 in Hd.
    exists o, t. repeat split; try assumption. congruence.
Qed.

Lemma hasCatalogLine_not_null receipt :
  hasCatalogLine receipt -> ~ allGoodIdsNull receipt.
Proof.
  unfold hasCatalogLine, allGoodIdsNull. intros Hex [_ Hall].
  apply Exists_exists in Hex. destruct Hex as (g & Hin & Hg).
  rewrite Forall_forall in Hall. exact (Hg (Hall g Hin)).
Qed.

(** C3. Of a receipt found in the body of a request that passed the
    signature check, the route ignores (reply 200 with [ignored], the CRM
    untouched) the one that carries an order reference, the one whose
    lines all lack a catalog good, the one issued by another cashier than
    the signed-in one, and the one of type RETURN; it accepts (reply 200,
    the receipt handed to [processReceipt]) a SELL receipt without order
    reference that has a catalog-linked line and no cashier mismatch. *)
Theorem saleFilter_classification hmac {C} (crm : CrmApi C) env ours signature raw
    (body : Body) (receipt : Receipt) (c : C) :
  signatureRejected hmac env raw signature = false ->
  receiptOf body = Object receipt ->
  let ignored :=
    exists reason,
      saleFilter ours body = Ignore reason
      /\ post hmac crm env ours signature raw body c = (Ignored reason, c)
      /\ replyStatus (Ignored reason) = 200%Z in
  (receipt_order_id receipt <> None -> ignored)
  /\ (allGoodIdsNull receipt -> ignored)
  /\ (cashierMismatch ours receipt -> ignored)
  /\ (receipt_type receipt = Some (js "RETURN") -> ignored)
  /\ (receipt_type receipt = Some (js "SELL") ->
      receipt_order_id receipt = None ->
      hasCatalogLine receipt ->
      ~ cashierMismatch ours receipt ->
      saleFilter ours body = Process receipt
      /\ fst (post hmac crm env ours signature raw body c) = Accepted
      /\ replyStatus Accepted = 200%Z).
Proof.
  intros Hsig Hrec ignored.
  assert (Hpost : forall reason,
             saleFilter ours body = Ignore reason -> ignored).
  { intros reason Hf. exists reason. unfold post. rewrite Hsig, Hf. auto. }
  pose proof (allGoodIdsNull_test receipt) as Hnull.
  pose proof (cashierMismatch_test ours receipt) as Hcash.
  assert (Hf : saleFilter ours body = saleFilter ours body) by reflexivity.
  unfold saleFilter at 2 in Hf. rewrite Hrec in Hf.
  destruct (nonempty (toUpperCase (strOrEmpty (receipt_type receipt)))
            && negb (JsString.eqb (toUpperCase (strOrEmpty (receipt_type receipt)))
                       (js "SELL"))) eqn:Hty.
  { split; [|split; [|split; [|split]]]; try (intros; exact (Hpost _ Hf)).
    intros Hsell. rewrite Hsell in Hty. vm_compute in Hty. discriminate. }
  destruct (receipt_order_id receipt) eqn:Hord.
  { split; [|split; [|split; [|split]]]; try (intros; exact (Hpost _ Hf)).
    intros; discriminate. }
  destruct ((0 <? length (default [] (receipt_goods receipt)))%nat
            && forallb goodIdIsNull (default [] (receipt_goods receipt))) eqn:Hall.
  { split; [|split; [|split; [|split]]]; try (intros; exact (Hpost _ Hf)).
    intros _ _ Hline _. exfalso.
    apply (hasCatalogLine_not_null _ Hline), Hnull. reflexivity. }
  destruct (truthy ours && truthy (receiptCashierIdOf receipt)
            && negb (bool_decide (receiptCashierIdOf receipt = ours))) eqn:Hmis.
  { split; [|split; [|split; [|split]]]; try (intros; exact (Hpost _ Hf)).
    intros _ _ _ Hno. exfalso. apply Hno, Hcash. reflexivity. }
  split; [intros; contradiction|].
  split; [intros Hn; apply Hnull in Hn; discriminate|].
  split; [intros Hm; apply Hcash in Hm; discriminate|].
  split.
  - intros Hret. rewrite Hret in Hty. vm_compute in Hty. discriminate.
  - intros _ _ _ _. split; [exact Hf|]. split; [|reflexivity].
    unfold post. rewrite Hsig, Hf. reflexivity.
Qed.

Lemma saleFilter_classification_witness :
  (exists reason,
      saleFilter ourCashier (envelope echoReceipt) = Ignore reason
      /\ post sampleHmac storeCrm plainEnv ourCashier None (js "{}")
           (envelope echoReceipt) emptyCrm = (Ignored reason, emptyCrm)
      /\ replyStatus (Ignored reason) = 200%Z)
  /\ (exists reason,
        saleFilter ourCashier (envelope foreignReceipt) = Ignore reason
        /\ post sampleHmac storeCrm plainEnv ourCashier None (js "{}")
             (envelope foreignReceipt) emptyCrm = (Ignored reason, emptyCrm)
        /\ replyStatus (Ignored reason) = 200%Z)
  /\ (exists reason,
        saleFilter ourCashier (envelope otherCashierReceipt) = Ignore reason
        /\ post sampleHmac storeCrm plainEnv ourCashier None (js "{}")
             (envelope otherCashierReceipt) emptyCrm = (Ignored reason, emptyCrm)
        /\ replyStatus (Ignored reason) = 200%Z)
  /\ (exists reason,
        saleFilter ourCashier (envelope returnReceipt) = Ignore reason
        /\ post sampleHmac storeCrm plainEnv ourCashier None (js "{}")
             (envelope returnReceipt) emptyCrm = (Ignored reason, emptyCrm)
        /\ replyStatus (Ignored reason) = 200%Z)
  /\ (saleFilter ourCashier (envelope sellReceipt) = Process sellReceipt
      /\ fst (post sampleHmac storeCrm plainEnv ourCashier None (js "{}")
                (envelope sellReceipt) emptyCrm) = Accepted
      /\ replyStatus Accepted = 200%Z).
Proof.
  pose (thm := fun receipt =>
          saleFilter_classification sampleHmac storeCrm plainEnv ourCashier None
            (js "{}") (envelope receipt) receipt emptyCrm eq_refl eq_refl).
  split; [|split; [|split; [|split]]].
  - apply (proj1 (thm echoReceipt)). discriminate.
  - apply (proj1 (proj2 (thm foreignReceipt))).
    split; [discriminate | repeat constructor].
  - apply (proj1 (proj2 (proj2 (thm otherCashierReceipt)))).
    exists (js "cashier-1"), (js "cashier-2").
    repeat split; vm_compute; discriminate.
  - apply (proj1 (proj2 (proj2 (proj2 (thm returnReceipt))))). reflexivity.
  - apply (proj2 (proj2 (proj2 (proj2 (thm sellReceipt))))).
    + reflexivity.
    + reflexivity.
    + constructor. discriminate.
    + intros (o & t & Ho & _ & Ht & _ & Hd).
      vm_compute in Ho, Ht. congruence.
Defined.

(* --------------------------------------------------------------------- *)
(** ** Reconciler: a failed creation *)
(* --------------------------------------------------------------------- *)

(** C6. For a unit with a name and a code, for which the lookup by code
    found no good, a creation that fails with status 422 (the conflict
    answer of Checkbox) counts as skipped and records no error; a creation
    that fails otherwise records one error, with the code, the cause and
    the answer's data, and does not count as skipped.  Neither counts as
    created or updated. *)
Theorem create_conflict_is_skipped {St} (api : PosApi St) env cats entry
    summary gm s s1 rg gm2 s2 err s3 :
  let u := unit entry in
  let code := deriveCode u in
  truthy (name u) = true ->
  trim code <> [] ->
  getGoodByCode api code s = (Ok None, s1) ->
  resolveGroupId api (categoryId entry) cats gm s1 = (rg, gm2, s2) ->
  createGood api (toCheckboxGood env u (productId entry) (isOffer entry)) s2
  = (Throw err, s3) ->
  exists summary',
    syncUnit api env cats entry (summary, gm, s) = (summary', gm2, s3)
    /\ created summary' = created summary
    /\ updated summary' = updated summary
    /\ (statusOf err = Some 422%Z ->
        skipped summary' = S (skipped summary)
        /\ errors summary' = errors summary)
    /\ (statusOf err <> Some 422%Z ->
        skipped summary' = skipped summary
        /\ errors summary'
           = errors summary
             ++ [mkErrorEntry None (Some code)
                   (js "Failed to create " ++ quote ++ code ++ quote ++ js ": "
                    ++ firstText [ dataOf err ≫= data_message;
                                   dataOf err ≫= data_detail;
                                   Some (message err) ])
                   (dataOf err)]).
Proof.
  intros u code Hname Hcode Hget Hres Hcreate.
  unfold syncUnit. fold u. fold code.
  rewrite Hname, (trim_nonempty_source _ Hcode).
  destruct (trim code) eqn:Htrim; [contradiction|].
  cbn [negb orb nonempty].
  rewrite Hget, Hres.
  assert (exists groupId,
             match rg with
             | Ok g0 => (g0, gm2, s2)
             | Throw _ => (None, gm2, s2)
             end = (groupId, gm2, s2)) as [groupId ->]
    by (destruct rg; eauto).
  rewrite Hcreate.
  destruct (bool_decide (statusOf err = Some 422%Z)) eqn:Hst.
  - apply bool_decide_eq_true_1 in Hst.
    eexists. split; [reflexivity|].
    split; [reflexivity|]. split; [reflexivity|].
    split; [intros _; split; reflexivity | intros Hn; contradiction].
  - apply bool_decide_eq_false_1 in Hst.
    eexists. split; [reflexivity|].
    split; [reflexivity|]. split; [reflexivity|].
    split; [intros Hn; contradiction | intros _; split; reflexivity].
Qed.

Lemma create_conflict_is_skipped_witness :
  (exists summary',
      syncUnit (failingApi conflictError) plainEnv mugCats mugEntry
        (emptySummary, ∅, ()) = (summary', {[ js "mugs::" := mkGroup (js "grp-1") (js "Mugs") None ]}, ())
      /\ skipped summary' = 1%nat /\ errors summary' = [])
  /\ (exists summary',
        syncUnit (failingApi serverError) plainEnv mugCats mugEntry
          (emptySummary, ∅, ()) = (summary', {[ js "mugs::" := mkGroup (js "grp-1") (js "Mugs") None ]}, ())
        /\ skipped summary' = 0%nat /\ length (errors summary') = 1%nat).
Proof.
  split.
  - destruct (create_conflict_is_skipped (failingApi conflictError) plainEnv mugCats
                mugEntry emptySummary ∅ () () (Ok (Some (js "grp-1")))
                {[ js "mugs::" := mkGroup (js "grp-1") (js "Mugs") None ]} ()
                conflictError ())
      as (m & Hrun & _ & _ & Hskip & _);
      [reflexivity | vm_compute; discriminate | reflexivity | reflexivity
      | reflexivity |].
    exists m. split; [exact Hrun|]. apply Hskip. reflexivity.
  - destruct (create_conflict_is_skipped (failingApi serverError) plainEnv mugCats
                mugEntry emptySummary ∅ () () (Ok (Some (js "grp-1")))
                {[ js "mugs::" := mkGroup (js "grp-1") (js "Mugs") None ]} ()
                serverError ())
      as (m & Hrun & _ & _ & _ & Herr);
      [reflexivity | vm_compute; discriminate | reflexivity | reflexivity
      | reflexivity |].
    exists m. split; [exact Hrun|].
    destruct Herr as [Hs He]; [vm_compute; discriminate|].
    split; [exact Hs|]. rewrite He. reflexivity.
Defined.

(** The create branch of the other revisions of the route has no such
    case: there a 422 is recorded as an error like any other failure. *)
Lemma createOrRecord_conflict_is_error {St} (api : PosApi St) code payload u
    summary s err s1 :
  createGood api payload s = (Throw err, s1) ->
  exists entry,
    createOrRecord api code payload u summary s
    = (pushError entry summary, s1)
    /\ ee_code entry = Some code
    /\ skipped (pushError entry summary) = skipped summary.
Proof.
  intros Hcreate. unfold createOrRecord. rewrite Hcreate.
  eexists. split; [reflexivity|]. split; reflexivity.
Qed.

(* --------------------------------------------------------------------- *)
(** ** Group resolver: the cache *)
(* --------------------------------------------------------------------- *)

Section GroupCache.

Context {St : Type}.
Variables api api' : PosApi St.

Lemma cached_Some c key i :
  cached c key = Some i <-> c !! key = Some i /\ i <> [].
Proof.
  unfold cached. destruct (c !! key) as [j|]; [|split; [discriminate | intros [? _]; discriminate]].
  destruct j as [|a j]; simpl.
  - split; [discriminate | intros [[= <-] H]; contradiction].
  - split; [intros [= <-]; split; [reflexivity | discriminate] | intros [[= <-] _]; reflexivity].
Qed.

(** After a resolution that returned an identifier, the cache holds it
    under the key of the pair. *)
Lemma getOrCreateGroup_caches name parent cache s i cache1 s1 :
  getOrCreateGroup api name parent cache s = (Ok i, cache1, s1) ->
  exists c, cache1 = Some c /\ c !! (name ++ sepKey ++ strOrEmpty parent) = Some i.
Proof.
  unfold getOrCreateGroup.
  set (key := name ++ sepKey ++ strOrEmpty parent).
  destruct cache as [c|].
  - destruct (cached c key) as [j|] eqn:Hc.
    + intros [= <- <- <-]. apply cached_Some in Hc. exists c. tauto.
    + destruct (createGroup api name parent s) as [[g|e] s2]; intros [= <- <- <-].
      eexists. split; [reflexivity | apply lookup_insert_eq].
  - destruct (getGroups api s) as [[groups|e] s0]; [|discriminate].
    destruct (cached (fillCache groups ∅) key) as [j|] eqn:Hc.
    + intros [= <- <- <-]. apply cached_Some in Hc. eexists. split; [reflexivity | tauto].
    + destruct (createGroup api name parent s0) as [[g|e] s2]; intros [= <- <- <-].
      eexists. split; [reflexivity | apply lookup_insert_eq].
Qed.

(** A cached identifier is returned without any call. *)
Lemma getOrCreateGroup_hit name parent c s i :
  c !! (name ++ sepKey ++ strOrEmpty parent) = Some i -> i <> [] ->
  getOrCreateGroup api' name parent (Some c) s = (Ok i, Some c, s).
Proof.
  intros Hc Hi. unfold getOrCreateGroup.
  rewrite (proj2 (cached_Some c _ i) (conj Hc Hi)). reflexivity.
Qed.

Lemma getOrCreateInMap_post key name parent gm s g gm1 s1 :
  getOrCreateInMap api key name parent gm s = (Ok g, gm1, s1) ->
  gm1 !! key = Some g
  /\ (forall k v, gm !! k = Some v -> gm1 !! k = Some v).
Proof.
  unfold getOrCreateInMap. destruct (gm !! key) as [g0|] eqn:Hk.
  - intros [= <- <- <-]. auto.
  - destruct (createGroup api name parent s) as [[g1|e] s2]; intros [= <- <- <-].
    split; [apply lookup_insert_eq|].
    intros k v Hv. rewrite lookup_insert_ne; [exact Hv | congruence].
Qed.

Lemma getOrCreateInMap_hit key name parent gm s g :
  gm !! key = Some g ->
  getOrCreateInMap api' key name parent gm s = (Ok g, gm, s).
Proof. intros Hk. unfold getOrCreateInMap. rewrite Hk. reflexivity. Qed.

(** After a resolution that returned an identifier, the group map holds
    the group under the key of the category. *)
Lemma resolveGroupId_caches cid cats gm s i gm1 s1 :
  resolveGroupId api cid cats gm s = (Ok (Some i), gm1, s1) ->
  exists cat parentGroupId group,
    getCategory cats cid = Some cat
    /\ gm1 !! groupKey (cat_name cat) parentGroupId = Some group
    /\ group_id group = i.
Proof.
  unfold resolveGroupId.
  destruct (getCategory cats cid) as [cat|]; [|discriminate].
  destruct (getCategory cats (cat_parent_id cat)) as [parentCat|].
  - destruct (getOrCreateInMap api (groupKey (cat_name parentCat) [])
                (cat_name parentCat) None gm s) as [[[pg|e] gm0] s0] eqn:Hp;
      [|discriminate].
    destruct (getOrCreateInMap api (groupKey (cat_name cat) (group_id pg))
                (cat_name cat) (orNull (group_id pg)) gm0 s0)
      as [[[grp|e] gm2] s2] eqn:Hc; [|discriminate].
    intros [= <- <- <-].
    destruct (getOrCreateInMap_post _ _ _ _ _ _ _ _ Hc) as [Hck _].
    exists cat, (group_id pg), grp. auto.
  - destruct (getOrCreateInMap api (groupKey (cat_name cat) [])
                (cat_name cat) (orNull []) gm s)
      as [[[grp|e] gm2] s2] eqn:Hc; [|discriminate].
    intros [= <- <- <-].
    destruct (getOrCreateInMap_post _ _ _ _ _ _ _ _ Hc) as [Hck _].
    exists cat, [], grp. auto.
Qed.

(** A resolution adds entries to the group map and changes none. *)
Lemma getOrCreateInMap_mono key name parent gm s r gm1 s1 :
  getOrCreateInMap api key name parent gm s = (r, gm1, s1) -> gm ⊆ gm1.
Proof.
  unfold getOrCreateInMap. destruct (gm !! key) as [g0|] eqn:Hk.
  - intros [= <- <- <-]. reflexivity.
  - destruct (createGroup api name parent s) as [[g1|e] s2]; intros [= <- <- <-].
    + apply insert_subseteq. exact Hk.
    + reflexivity.
Qed.

Lemma resolveGroupId_mono cid cats gm s r gm1 s1 :
  resolveGroupId api cid cats gm s = (r, gm1, s1) -> gm ⊆ gm1.
Proof.
  unfold resolveGroupId.
  destruct (getCategory cats cid) as [cat|]; [|intros [= <- <- <-]; reflexivity].
  destruct (getCategory cats (cat_parent_id cat)) as [parentCat|].
  - destruct (getOrCreateInMap api (groupKey (cat_name parentCat) [])
                (cat_name parentCat) None gm s) as [[[pg|e] gm0] s0] eqn:Hp.
    + destruct (getOrCreateInMap api (groupKey (cat_name cat) (group_id pg))
                  (cat_name cat) (orNull (group_id pg)) gm0 s0)
        as [[[grp|e] gm2] s2] eqn:Hc; intros [= <- <- <-];
        (etransitivity;
         [exact (getOrCreateInMap_mono _ _ _ _ _ _ _ _ Hp)
         | exact (getOrCreateInMap_mono _ _ _ _ _ _ _ _ Hc)]).
    + intros [= <- <- <-]. exact (getOrCreateInMap_mono _ _ _ _ _ _ _ _ Hp).
  - destruct (getOrCreateInMap api (groupKey (cat_name cat) [])
                (cat_name cat) (orNull []) gm s)
      as [[[grp|e] gm2] s2] eqn:Hc; intros [= <- <- <-];
      exact (getOrCreateInMap_mono _ _ _ _ _ _ _ _ Hc).
Qed.

(** One pass of the loop hands on the group map its resolution left. *)
Lemma syncUnit_groupMap env cats e summary gm s :
  let '(_, gm', _) := syncUnit api env cats e (summary, gm, s) in
  gm ⊆ gm'
  /\ (forall existing s1 r gm1 s2,
        truthy (name (unit e)) = true ->
        usable (deriveCode (unit e)) = true ->
        getGoodByCode api (deriveCode (unit e)) s = (Ok existing, s1) ->
        resolveGroupId api (categoryId e) cats gm s1 = (r, gm1, s2) ->
        gm' = gm1).
Proof.
  unfold syncUnit.
  destruct (truthy (name (unit e))) eqn:Hname; cbn [negb];
    [|split; [reflexivity | discriminate]].
  destruct (negb (nonempty (deriveCode (unit e)))
            || negb (nonempty (trim (deriveCode (unit e))))) eqn:Hguard.
  { split; [reflexivity|]. intros existing s1 r gm1 s2 _ Hus. exfalso.
    unfold usable in Hus.
    destruct (nonempty (deriveCode (unit e))),
      (nonempty (trim (deriveCode (unit e)))); discriminate. }
  destruct (getGoodByCode api (deriveCode (unit e)) s) as [[existing|err] s1];
    [|split; [reflexivity | discriminate]].
  destruct (resolveGroupId api (categoryId e) cats gm s1) as [[r gm1] s2] eqn:Hr.
  pose proof (resolveGroupId_mono _ _ _ _ _ _ _ Hr) as Hmono.
  assert (Hgoal :
    forall (X : RunState St), snd (fst X) = gm1 ->
      let '(_, gm', _) := X in
      gm ⊆ gm'
      /\ (forall existing0 s0 r0 gm0 s3,
            true = true -> usable (deriveCode (unit e)) = true ->
            (Ok existing, s1) = (Ok existing0, s0) ->
            resolveGroupId api (categoryId e) cats gm s0 = (r0, gm0, s3) ->
            gm' = gm0)).
  { intros [[sum' gm'] s'] Hx. cbn [fst snd] in Hx. subst gm'.
    split; [exact Hmono|].
    intros existing0 s0 r0 gm0 s3 _ _ [= <- <-] Hr0.
    rewrite Hr in Hr0. congruence. }
  apply Hgoal.
  destruct r as [g|e0];
    repeat match goal with
           | |- context [match ?x with _ => _ end] =>
               lazymatch x with
               | context [match _ with _ => _ end] => fail
               | _ => destruct x
               end
           end; reflexivity.
Qed.

Lemma syncUnits_groupMap env cats units summary gm s :
  let '(_, gm', _) := syncUnits api env cats units (summary, gm, s) in gm ⊆ gm'.
Proof.
  revert summary gm s. induction units as [|e units IH]; intros summary gm s.
  - unfold syncUnits. cbn [fold_left]. reflexivity.
  - change (syncUnits api env cats (e :: units) (summary, gm, s))
      with (syncUnits api env cats units (syncUnit api env cats e (summary, gm, s))).
    pose proof (syncUnit_groupMap env cats e summary gm s) as Hone.
    destruct (syncUnit api env cats e (summary, gm, s)) as [[sum1 gm1] s1].
    destruct Hone as [Hone _].
    specialize (IH sum1 gm1 s1).
    destruct (syncUnits api env cats units (sum1, gm1, s1)) as [[sum2 gm2] s2].
    etransitivity; eassumption.
Qed.

(** A resolution that succeeded is repeated without any call on every
    group map that holds the entries it left, whatever the catalog. *)
Lemma resolveGroupId_hit cid cats gm s g gm1 s1 gm2 s2 :
  resolveGroupId api cid cats gm s = (Ok g, gm1, s1) ->
  gm1 ⊆ gm2 ->
  resolveGroupId api' cid cats gm2 s2 = (Ok g, gm2, s2).
Proof.
  unfold resolveGroupId.
  destruct (getCategory cats cid) as [cat|]; [|intros [= <- <- <-]; reflexivity].
  destruct (getCategory cats (cat_parent_id cat)) as [parentCat|].
  - destruct (getOrCreateInMap api (groupKey (cat_name parentCat) [])
                (cat_name parentCat) None gm s) as [[[pg|e] gm0] s0] eqn:Hp;
      [|discriminate].
    destruct (getOrCreateInMap api (groupKey (cat_name cat) (group_id pg))
                (cat_name cat) (orNull (group_id pg)) gm0 s0)
      as [[[grp|e] gm3] s3] eqn:Hc; [|discriminate].
    intros [= <- <- <-] Hsub.
    destruct (getOrCreateInMap_post _ _ _ _ _ _ _ _ Hp) as [Hpk _].
    destruct (getOrCreateInMap_post _ _ _ _ _ _ _ _ Hc) as [Hck Hkeep].
    rewrite (getOrCreateInMap_hit _ _ _ _ _ pg
               (lookup_weaken _ _ _ _ (Hkeep _ _ Hpk) Hsub)).
    rewrite (getOrCreateInMap_hit _ _ _ _ _ grp (lookup_weaken _ _ _ _ Hck Hsub)).
    reflexivity.
  - destruct (getOrCreateInMap api (groupKey (cat_name cat) [])
                (cat_name cat) (orNull []) gm s)
      as [[[grp|e] gm3] s3] eqn:Hc; [|discriminate].
    intros [= <- <- <-] Hsub.
    destruct (getOrCreateInMap_post _ _ _ _ _ _ _ _ Hc) as [Hck _].
    rewrite (getOrCreateInMap_hit _ _ _ _ _ grp (lookup_weaken _ _ _ _ Hck Hsub)).
    reflexivity.
Qed.

(** A call of [getOrCreateGroup] leaves alone what the cache holds: an
    entry with an identifier is neither dropped nor replaced. *)
Lemma getOrCreateGroup_keeps name parent c s key i :
  c !! key = Some i -> i <> [] ->
  exists c',
    snd (fst (getOrCreateGroup api name parent (Some c) s)) = Some c'
    /\ c' !! key = Some i.
Proof.
  intros Hk Hi. unfold getOrCreateGroup.
  destruct (cached c (name ++ sepKey ++ strOrEmpty parent)) as [j|] eqn:Hc.
  - exists c. split; [reflexivity | exact Hk].
  - destruct (createGroup api name parent s) as [[g|e] s2]; cbn [fst snd].
    + eexists. split; [reflexivity|].
      rewrite lookup_insert_ne; [exact Hk|].
      intros <-. rewrite (proj2 (cached_Some c _ i) (conj Hk Hi)) in Hc.
      discriminate.
    + exists c. split; [reflexivity | exact Hk].
Qed.

Lemma later_keeps steps c s key i :
  c !! key = Some i -> i <> [] ->
  exists c', fst (later api steps (Some c) s) = Some c' /\ c' !! key = Some i.
Proof.
  intros Hk Hi. revert c s Hk.
  induction steps as [|[name parent|f] steps IH]; intros c s Hk; cbn [later].
  - exists c. split; [reflexivity | exact Hk].
  - destruct (getOrCreateGroup_keeps name parent c s key i Hk Hi) as (c1 & Hc1 & Hk1).
    destruct (getOrCreateGroup api name parent (Some c) s) as [[r cache1] s1].
    cbn [fst snd] in Hc1. subst cache1. exact (IH c1 s1 Hk1).
  - exact (IH c (f s) Hk).
Qed.

End GroupCache.

(** C7. Within a run, once a (name, parent) pair has been resolved to an
    identifier, the cache holds that identifier under the pair's key when
    the function returns, and it keeps it: whatever the run does next
    (other pairs resolved, with or without success, goods read and
    written), resolving the pair again returns the same identifier and
    leaves cache and catalog as they are, whatever the catalog would
    answer ([api'] is arbitrary): no call is made, in particular no
    second create.  This holds of [getOrCreateGroup] (cache object), of
    [resolveGroupId] (group map) followed by any part of the loop over
    the units, and of the resolution the loop itself makes for a unit:
    the group map is handed on from unit to unit. *)
Theorem group_resolution_is_cached {St} (api api' : PosApi St) :
  (forall name parent cache s i cache1 s1 steps,
      getOrCreateGroup api name parent cache s = (Ok i, cache1, s1) ->
      i <> [] ->
      (exists c, cache1 = Some c
                 /\ c !! (name ++ sepKey ++ strOrEmpty parent) = Some i)
      /\ (let '(cache2, s2) := later api steps cache1 s1 in
          getOrCreateGroup api' name parent cache2 s2 = (Ok i, cache2, s2)))
  /\ (forall env cid cats gm s g gm1 s1 units summary s',
        resolveGroupId api cid cats gm s = (Ok g, gm1, s1) ->
        (forall i, g = Some i ->
                   exists cat parentGroupId group,
                     getCategory cats cid = Some cat
                     /\ gm1 !! groupKey (cat_name cat) parentGroupId = Some group
                     /\ group_id group = i)
        /\ (let '(_, gm2, s2) :=
              syncUnits api env cats units (summary, gm1, s') in
            resolveGroupId api' cid cats gm2 s2 = (Ok g, gm2, s2)))
  /\ (forall env cats e units summary gm s existing s1 g gm1 s2,
        truthy (name (unit e)) = true ->
        usable (deriveCode (unit e)) = true ->
        getGoodByCode api (deriveCode (unit e)) s = (Ok existing, s1) ->
        resolveGroupId api (categoryId e) cats gm s1 = (Ok g, gm1, s2) ->
        let '(_, gm3, s3) :=
          syncUnits api env cats (e :: units) (summary, gm, s) in
        resolveGroupId api' (categoryId e) cats gm3 s3 = (Ok g, gm3, s3)).
Proof.
  split; [|split].
  - intros name parent cache s i cache1 s1 steps Hfirst Hi.
    destruct (getOrCreateGroup_caches api _ _ _ _ _ _ _ Hfirst) as (c & -> & Hc).
    split; [eauto|].
    destruct (later_keeps api steps c s1 _ i Hc Hi) as (c2 & Hc2 & Hk2).
    destruct (later api steps (Some c) s1) as [cache2 s2].
    cbn [fst] in Hc2. subst cache2.
    exact (getOrCreateGroup_hit api' _ _ _ _ _ Hk2 Hi).
  - intros env cid cats gm s g gm1 s1 units summary s' Hfirst. split.
    + intros i ->. exact (resolveGroupId_caches api _ _ _ _ _ _ _ Hfirst).
    + pose proof (syncUnits_groupMap api env cats units summary gm1 s') as Hsub.
      destruct (syncUnits api env cats units (summary, gm1, s')) as [[sum2 gm2] s2].
      exact (resolveGroupId_hit api api' _ _ _ _ _ _ _ gm2 s2 Hfirst Hsub).
  - intros env cats e units summary gm s existing s1 g gm1 s2 Hname Hus Hget Hres.
    change (syncUnits api env cats (e :: units) (summary, gm, s))
      with (syncUnits api env cats units (syncUnit api env cats e (summary, gm, s))).
    pose proof (syncUnit_groupMap api env cats e summary gm s) as Hone.
    destruct (syncUnit api env cats e (summary, gm, s)) as [[sum1 gmA] sA].
    destruct Hone as [_ Hone].
    rewrite (Hone existing s1 (Ok g) gm1 s2 Hname Hus Hget Hres).
    pose proof (syncUnits_groupMap api env cats units sum1 gm1 sA) as Hsub.
    destruct (syncUnits api env cats units (sum1, gm1, sA)) as [[sum3 gm3] s3].
    exact (resolveGroupId_hit api api' _ _ _ _ _ _ _ gm3 s3 Hres Hsub).
Qed.

(** On the store.  The cache: ("Mugs", none) is created, then the catalog
    is emptied behind the cache, two other pairs are resolved, and the
    pair is asked for again against a catalog that refuses every
    creation.  The group map: the category Pots under Mugs is resolved,
    which creates both groups; then three units under these categories
    pass the loop; the store holds two groups in the end and the
    category resolves to the same identifier.  The loop: after the units
    [mugEntry], [redMugEntry] and [potEntry] the store holds the two
    groups Mugs and Pots, each created once. *)
Lemma group_resolution_is_cached_witness :
  let first := getOrCreateGroup storeApi (js "Mugs") None None emptyStore in
  let steps :=
    [Changes (fun _ => emptyStore); Resolves (js "Pots") (Some (js "uuid-0"));
     Resolves (js "Cups") None] in
  let after := later storeApi steps (snd (fst first)) (snd first) in
  let again := resolveGroupId storeApi (Some 6%Z) potCats ∅ emptyStore in
  let '(_, gm2, s2) :=
    syncUnits storeApi plainEnv potCats [mugEntry; potEntry; redMugEntry]
      (emptySummary, snd (fst again), snd again) in
  let '(_, gm3, s3) :=
    syncUnits storeApi plainEnv potCats [mugEntry; redMugEntry; potEntry]
      (emptySummary, ∅, emptyStore) in
  fst (fst first) = Ok (js "uuid-0")
  /\ getOrCreateGroup noCreateApi (js "Mugs") None (fst after) (snd after)
     = (Ok (js "uuid-0"), fst after, snd after)
  /\ fst (fst again) = Ok (Some (js "uuid-1"))
  /\ resolveGroupId noCreateApi (Some 6%Z) potCats gm2 s2
     = (Ok (Some (js "uuid-1")), gm2, s2)
  /\ List.map group_name (pos_groups s2) = [js "Mugs"; js "Pots"]
  /\ resolveGroupId noCreateApi (Some 5%Z) potCats gm3 s3
     = (Ok (Some (js "uuid-0")), gm3, s3)
  /\ List.map group_name (pos_groups s3) = [js "Mugs"; js "Pots"].
Proof.
  intros first steps after again.
  pose proof (proj1 (proj2 (group_resolution_is_cached storeApi noCreateApi))
                plainEnv (Some 6%Z) potCats ∅ emptyStore (Some (js "uuid-1"))
                (snd (fst again)) (snd again) [mugEntry; potEntry; redMugEntry]
                emptySummary (snd again)) as Hmap.
  pose proof (proj2 (proj2 (group_resolution_is_cached storeApi noCreateApi))
                plainEnv potCats mugEntry [redMugEntry; potEntry] emptySummary ∅
                emptyStore None emptyStore (Some (js "uuid-0"))) as Hloop.
  destruct (syncUnits storeApi plainEnv potCats [mugEntry; potEntry; redMugEntry]
              (emptySummary, snd (fst again), snd again)) as [[sum2 gm2] s2] eqn:E2.
  destruct (syncUnits storeApi plainEnv potCats [mugEntry; redMugEntry; potEntry]
              (emptySummary, ∅, emptyStore)) as [[sum3 gm3] s3] eqn:E3.
  split; [reflexivity|].
  split.
  { pose proof (proj1 (group_resolution_is_cached storeApi noCreateApi)
                  (js "Mugs") None None emptyStore (js "uuid-0")
                  (snd (fst first)) (snd first) steps) as Hcache.
    fold after in Hcache. destruct after as [cache2 st2].
    apply Hcache; [vm_compute; reflexivity | vm_compute; discriminate]. }
  split; [vm_compute; reflexivity|].
  split; [apply Hmap; vm_compute; reflexivity|].
  split.
  { apply (f_equal snd) in E2. cbn [snd] in E2. subst s2. vm_compute. reflexivity. }
  split.
  { eapply Hloop; [reflexivity | reflexivity | reflexivity |].
    vm_compute. reflexivity. }
  apply (f_equal snd) in E3. cbn [snd] in E3. subst s3. vm_compute. reflexivity.
Defined.

(* --------------------------------------------------------------------- *)
(** ** Order builder: the scenario receipt *)
(* --------------------------------------------------------------------- *)

(** C8, as stated, fails: handed to [processReceipt], the receipt of the
    scenario yields one order with one line of quantity 2, but the price
    of the line is 0, not 19.99: the line has no [good.price] and no
    [total_sum] of its own, and the [total_sum] of the receipt is not read
    for it. *)
Lemma scenario_line_price_counterexample :
  ~ (exists st' i order line,
        processReceipt storeCrm plainEnv (scenarioReceipt None None) widgetCrm
        = (Ok (), st')
        /\ crm_orders st' = [(i, order)]
        /\ products order = [line]
        /\ (pl_quantity line == 2)%Q
        /\ (pl_price line == 1999 # 100)%Q).
Proof.
  intros (st' & i & order & line & Hrun & Horders & Hlines & _ & Hprice).
  vm_compute in Hrun. injection Hrun as <-.
  simpl in Horders. injection Horders as _ <-.
  simpl in Hlines. injection Hlines as <-.
  vm_compute in Hprice. discriminate.
Qed.

(** As written, without [good_id] on its line, the receipt does not even
    reach [processReceipt]: the route ignores it. *)
Example scenario_without_good_id_is_ignored :
  post sampleHmac storeCrm plainEnv ourCashier None (js "{}")
    (envelope (scenarioReceipt None None)) widgetCrm
  = (Ignored AllGoodIdNull, widgetCrm).
Proof. vm_compute. reflexivity. Qed.

(** C8, amended.  With a catalog reference on its line so that the filter
    accepts it, the receipt of the scenario yields exactly one order with
    exactly one line, for SKU A1, of quantity 2 and price 0, and one
    payment of 39.98 taken from the [total_sum] of the receipt; the price
    of the line is 19.99 when the line carries [good.price] 1999. *)
Theorem scenario_receipt_order hmac env raw :
  (exists order line,
      post hmac storeCrm env ourCashier None raw
        (envelope (scenarioReceipt (Some (js "g-1")) None)) widgetCrm
      = (Accepted,
         mkCrmState (crm_offers widgetCrm) (crm_products widgetCrm) [(1%Z, order)] 1)
      /\ products order = [line]
      /\ pl_sku line = Some (js "A1")
      /\ (pl_quantity line == 2)%Q
      /\ (pl_price line == 0)%Q
      /\ exists pay, payments order = Some [pay] /\ (amount pay == 3998 # 100)%Q)
  /\ (exists order line,
        post hmac storeCrm env ourCashier None raw
          (envelope (scenarioReceipt (Some (js "g-1")) (Some 1999%Q))) widgetCrm
        = (Accepted,
           mkCrmState (crm_offers widgetCrm) (crm_products widgetCrm) [(1%Z, order)] 1)
        /\ products order = [line]
        /\ pl_sku line = Some (js "A1")
        /\ (pl_quantity line == 2)%Q
        /\ (pl_price line == 1999 # 100)%Q).
Proof.
  split.
  - eexists _, _. split; [reflexivity|].
    split; [reflexivity|]. split; [reflexivity|].
    split; [reflexivity|]. split; [reflexivity|].
    eexists. split; reflexivity.
  - eexists _, _. split; [reflexivity|].
    split; [reflexivity|]. split; [reflexivity|].
    split; reflexivity.
Qed.

(* --------------------------------------------------------------------- *)
(** ** Sale ingestion: a receipt submitted twice *)
(* --------------------------------------------------------------------- *)

Ltac crm_calls :=
  change (@getOfferBySku CrmState storeCrm) with store_getOfferBySku in *;
  change (@getOfferByBarcode CrmState storeCrm) with store_getOfferByBarcode in *;
  change (@getProductByName CrmState storeCrm) with store_getProductByName in *;
  change (@createOrder CrmState storeCrm) with store_createOrder in *;
  change (@updateOrder CrmState storeCrm) with store_updateOrder in *.

(** On the store a lookup reads offers and products and nothing else,
    and leaves the state as it is; it fails when the search by name
    meets a product without name. *)
Lemma findOffer_store good offers prods :
  exists r,
    forall orders serial,
      findOffer storeCrm good (mkCrmState offers prods orders serial)
      = (r, mkCrmState offers prods orders serial).
Proof.
  unfold findOffer. crm_calls.
  unfold store_getOfferBySku, store_getOfferByBarcode, store_getProductByName.
  destruct (truthy (rg_code good)), (truthy (rg_barcode good)),
    (truthy (rg_name good));
    cbn [crm_offers crm_products];
    repeat (match goal with
            | |- context [find ?f ?l] => destruct (find f l)
            | |- context [KeycrmHttp.findOrThrow ?f ?l] =>
                destruct (KeycrmHttp.findOrThrow f l) as [[?|]|?]
            end;
            cbn [crm_offers crm_products]);
    eexists; intros; reflexivity.
Qed.

Lemma buildProducts_store goods offers prods :
  exists r,
    forall orders serial,
      buildProducts storeCrm goods (mkCrmState offers prods orders serial)
      = (r, mkCrmState offers prods orders serial).
Proof.
  induction goods as [|goodItem rest [r IH]]; simpl.
  - exists (Ok []). reflexivity.
  - destruct (findOffer_store (default noGood (gi_good goodItem)) offers prods)
      as [[o|e] Ho].
    + destruct r as [lines|e].
      * exists (Ok (if match o with
                       | Some _ => false
                       | None =>
                           negb (truthy (rg_code (default noGood (gi_good goodItem))))
                           && negb (truthy (rg_name (default noGood (gi_good goodItem))))
                       end
                    then lines else toKeycrmProduct goodItem o :: lines)).
        intros orders serial. rewrite Ho, IH.
        destruct (match o with Some _ => false | None => _ end); reflexivity.
      * exists (Throw e). intros orders serial. rewrite Ho, IH. reflexivity.
    + exists (Throw e). intros orders serial. rewrite Ho. reflexivity.
Qed.

(** The answer the [catch] block takes for a duplicate: status 422 and a
    message, in the data of the answer, that names [source_uuid]. *)
Lemma isDuplicate_intro err m :
  statusOf err = Some 422%Z ->
  dataMessageOf err = Some m ->
  includes (js "source_uuid") (toLowerCase m) = true ->
  isDuplicate err = true.
Proof.
  intros Hst Hm Hinc. unfold isDuplicate. rewrite Hst, Hm.
  destruct m as [|a m]; [vm_compute in Hinc; discriminate|].
  rewrite bool_decide_eq_true_2 by reflexivity. exact Hinc.
Qed.

Lemma existsb_sameUuid_filter u orders :
  existsb (sameUuid (Some u)) orders
  = negb (bool_decide (List.filter (sameUuid (Some u)) orders = [])).
Proof.
  induction orders as [|o orders IH]; cbn [existsb List.filter]; [reflexivity|].
  destruct (sameUuid (Some u) o); cbn [orb]; [|exact IH].
  rewrite bool_decide_eq_false_2 by discriminate. reflexivity.
Qed.

Lemma processReceipt_store_fresh env receipt rid offers prods orders serial lines :
  receipt_id receipt = Some rid ->
  List.filter (sameUuid (Some rid)) orders = [] ->
  (forall orders' serial',
      buildProducts storeCrm (goodsOf receipt)
        (mkCrmState offers prods orders' serial')
      = (Ok lines, mkCrmState offers prods orders' serial')) ->
  lines <> [] ->
  processReceipt storeCrm env receipt (mkCrmState offers prods orders serial)
  = (Ok (),
     mkCrmState offers prods
       (orders ++ [((serial + 1)%Z, orderPayloadOf env receipt lines)])
       (serial + 1)).
Proof.
  intros Hid Hnone Hlines Hne. unfold processReceipt.
  fold (goodsOf receipt). rewrite Hlines.
  destruct lines as [|l lines]; [contradiction|].
  crm_calls. unfold store_createOrder, store_updateOrder.
  cbn [crm_orders crm_offers crm_products crm_serial source_uuid orderPayloadOf].
  rewrite Hid, existsb_sameUuid_filter, Hnone.
  rewrite bool_decide_eq_true_2 by reflexivity. cbn [negb].
  destruct (truthyZ (order_id (mkOrder (Some (serial + 1)%Z)))); reflexivity.
Qed.

Lemma processReceipt_store_duplicate env receipt rid offers prods orders serial lines :
  receipt_id receipt = Some rid ->
  List.filter (sameUuid (Some rid)) orders <> [] ->
  (forall orders' serial',
      buildProducts storeCrm (goodsOf receipt)
        (mkCrmState offers prods orders' serial')
      = (Ok lines, mkCrmState offers prods orders' serial')) ->
  processReceipt storeCrm env receipt (mkCrmState offers prods orders serial)
  = (Ok (), mkCrmState offers prods orders serial).
Proof.
  intros Hid Hsome Hlines. unfold processReceipt.
  fold (goodsOf receipt). rewrite Hlines.
  destruct lines as [|l lines]; [reflexivity|].
  crm_calls. unfold store_createOrder.
  cbn [crm_orders crm_offers crm_products crm_serial source_uuid orderPayloadOf].
  rewrite Hid, existsb_sameUuid_filter.
  rewrite bool_decide_eq_false_2 by exact Hsome. cbn [negb].
  reflexivity.
Qed.

(** C2. The order payload carries the receipt identifier as its
    idempotency key [source_uuid]; whatever the CRM, when the creation of
    the order is answered with the duplicate-key failure (status 422, a
    message naming [source_uuid]), [processReceipt] returns normally; and
    against a CRM that keeps one order per key, a receipt whose goods
    yield at least one order line and that is submitted twice through
    the route is answered 200 both times and leaves exactly one order
    for its identifier, the one built from these lines: the second
    submission changes nothing.  A receipt whose look-ups fail (the
    search by name meets a product without name) or yield no line is
    answered 200 as well and leaves the CRM as it was, on either
    submission; this is stated for names written in Basic Latin, Latin-1
    or Cyrillic, where the search by name compares as the code does. *)
Theorem duplicate_receipt_one_order :
  (forall env receipt lines,
      source_uuid (orderPayloadOf env receipt lines) = receipt_id receipt)
  /\ (forall C (crm : CrmApi C) env receipt c lines c1 err c2 m,
        buildProducts crm (goodsOf receipt) c = (Ok lines, c1) ->
        lines <> [] ->
        createOrder crm (orderPayloadOf env receipt lines) c1 = (Throw err, c2) ->
        statusOf err = Some 422%Z ->
        dataMessageOf err = Some m ->
        includes (js "source_uuid") (toLowerCase m) = true ->
        processReceipt crm env receipt c = (Ok (), c2))
  /\ (forall hmac env ours signature raw body receipt rid st lines,
        signatureRejected hmac env raw signature = false ->
        saleFilter ours body = Process receipt ->
        receipt_id receipt = Some rid ->
        ordersFor rid st = [] ->
        fst (buildProducts storeCrm (goodsOf receipt) st) = Ok lines ->
        lines <> [] ->
        let first := post hmac storeCrm env ours signature raw body st in
        let second := post hmac storeCrm env ours signature raw body (snd first) in
        fst first = Accepted
        /\ fst second = Accepted
        /\ (exists i built,
              ordersFor rid (snd second) = [(i, orderPayloadOf env receipt built)])
        /\ length (crm_orders (snd second)) = Datatypes.S (length (crm_orders st))
        /\ snd second = snd first
        /\ processReceipt storeCrm env receipt (snd first) = (Ok (), snd first))
  /\ (forall hmac env ours signature raw body receipt st,
        signatureRejected hmac env raw signature = false ->
        saleFilter ours body = Process receipt ->
        forallb (fun g => tabledText (strOrEmpty (rg_name (soldGood g))))
          (goodsOf receipt) = true ->
        forallb (fun p => tabledText (strOrEmpty (cp_name p))) (crm_products st)
        = true ->
        (forall lines,
            fst (buildProducts storeCrm (goodsOf receipt) st) = Ok lines ->
            lines = []) ->
        let first := post hmac storeCrm env ours signature raw body st in
        let second := post hmac storeCrm env ours signature raw body (snd first) in
        first = (Accepted, st) /\ second = (Accepted, st)).
Proof.
  split; [reflexivity|]. split; [|split].
  - intros C crm env receipt c lines c1 err c2 m Hlines Hne Hcreate Hst Hm Hinc.
    unfold processReceipt. fold (goodsOf receipt). rewrite Hlines.
    destruct lines as [|l lines]; [contradiction|].
    rewrite Hcreate, (isDuplicate_intro err m Hst Hm Hinc). reflexivity.
  - intros hmac env ours signature raw body receipt rid st lines Hsig Hfilter Hid
      Hnone Hsome Hne.
    destruct st as [offers prods orders serial].
    destruct (buildProducts_store (goodsOf receipt) offers prods) as [r Hl].
    rewrite Hl in Hsome. cbn [fst] in Hsome. subst r.
    unfold ordersFor in Hnone. cbn [crm_orders] in Hnone.
    pose proof (processReceipt_store_fresh env receipt rid offers prods orders
                  serial lines Hid Hnone Hl Hne) as Hfirst.
    set (st1 := mkCrmState offers prods
                  (orders ++ [((serial + 1)%Z, orderPayloadOf env receipt lines)])
                  (serial + 1)) in *.
    assert (Hkept : List.filter (sameUuid (Some rid))
                      (orders ++ [((serial + 1)%Z, orderPayloadOf env receipt lines)])
                    = [((serial + 1)%Z, orderPayloadOf env receipt lines)]).
    { rewrite List.filter_app, Hnone. cbn [List.filter sameUuid snd source_uuid
                                             orderPayloadOf app].
      rewrite Hid, bool_decide_eq_true_2 by reflexivity. reflexivity. }
    assert (Hsecond : processReceipt storeCrm env receipt st1 = (Ok (), st1)).
    { apply (processReceipt_store_duplicate env receipt rid offers prods _ _ lines
               Hid); [|exact Hl].
      rewrite Hkept. discriminate. }
    intros first second.
    assert (Hf : first = (Accepted, st1)).
    { unfold first, post. rewrite Hsig, Hfilter, Hfirst. reflexivity. }
    assert (Hs : second = (Accepted, st1)).
    { unfold second, post. rewrite Hf. cbn [snd].
      rewrite Hsig, Hfilter, Hsecond. reflexivity. }
    rewrite Hs, Hf. cbn [fst snd].
    split; [reflexivity|]. split; [reflexivity|].
    split; [exists (serial + 1)%Z, lines; exact Hkept|].
    split; [unfold st1; cbn [crm_orders]; rewrite length_app; cbn [length]; lia|].
    split; [reflexivity | exact Hsecond].
  - intros hmac env ours signature raw body receipt st Hsig Hfilter _ _ Hnone.
    destruct st as [offers prods orders serial].
    destruct (buildProducts_store (goodsOf receipt) offers prods) as [r Hl].
    rewrite Hl in Hnone. cbn [fst] in Hnone.
    assert (Hp : snd (processReceipt storeCrm env receipt
                        (mkCrmState offers prods orders serial))
                 = mkCrmState offers prods orders serial).
    { unfold processReceipt. fold (goodsOf receipt). rewrite Hl.
      destruct r as [lines|e]; [|reflexivity].
      rewrite (Hnone lines eq_refl). reflexivity. }
    intros first second.
    assert (Hf : first = (Accepted, mkCrmState offers prods orders serial)).
    { unfold first, post. rewrite Hsig, Hfilter, Hp. reflexivity. }
    split; [exact Hf|].
    unfold second. rewrite Hf. cbn [snd]. unfold post.
    rewrite Hsig, Hfilter, Hp. reflexivity.
Qed.

(** The receipt [sellReceipt], identifier [r-1], submitted twice to a CRM
    that knows its product: one order, and the second call of
    [processReceipt], whose creation is refused as a duplicate, returns.
    The receipt [nameOnlyReceipt], whose only good has a name and nothing
    else, submitted to a CRM that lists a product without name: the
    search by name fails and no order is created. *)
Lemma duplicate_receipt_one_order_witness :
  let first :=
    post sampleHmac storeCrm plainEnv ourCashier None (js "{}")
      (envelope sellReceipt) widgetCrm in
  let second :=
    post sampleHmac storeCrm plainEnv ourCashier None (js "{}")
      (envelope sellReceipt) (snd first) in
  (fst first = Accepted
   /\ fst second = Accepted
   /\ (exists i built,
         ordersFor (js "r-1") (snd second)
         = [(i, orderPayloadOf plainEnv sellReceipt built)])
   /\ length (crm_orders (snd second)) = 1%nat
   /\ snd second = snd first
   /\ processReceipt storeCrm plainEnv sellReceipt (snd first) = (Ok (), snd first))
  /\ processReceipt storeCrm plainEnv sellReceipt (snd first) = (Ok (), snd first)
  /\ (fst (buildProducts storeCrm (goodsOf nameOnlyReceipt) namelessCrm)
      = Throw KeycrmHttp.nameTypeError
      /\ post sampleHmac storeCrm plainEnv ourCashier None (js "{}")
           (envelope nameOnlyReceipt) namelessCrm
         = (Accepted, namelessCrm)).
Proof.
  intros first second. split; [|split].
  - eapply (proj1 (proj2 (proj2 duplicate_receipt_one_order)) sampleHmac plainEnv
              ourCashier None (js "{}") (envelope sellReceipt) sellReceipt (js "r-1")
              widgetCrm);
      [reflexivity | reflexivity | reflexivity | reflexivity
      | vm_compute; reflexivity | discriminate].
  - eapply (proj1 (proj2 duplicate_receipt_one_order) CrmState storeCrm plainEnv
              sellReceipt (snd first) _ (snd first) duplicateError (snd first));
      try (vm_compute; reflexivity).
    vm_compute. discriminate.
  - split; [vm_compute; reflexivity|].
    apply (proj2 (proj2 (proj2 duplicate_receipt_one_order)) sampleHmac plainEnv
             ourCashier None (js "{}") (envelope nameOnlyReceipt) nameOnlyReceipt
             namelessCrm); try reflexivity.
    intros lines H. vm_compute in H. discriminate.
Defined.

(* --------------------------------------------------------------------- *)
(** ** Reconciler: running twice *)
(* --------------------------------------------------------------------- *)

Lemma needsUpdate_mapped i code u g :
  needsUpdate (mkGood i code (expectedName u) (expectedPrice u) g) u = false.
Proof.
  unfold needsUpdate, JsString.eqb. cbn [good_price good_name].
  rewrite Z.eqb_refl, bool_decide_eq_true_2 by reflexivity. reflexivity.
Qed.

Lemma usable_guard code :
  negb (nonempty code) || negb (nonempty (trim code)) = negb (usable code).
Proof. unfold usable. destruct (nonempty code), (nonempty (trim code)); reflexivity. Qed.

Lemma resolveGroupId_uncategorised {St} (api : PosApi St) cid cats gm s :
  truthyZ cid = false -> resolveGroupId api cid cats gm s = (Ok None, gm, s).
Proof. intros H. unfold resolveGroupId, getCategory. rewrite H. reflexivity. Qed.

(** One pass of the loop leaves a named unit in step with the catalog. *)
Lemma syncUnit_store_synced env cats e m gm s m' gm' s' :
  named e ->
  syncUnit storeApi env cats e (m, gm, s) = (m', gm', s') ->
  synced (pos_goods s') e.
Proof.
  unfold named, syncUnit, synced, codeOf. intros Hname.
  store_calls. unfold store_getGoodByCode.
  rewrite Hname, usable_guard. cbn [negb].
  destruct (usable (deriveCode (unit e))); cbn [negb];
    [|intros _ Hus; discriminate].
  destruct (resolveGroupId storeApi (categoryId e) cats gm s)
    as [[rg gm2] s2] eqn:Hres.
  pose proof (resolveGroupId_store_goods _ _ _ _ _ _ _ Hres) as Hgoods.
  assert (exists groupId,
             match rg with
             | Ok g0 => (g0, gm2, s2)
             | Throw _ => (None, gm2, s2)
             end = (groupId, gm2, s2)) as [groupId ->]
    by (destruct rg; eauto).
  rewrite store_createGood_mapped, Hgoods.
  destruct (pos_goods s !! deriveCode (unit e)) as [good|] eqn:Hlook.
  - destruct (needsUpdate good (unit e)) eqn:Hneeds; cbn [orb].
    + rewrite store_updateGood_mapped, Hgoods, Hlook.
      rewrite bool_decide_eq_true_2 by reflexivity.
      intros [= <- <- <-] _. cbn [pos_goods].
      eexists. split; [apply lookup_insert_eq | apply needsUpdate_mapped].
    + destruct (truthy groupId && negb (bool_decide (good_group_id good = groupId))).
      * rewrite store_updateGood_mapped, Hgoods, Hlook.
        rewrite bool_decide_eq_true_2 by reflexivity.
        intros [= <- <- <-] _. cbn [pos_goods].
        eexists. split; [apply lookup_insert_eq | apply needsUpdate_mapped].
      * intros [= <- <- <-] _. rewrite Hgoods. eauto.
  - intros [= <- <- <-] _. cbn [pos_goods].
    eexists. split; [apply lookup_insert_eq | apply needsUpdate_mapped].
Qed.

(** A pass of the loop for another code leaves the unit in step. *)
Lemma syncUnit_store_keeps env cats e e' m gm s m' gm' s' :
  syncUnit storeApi env cats e' (m, gm, s) = (m', gm', s') ->
  codeOf e' <> codeOf e ->
  synced (pos_goods s) e -> synced (pos_goods s') e.
Proof.
  intros Hstep Hne Hsync Hus.
  destruct (Hsync Hus) as (g & Hg & Hup).
  exists g. split; [|exact Hup].
  destruct (syncUnit_store_goods _ _ _ _ _ _ _ _ _ Hstep) as [->|[i ->]];
    [exact Hg|].
  rewrite lookup_insert_ne; [exact Hg | exact Hne].
Qed.

(** A pass of the loop for a unit without usable code leaves the goods
    alone. *)
Lemma syncUnit_store_unusable env cats e m gm s m' gm' s' :
  syncUnit storeApi env cats e (m, gm, s) = (m', gm', s') ->
  usable (codeOf e) = false ->
  pos_goods s' = pos_goods s.
Proof.
  unfold syncUnit, codeOf. intros Hstep Hus. revert Hstep.
  destruct (negb (truthy (name (unit e)))); [intros [= <- <- <-]; reflexivity|].
  rewrite usable_guard, Hus. cbn [negb]. intros [= <- <- <-]. reflexivity.
Qed.

Lemma syncUnits_cons {St} (api : PosApi St) env cats e units st :
  syncUnits api env cats (e :: units) st
  = syncUnits api env cats units (syncUnit api env cats e st).
Proof. reflexivity. Qed.

(** After the loop every named unit is in step with the catalog, provided
    no two units share a usable code. *)
Lemma syncUnits_store_synced env cats units :
  Forall named units ->
  NoDup (usableCodes units) ->
  forall m gm s m' gm' s',
    syncUnits storeApi env cats units (m, gm, s) = (m', gm', s') ->
    Forall (synced (pos_goods s')) units
    /\ (forall e, usable (codeOf e) = true -> codeOf e ∉ usableCodes units ->
                  synced (pos_goods s) e -> synced (pos_goods s') e).
Proof.
  induction units as [|e units IH]; intros Hnamed Hdup m gm s m' gm' s' Hrun.
  - cbn in Hrun. injection Hrun as <- <- <-. split; [constructor | auto].
  - rewrite syncUnits_cons in Hrun.
    destruct (syncUnit storeApi env cats e (m, gm, s)) as [[m1 gm1] s1] eqn:Hstep.
    inversion Hnamed as [|? ? Hn Hns]; subst.
    assert (Hdup' : NoDup (usableCodes units)).
    { unfold usableCodes in *. cbn [List.map List.filter] in Hdup.
      destruct (usable (codeOf e)); [apply NoDup_cons in Hdup; tauto | exact Hdup]. }
    destruct (IH Hns Hdup' _ _ _ _ _ _ Hrun) as [Hall Hkeep].
    split.
    + constructor; [|exact Hall].
      pose proof (syncUnit_store_synced _ _ _ _ _ _ _ _ _ Hn Hstep) as Hsync.
      destruct (usable (codeOf e)) eqn:Hus; [|intros Hc; congruence].
      apply Hkeep; [exact Hus | | exact Hsync].
      unfold usableCodes in Hdup. cbn [List.map List.filter] in Hdup.
      rewrite Hus in Hdup. apply NoDup_cons in Hdup. tauto.
    + intros e0 Hus0 Hnotin Hsync0.
      apply Hkeep; [exact Hus0 | |].
      * intros Hin. apply Hnotin. unfold usableCodes. cbn [List.map List.filter].
        destruct (usable (codeOf e)); [right|]; exact Hin.
      * destruct (usable (codeOf e)) eqn:Hus.
        -- apply (syncUnit_store_keeps _ _ _ _ _ _ _ _ _ _ Hstep); [|exact Hsync0].
           intros Heq. apply Hnotin. unfold usableCodes.
           cbn [List.map List.filter]. rewrite Hus, Heq. left.
        -- intros _. destruct (Hsync0 Hus0) as (g & Hg & Hup).
           rewrite (syncUnit_store_unusable _ _ _ _ _ _ _ _ _ Hstep Hus). eauto.
Qed.

(** A pass of the loop for a unit that is named, not filed under a
    category and in step with the catalog is a skip. *)
Lemma syncUnit_store_skip env cats e m gm s :
  named e -> uncategorised e -> synced (pos_goods s) e ->
  exists m',
    syncUnit storeApi env cats e (m, gm, s) = (m', gm, s)
    /\ created m' = created m /\ updated m' = updated m
    /\ skipped m' = S (skipped m).
Proof.
  unfold named, uncategorised, synced, codeOf. intros Hname Hcat Hsync.
  unfold syncUnit. store_calls. unfold store_getGoodByCode.
  rewrite Hname, usable_guard. cbn [negb].
  destruct (usable (deriveCode (unit e))) eqn:Hus; cbn [negb].
  - destruct (Hsync eq_refl) as (g & Hg & Hup).
    rewrite (resolveGroupId_uncategorised storeApi _ cats gm s Hcat), Hg, Hup.
    cbn [truthy andb orb]. eexists. repeat split; reflexivity.
  - eexists. repeat split; reflexivity.
Qed.

Lemma syncUnits_store_skip env cats units :
  Forall named units -> Forall uncategorised units ->
  forall m gm s,
    Forall (synced (pos_goods s)) units ->
    exists m',
      syncUnits storeApi env cats units (m, gm, s) = (m', gm, s)
      /\ created m' = created m /\ updated m' = updated m
      /\ skipped m' = (skipped m + length units)%nat.
Proof.
  induction units as [|e units IH]; intros Hnamed Hcat m gm s Hsync.
  - exists m. cbn. repeat split; lia.
  - inversion Hnamed; inversion Hcat; inversion Hsync; subst.
    destruct (syncUnit_store_skip env cats e m gm s) as (m1 & Hstep & Hc & Hu & Hs);
      try assumption.
    destruct (IH ltac:(assumption) ltac:(assumption) m1 gm s ltac:(assumption))
      as (m' & Hrun & Hc' & Hu' & Hs').
    exists m'. rewrite syncUnits_cons, Hstep. cbn [length].
    repeat split; [exact Hrun | congruence | congruence | lia].
Qed.

Lemma prefetch_store crm s :
  exists cats gm, prefetch storeApi crm s = (cats, gm, s).
Proof.
  unfold prefetch. store_calls. unfold store_getGroups.
  destruct (getProductCategories crm); eauto.
Qed.

(** C1, as stated, fails: a product without a name is reported as an
    error on every run and never counted as skipped, so the second run
    over a catalog of one such product has a skipped count of 0 for 1
    syncable unit. *)
Lemma nameless_unit_counterexample :
  exists units m1 s1 summary s2,
    collectUnits namelessCatalog
      [mkProduct (mkUnit 3 None (Some (js "X-3")) None (Some 5%Q) []) false None None]
    = Ok units
    /\ run storeApi namelessCatalog plainEnv None emptyStore = (Done m1, s1)
    /\ run storeApi namelessCatalog plainEnv None s1 = (Done summary, s2)
    /\ s2 = s1
    /\ created summary = 0%nat /\ updated summary = 0%nat
    /\ length (errors summary) = 1%nat
    /\ skipped summary <> length units.
Proof.
  eexists _, _, _, _, _.
  split; [reflexivity|].
  split; [vm_compute; reflexivity|].
  split; [vm_compute; reflexivity|].
  repeat split; vm_compute; discriminate.
Qed.

(** Two units that share a code and differ in price are written over each
    other on every run: the second run updates twice. *)
Example shared_code_updates_again :
  exists m1 s1 summary s2,
    run storeApi twinCatalog plainEnv None emptyStore = (Done m1, s1)
    /\ run storeApi twinCatalog plainEnv None s1 = (Done summary, s2)
    /\ updated summary = 2%nat /\ skipped summary = 0%nat.
Proof.
  eexists _, _, _, _.
  split; [vm_compute; reflexivity|].
  split; [vm_compute; reflexivity|]. split; reflexivity.
Qed.

(** A unit filed under a category is updated on every run: the group is
    resolved, the stored good has none, and the payload sent to repair
    that has none either. *)
Example categorised_unit_updates_again :
  exists m1 s1 summary s2,
    run storeApi mugCatalog plainEnv None emptyStore = (Done m1, s1)
    /\ run storeApi mugCatalog plainEnv None s1 = (Done summary, s2)
    /\ created m1 = 1%nat
    /\ updated summary = 1%nat /\ skipped summary = 0%nat.
Proof.
  eexists _, _, _, _.
  split; [vm_compute; reflexivity|].
  split; [vm_compute; reflexivity|]. repeat split; reflexivity.
Qed.

(** C1, amended.  Over a catalog that keeps what it is sent, when every
    unit has a name, no two units share a usable code and no unit is
    filed under a category, a run that follows a completed run with
    nothing changed in between creates nothing, updates nothing, leaves
    the catalog as it is, and its skipped count is the number of units. *)
Theorem second_run_skips_everything crm env secret s products units m1 s1 :
  getAllProducts crm = Ok products ->
  collectUnits crm products = Ok units ->
  Forall named units ->
  NoDup (usableCodes units) ->
  Forall uncategorised units ->
  run storeApi crm env secret s = (Done m1, s1) ->
  exists summary,
    run storeApi crm env secret s1 = (Done summary, s1)
    /\ created summary = 0%nat
    /\ updated summary = 0%nat
    /\ skipped summary = length units.
Proof.
  intros Hprods Hunits Hnamed Hdup Hcat. unfold run.
  rewrite Hprods, Hunits.
  destruct (negb (bool_decide (secret = SYNC_SECRET env))); [discriminate|].
  destruct (prefetch_store crm s) as (cats & gm & ->).
  destruct (prefetch_store crm s1) as (cats1 & gm1 & ->).
  destruct (syncUnits storeApi env cats units (emptySummary, gm, s))
    as [[m1' gm'] s1'] eqn:Hfirst.
  intros [= <- <-].
  destruct (syncUnits_store_synced env cats units Hnamed Hdup _ _ _ _ _ _ Hfirst)
    as [Hsynced _].
  destruct (syncUnits_store_skip env cats1 units Hnamed Hcat emptySummary gm1 s1'
              Hsynced) as (m2 & Hsecond & Hc & Hu & Hs).
  exists m2. rewrite Hsecond. repeat split; assumption.
Qed.

(** The shop of the samples: a plain product, two offers of one product
    and a product whose name leaves no usable code; five passes in all,
    the second run skips each. *)
Lemma second_run_skips_everything_witness :
  exists units m1 s1 summary,
    collectUnits shopCatalog (match getAllProducts shopCatalog with
                              | Ok ps => ps
                              | Throw _ => []
                              end) = Ok units
    /\ length units = 4%nat
    /\ run storeApi shopCatalog plainEnv None emptyStore = (Done m1, s1)
    /\ created m1 = 3%nat
    /\ run storeApi shopCatalog plainEnv None s1 = (Done summary, s1)
    /\ created summary = 0%nat
    /\ updated summary = 0%nat
    /\ skipped summary = length units.
Proof.
  assert (Hfirst : exists m1 s1,
             run storeApi shopCatalog plainEnv None emptyStore = (Done m1, s1)
             /\ created m1 = 3%nat).
  { eexists _, _. split; vm_compute; reflexivity. }
  destruct Hfirst as (m1 & s1 & Hfirst & Hcreated).
  destruct (second_run_skips_everything shopCatalog plainEnv None emptyStore
              _ _ m1 s1 eq_refl eq_refl) as (summary & Hrun & Hc & Hu & Hs).
  - repeat constructor.
  - apply (bool_decide_unpack _). vm_compute. exact I.
  - repeat constructor.
  - exact Hfirst.
  - eexists _, m1, s1, summary.
    split; [reflexivity|]. split; [reflexivity|].
    split; [exact Hfirst|]. split; [exact Hcreated|].
    split; [exact Hrun|]. auto.
Defined.

(* --------------------------------------------------------------------- *)
(** ** KeyCRM reads: pagination *)
(* --------------------------------------------------------------------- *)

Section PagedListing.

Context {A : Type}.
Variable items : list A.

Lemma servePages_next k :
  servePages items (k + 1)
  = Ok (KeycrmHttp.mkPage (take KeycrmHttp.limit (drop (k * KeycrmHttp.limit) items))
          (length items)).
Proof. unfold servePages. replace (k + 1 - 1)%nat with k by lia. reflexivity. Qed.

Lemma fetchAll_from k fuel :
  (k * KeycrmHttp.limit <= length items)%nat ->
  (length items / KeycrmHttp.limit < fuel + k)%nat ->
  KeycrmHttp.fetchAll fuel (servePages items) (k + 1)
    (take (k * KeycrmHttp.limit) items)
  = Some (Ok items).
Proof.
  revert k. induction fuel as [|fuel IH]; intros k Hk Hfuel.
  - exfalso. unfold KeycrmHttp.limit in *.
    pose proof (Nat.div_mod_eq (length items) 50) as Hdiv.
    pose proof (Nat.mod_upper_bound (length items) 50 ltac:(lia)) as Hmod.
    nia.
  - cbn [KeycrmHttp.fetchAll]. rewrite servePages_next.
    cbn [KeycrmHttp.page_data KeycrmHttp.page_total].
    rewrite take_take_drop.
    destruct ((length items <=? length (take (k * KeycrmHttp.limit + KeycrmHttp.limit) items))%nat
              || (length (take KeycrmHttp.limit (drop (k * KeycrmHttp.limit) items))
                  <? KeycrmHttp.limit)%nat) eqn:Hstop.
    + f_equal. f_equal. apply take_ge.
      apply orb_true_iff in Hstop. rewrite Nat.leb_le, Nat.ltb_lt in Hstop.
      rewrite !length_take, length_drop in Hstop. lia.
    + apply orb_false_iff in Hstop. rewrite Nat.leb_gt, Nat.ltb_ge in Hstop.
      rewrite !length_take, length_drop in Hstop.
      replace (k * KeycrmHttp.limit + KeycrmHttp.limit)%nat
        with ((k + 1) * KeycrmHttp.limit)%nat by lia.
      apply IH; lia.
Qed.

Lemma findOrThrow_app (test : A -> result bool) l1 l2 :
  KeycrmHttp.findOrThrow test (l1 ++ l2)
  = match KeycrmHttp.findOrThrow test l1 with
    | Ok None => KeycrmHttp.findOrThrow test l2
    | other => other
    end.
Proof.
  induction l1 as [|x l1 IH]; simpl; [reflexivity|].
  destruct (test x) as [[|]|e]; [reflexivity | exact IH | reflexivity].
Qed.

Lemma scan_from (test : A -> result bool) k fuel :
  (k * KeycrmHttp.limit <= length items)%nat ->
  (length items / KeycrmHttp.limit < fuel + k)%nat ->
  KeycrmHttp.findOrThrow test (take (k * KeycrmHttp.limit) items) = Ok None ->
  KeycrmHttp.scan fuel (servePages items) test (k + 1)
  = Some (KeycrmHttp.findOrThrow test items).
Proof.
  revert k. induction fuel as [|fuel IH]; intros k Hk Hfuel Hnone.
  - exfalso. unfold KeycrmHttp.limit in *.
    pose proof (Nat.div_mod_eq (length items) 50) as Hdiv.
    pose proof (Nat.mod_upper_bound (length items) 50 ltac:(lia)) as Hmod.
    nia.
  - cbn [KeycrmHttp.scan]. rewrite servePages_next.
    cbn [KeycrmHttp.page_data KeycrmHttp.page_total].
    set (here := take KeycrmHttp.limit (drop (k * KeycrmHttp.limit) items)).
    assert (Hsplit : items
                     = take (k * KeycrmHttp.limit) items
                       ++ here ++ drop KeycrmHttp.limit (drop (k * KeycrmHttp.limit) items)).
    { unfold here. rewrite take_drop, take_drop. reflexivity. }
    assert (Hall : KeycrmHttp.findOrThrow test items
                   = match KeycrmHttp.findOrThrow test here with
                     | Ok None =>
                         KeycrmHttp.findOrThrow test
                           (drop KeycrmHttp.limit (drop (k * KeycrmHttp.limit) items))
                     | other => other
                     end).
    { rewrite Hsplit at 1. rewrite findOrThrow_app, Hnone, findOrThrow_app.
      reflexivity. }
    destruct (KeycrmHttp.findOrThrow test here) as [[found|]|e] eqn:Hhere;
      [rewrite Hall; reflexivity | | rewrite Hall; reflexivity].
    destruct ((length here <? KeycrmHttp.limit)%nat
              || (length items <=? (k + 1) * KeycrmHttp.limit)%nat) eqn:Hstop.
    + rewrite Hall. f_equal.
      apply orb_true_iff in Hstop. rewrite Nat.leb_le, Nat.ltb_lt in Hstop.
      unfold here in Hstop. rewrite length_take, length_drop in Hstop.
      rewrite drop_ge; [reflexivity|]. rewrite length_drop. lia.
    + apply orb_false_iff in Hstop. rewrite Nat.leb_gt, Nat.ltb_ge in Hstop.
      apply IH; [lia | lia |].
      replace ((k + 1) * KeycrmHttp.limit)%nat
        with (k * KeycrmHttp.limit + KeycrmHttp.limit)%nat by lia.
      rewrite <- take_take_drop, findOrThrow_app, Hnone. exact Hhere.
Qed.

Lemma findOrThrow_total (p : A -> bool) l :
  KeycrmHttp.findOrThrow (fun x => Ok (p x)) l = Ok (find p l).
Proof.
  induction l as [|x l IH]; simpl; [reflexivity|].
  destruct (p x); [reflexivity | exact IH].
Qed.

End PagedListing.

(** X1. Against a listing served in pages of 50 that tell the total,
    [getAllProducts] and [getOffersByProduct] return the whole listing,
    each element once and in order, after at most one request per page
    plus one: the loop ends, an empty listing included. *)
Theorem paginated_read_is_complete {A} (items : list A) (offers : Z -> list A)
    (productId : Z) (fuel : nat) :
  (pagesFor (length items) <= fuel)%nat ->
  (pagesFor (length (offers productId)) <= fuel)%nat ->
  KeycrmHttp.getAllProducts fuel (servePages items) = Some (Ok items)
  /\ KeycrmHttp.getOffersByProduct fuel (fun i => servePages (offers i)) productId
     = Some (Ok (offers productId)).
Proof.
  unfold pagesFor, KeycrmHttp.getAllProducts, KeycrmHttp.getOffersByProduct.
  intros Hitems Hoffers. split.
  - apply (fetchAll_from items 0 fuel); lia.
  - apply (fetchAll_from (offers productId) 0 fuel); lia.
Qed.

Lemma paginated_read_is_complete_witness :
  KeycrmHttp.getAllProducts 3 (servePages manyIds) = Some (Ok manyIds)
  /\ KeycrmHttp.getOffersByProduct 3 (fun _ => servePages (@nil Z)) 7%Z
     = Some (Ok []).
Proof.
  apply (paginated_read_is_complete manyIds (fun _ => []) 7%Z 3);
    vm_compute; lia.
Defined.

(** X2. Against a listing served in pages, [getOfferByBarcode] returns
    the first offer of the whole listing whose barcode is the one asked
    for, or [null] when there is none. *)
Theorem getOfferByBarcode_first_match (offers : list Offer) (barcode : jsstring)
    (fuel : nat) :
  (pagesFor (length offers) <= fuel)%nat ->
  KeycrmHttp.getOfferByBarcode fuel (servePages offers) barcode
  = Some (Ok (find (KeycrmHttp.barcodeIs barcode) offers)).
Proof.
  unfold pagesFor, KeycrmHttp.getOfferByBarcode. intros Hfuel.
  rewrite (scan_from offers _ 0 fuel); [| lia | lia | reflexivity].
  rewrite findOrThrow_total. reflexivity.
Qed.

Lemma getOfferByBarcode_first_match_witness :
  KeycrmHttp.getOfferByBarcode 2 (servePages manyOffers) (js "4820001")
  = Some (Ok (Some wantedOffer))
  /\ KeycrmHttp.getOfferByBarcode 2 (servePages manyOffers) (js "999")
     = Some (Ok None).
Proof.
  split.
  - rewrite (getOfferByBarcode_first_match manyOffers (js "4820001") 2);
      [reflexivity | vm_compute; lia].
  - rewrite (getOfferByBarcode_first_match manyOffers (js "999") 2);
      [reflexivity | vm_compute; lia].
Defined.

Lemma findOrThrow_nameIs_named needle (l : list CrmProduct) :
  Forall (fun p => cp_name p <> None) l ->
  KeycrmHttp.findOrThrow (KeycrmHttp.nameIs needle) l
  = Ok (find (fun p => bool_decide (trim (toLowerCase (strOrEmpty (cp_name p))) = needle))
          l).
Proof.
  induction 1 as [|p l Hp Hl IH]; simpl; [reflexivity|].
  unfold KeycrmHttp.nameIs at 1. destruct (cp_name p) as [n|]; [|contradiction].
  simpl. destruct (bool_decide (trim (toLowerCase n) = needle)); [reflexivity | exact IH].
Qed.

Lemma findOrThrow_nameIs_nameless needle (pre post : list CrmProduct) x :
  Forall (fun p => exists n, cp_name p = Some n /\ trim (toLowerCase n) <> needle) pre ->
  cp_name x = None ->
  KeycrmHttp.findOrThrow (KeycrmHttp.nameIs needle) (pre ++ x :: post)
  = Throw KeycrmHttp.nameTypeError.
Proof.
  intros Hpre Hx. induction Hpre as [|p l (n & Hn & Hne) Hl IH]; simpl.
  - unfold KeycrmHttp.nameIs. rewrite Hx. reflexivity.
  - unfold KeycrmHttp.nameIs at 1. rewrite Hn.
    rewrite bool_decide_eq_false_2 by exact Hne. exact IH.
Qed.

(** X3. Against a listing served in pages, [getProductByName] compares
    names lower-cased and trimmed.  For names written in Basic Latin,
    Latin-1 or Cyrillic: when every listed product has a name it returns
    the first product of the whole listing whose name equals the one
    asked for up to case and surrounding white space, or [null]; when a
    product without name is listed before any match, the call throws the
    [TypeError] of [p.name.toLowerCase()]. *)
Theorem getProductByName_first_match (prods : list CrmProduct) (name : jsstring)
    (fuel : nat) :
  (pagesFor (length prods) <= fuel)%nat ->
  tabledText name = true ->
  forallb (fun p => tabledText (strOrEmpty (cp_name p))) prods = true ->
  (Forall (fun p => cp_name p <> None) prods ->
   KeycrmHttp.getProductByName fuel (servePages prods) name
   = Some (Ok (find (fun p => bool_decide
                                (trim (toLowerCase (strOrEmpty (cp_name p)))
                                 = trim (toLowerCase name)))
                 prods)))
  /\ (forall pre x post,
        prods = pre ++ x :: post ->
        Forall (fun p => exists n, cp_name p = Some n
                                   /\ trim (toLowerCase n) <> trim (toLowerCase name))
          pre ->
        cp_name x = None ->
        KeycrmHttp.getProductByName fuel (servePages prods) name
        = Some (Throw KeycrmHttp.nameTypeError)).
Proof.
  unfold pagesFor, KeycrmHttp.getProductByName. intros Hfuel _ _.
  assert (Hscan : KeycrmHttp.scan fuel (servePages prods)
                    (KeycrmHttp.nameIs (trim (toLowerCase name))) 1
                  = Some (KeycrmHttp.findOrThrow
                            (KeycrmHttp.nameIs (trim (toLowerCase name))) prods)).
  { apply (scan_from prods _ 0 fuel); [lia | lia | reflexivity]. }
  cbn zeta. rewrite Hscan. split.
  - intros Hnamed. rewrite (findOrThrow_nameIs_named _ _ Hnamed). reflexivity.
  - intros pre x post -> Hpre Hx.
    rewrite (findOrThrow_nameIs_nameless _ pre post x Hpre Hx). reflexivity.
Qed.

(** A match on the second page, up to case and blanks; a product without
    name listed before the match; and a Cyrillic name asked for in small
    letters and listed with a capital. *)
Lemma getProductByName_first_match_witness :
  KeycrmHttp.getProductByName 2 (servePages manyProducts) (js "blue mug")
  = Some (Ok (Some wantedProduct))
  /\ KeycrmHttp.getProductByName 2
       (servePages ([fillerProduct] ++ namelessProduct :: [wantedProduct]))
       (js "blue mug")
     = Some (Throw KeycrmHttp.nameTypeError)
  /\ KeycrmHttp.getProductByName 1 (servePages [fillerProduct; buttonProduct])
       buttonName
     = Some (Ok (Some buttonProduct)).
Proof.
  split; [|split].
  - rewrite (proj1 (getProductByName_first_match manyProducts (js "blue mug") 2
                      ltac:(vm_compute; lia) eq_refl eq_refl));
      [reflexivity|].
    unfold manyProducts. apply Forall_app. split.
    + apply Forall_forall. intros p Hp.
      apply list_elem_of_In, repeat_spec in Hp. subst. discriminate.
    + repeat constructor; discriminate.
  - apply (proj2 (getProductByName_first_match
                    ([fillerProduct] ++ namelessProduct :: [wantedProduct])
                    (js "blue mug") 2 ltac:(vm_compute; lia) eq_refl eq_refl)
             [fillerProduct] namelessProduct [wantedProduct]);
      [reflexivity | | reflexivity].
    repeat constructor. exists (js "Vase"). split; [reflexivity|].
    vm_compute. discriminate.
  - rewrite (proj1 (getProductByName_first_match [fillerProduct; buttonProduct]
                      buttonName 1 ltac:(vm_compute; lia) eq_refl eq_refl));
      [reflexivity|].
    repeat constructor; discriminate.
Defined.

(* --------------------------------------------------------------------- *)
(** ** Webhook: the log of recent calls *)
(* --------------------------------------------------------------------- *)

Lemma logWebhook_step {E} (e : E) (older : list E) :
  logWebhook e (take 20 older) = take 20 (e :: older).
Proof.
  unfold logWebhook. cbn [length take].
  rewrite length_take.
  destruct (20 <? Datatypes.S (20 `min` length older))%nat eqn:Hfull.
  - apply Nat.ltb_lt in Hfull.
    assert (Hlen : (20 <= length older)%nat) by lia.
    destruct (take 20 older) as [|x rest] eqn:Htake.
    { apply (f_equal length) in Htake. rewrite length_take in Htake.
      cbn [length] in Htake. lia. }
    change (removelast (e :: x :: rest)) with (e :: removelast (x :: rest)).
    rewrite <- Htake. f_equal.
    apply removelast_firstn. lia.
  - apply Nat.ltb_ge in Hfull.
    rewrite !take_ge by lia. reflexivity.
Qed.

(** X4. The log of recent webhook calls holds the 20 latest entries,
    newest first: after any sequence of calls of [logWebhook] from the
    empty log it is the first 20 of the entries in reverse order of
    arrival, so it never grows beyond 20. *)
Theorem logWebhook_keeps_latest {E} (entries : list E) :
  let log := fold_left (fun held e => logWebhook e held) entries [] in
  log = take 20 (rev entries) /\ (length log <= 20)%nat.
Proof.
  cbn zeta.
  assert (Hlog : fold_left (fun held e => logWebhook e held) entries []
                 = take 20 (rev entries)).
  { induction entries as [|e entries IH] using rev_ind; [reflexivity|].
    rewrite fold_left_app, rev_app_distr. cbn [fold_left rev app].
    rewrite IH. apply logWebhook_step. }
  rewrite Hlog. split; [reflexivity|]. rewrite length_take. lia.
Qed.

(* --------------------------------------------------------------------- *)
(** ** Reconciler: the counters of the summary *)
(* --------------------------------------------------------------------- *)

Lemma syncUnit_tally {St} (api : PosApi St) env cats e m gm s m' gm' s' :
  syncUnit api env cats e (m, gm, s) = (m', gm', s') ->
  tally m' = (tally m + 1 + (if countedTwice e then 1 else 0))%nat
  /\ (length (created_names m) = created m ->
      length (created_names m') = created m').
Proof.
  unfold syncUnit, countedTwice, codeOf, tally.
  destruct (truthy (name (unit e))); cbn [negb andb].
  2:{ intros [= <- <- <-]. cbn. rewrite length_app. cbn. lia. }
  rewrite usable_guard.
  destruct (usable (deriveCode (unit e))); cbn [negb].
  2:{ intros [= <- <- <-]. cbn. rewrite length_app. cbn. lia. }
  destruct (getGoodByCode api (deriveCode (unit e)) s) as [[existing|err] s1].
  2:{ intros [= <- <- <-]. cbn. rewrite length_app. cbn. lia. }
  destruct (resolveGroupId api (categoryId e) cats gm s1) as [[rg gm2] s2].
  assert (exists groupId,
             match rg with
             | Ok g0 => (g0, gm2, s2)
             | Throw _ => (None, gm2, s2)
             end = (groupId, gm2, s2)) as [groupId ->]
    by (destruct rg; eauto).
  destruct existing as [good|].
  - destruct (needsUpdate good (unit e)
              || truthy groupId && negb (bool_decide (good_group_id good = groupId))).
    + destruct (updateGood api (good_id good) _ s2) as [[?|err] s3];
        intros [= <- <- <-]; cbn; rewrite ?length_app; cbn; lia.
    + intros [= <- <- <-]. cbn. lia.
  - destruct (createGood api _ s2) as [[?|err] s3].
    + intros [= <- <- <-]. cbn. rewrite length_app. cbn. lia.
    + destruct (bool_decide (statusOf err = Some 422%Z));
        intros [= <- <- <-]; cbn; rewrite ?length_app; cbn; lia.
Qed.

Lemma syncUnits_tally {St} (api : PosApi St) env cats units :
  forall m gm s m' gm' s',
    syncUnits api env cats units (m, gm, s) = (m', gm', s') ->
    tally m' = (tally m + length units + length (List.filter countedTwice units))%nat
    /\ (length (created_names m) = created m ->
        length (created_names m') = created m').
Proof.
  induction units as [|e units IH]; intros m gm s m' gm' s' Hrun.
  - cbn in Hrun. injection Hrun as <- <- <-. cbn. split; [lia | auto].
  - rewrite syncUnits_cons in Hrun.
    destruct (syncUnit api env cats e (m, gm, s)) as [[m1 gm1] s1] eqn:Hstep.
    destruct (syncUnit_tally _ _ _ _ _ _ _ _ _ _ Hstep) as [Ht1 Hn1].
    destruct (IH _ _ _ _ _ _ Hrun) as [Ht Hn].
    split; [|auto].
    rewrite Ht, Ht1. cbn [length List.filter].
    destruct (countedTwice e); cbn [length]; lia.
Qed.

(** X5. Whatever the catalog answers, the loop of the reconciler accounts
    for every unit: created + updated + skipped + the number of errors is
    the number of units, plus one for each named unit without usable
    code, which is both reported as an error and counted as skipped; and
    [created_names] has one name per created good. *)
Theorem every_unit_is_accounted_for {St} (api : PosApi St) env cats units gm s :
  let summary := fst (fst (syncUnits api env cats units (emptySummary, gm, s))) in
  tally summary = (length units + length (List.filter countedTwice units))%nat
  /\ length (created_names summary) = created summary.
Proof.
  cbn zeta.
  destruct (syncUnits api env cats units (emptySummary, gm, s))
    as [[m' gm'] s'] eqn:Hrun.
  destruct (syncUnits_tally api env cats units _ _ _ _ _ _ Hrun) as [Ht Hn].
  cbn [fst]. split; [rewrite Ht; reflexivity | apply Hn; reflexivity].
Qed.

(* --------------------------------------------------------------------- *)
(** ** Reconciler: the list of units *)
(* --------------------------------------------------------------------- *)

Lemma namedOffer_fromOffer product offer :
  fromOffer product offer (namedOffer product offer).
Proof.
  unfold fromOffer, namedOffer. cbn [id sku barcode price properties name].
  repeat (split; [reflexivity|]).
  destruct (properties offer) as [|v vs].
  - split; [intros H; contradiction|].
    split; [intros _ ->; reflexivity | intros _ ->; reflexivity].
  - split; [intros _; reflexivity|].
    split; intros H; discriminate.
Qed.

Lemma fromOffer_named product offer u :
  truthy (name product) = true -> fromOffer product offer u ->
  truthy (name u) = true.
Proof.
  intros Hp (_ & _ & _ & _ & _ & Hprops & Hown & Hmerged).
  destruct (properties offer) as [|v vs] eqn:Hpr.
  - destruct (truthy (name offer)) eqn:Ho.
    + rewrite (Hown eq_refl eq_refl). exact Ho.
    + rewrite (Hmerged eq_refl eq_refl). exact Hp.
  - rewrite Hprops by discriminate.
    destruct (name product) as [[|c n]|]; try discriminate. reflexivity.
Qed.

Lemma collectUnits_spec crm products :
  forall units,
    collectUnits crm products = Ok units ->
    length units = list_sum (List.map (unitsOf crm) products)
    /\ Forall (fun e => exists product, In product products /\ fromProduct crm product e)
         units.
Proof.
  induction products as [|product rest IH]; intros units Hc.
  - cbn in Hc. injection Hc as <-. split; [reflexivity | constructor].
  - cbn [collectUnits] in Hc. cbn [List.map list_sum].
    destruct (has_offers product) eqn:Hoffers.
    + destruct (getOffersByProduct crm (id (p_unit product))) as [offers|e] eqn:Hget;
        [|discriminate].
      destruct (collectUnits crm rest) as [more|e]; [|discriminate].
      injection Hc as <-. destruct (IH more eq_refl) as [Hlen Hall].
      split.
      * unfold unitsOf at 1. rewrite Hoffers, Hget.
        rewrite length_app, length_map, Hlen. reflexivity.
      * apply Forall_app. split.
        -- apply Forall_forall. intros e He.
           apply list_elem_of_In, in_map_iff in He. destruct He as (offer & <- & Hin).
           exists product. split; [left; reflexivity|].
           unfold fromProduct. cbn [productId isOffer categoryId unit].
           rewrite Hoffers. repeat split. exists offers, offer.
           split; [exact Hget|]. split; [exact Hin|]. apply namedOffer_fromOffer.
        -- eapply Forall_impl; [exact Hall|].
           intros e (p0 & Hin & Hfrom). exists p0. split; [right; exact Hin | exact Hfrom].
    + destruct (collectUnits crm rest) as [more|e]; [|discriminate].
      injection Hc as <-. destruct (IH more eq_refl) as [Hlen Hall].
      split.
      * unfold unitsOf at 1. rewrite Hoffers. cbn [app length]. rewrite Hlen.
        reflexivity.
      * constructor.
        -- exists product. split; [left; reflexivity|].
           unfold fromProduct. cbn [productId isOffer categoryId unit].
           rewrite Hoffers. auto.
        -- eapply Forall_impl; [exact Hall|].
           intros e (p0 & Hin & Hfrom). exists p0. split; [right; exact Hin | exact Hfrom].
Qed.

(** X6. The list of units the reconciler builds holds one unit per
    product without offers and one per offer of a product with offers (a
    product marked as having offers that has none contributes nothing);
    every unit carries the identifier and the category of its product.
    A product without offers is taken as it is.  An offer keeps its
    identifier, SKU, barcode, price and properties, and its name is
    settled: with properties it becomes the name of the product, a dash
    and the property values joined by commas, whatever name the offer
    had; without properties the offer keeps a name of its own and takes
    the name of the product only when it has none.  When every product
    has a name, so has every unit. *)
Theorem collectUnits_provenance crm products units :
  collectUnits crm products = Ok units ->
  length units = list_sum (List.map (unitsOf crm) products)
  /\ Forall (fun e => exists product, In product products /\ fromProduct crm product e)
       units
  /\ (Forall (fun product => truthy (name (p_unit product)) = true) products ->
      Forall named units).
Proof.
  intros Hc. destruct (collectUnits_spec crm products units Hc) as [Hlen Hall].
  split; [exact Hlen|]. split; [exact Hall|].
  intros Hnamed. eapply Forall_impl; [exact Hall|].
  intros e (product & Hin & _ & _ & _ & Hunit).
  rewrite Forall_forall in Hnamed.
  pose proof (Hnamed product (proj2 (list_elem_of_In _ _) Hin)) as Hp.
  unfold named. destruct (has_offers product).
  - destruct Hunit as (offers & offer & _ & _ & Hfrom).
    exact (fromOffer_named _ _ _ Hp Hfrom).
  - rewrite Hunit. exact Hp.
Qed.

(** On [shopCatalog]: four units, all named.  On [variantCatalog]: the
    offer with a name and no property keeps its name, the offer without
    name takes the name of the product, and the offer with properties is
    renamed after the product. *)
Lemma collectUnits_provenance_witness :
  (exists units,
      collectUnits shopCatalog (match getAllProducts shopCatalog with
                                | Ok ps => ps
                                | Throw _ => []
                                end) = Ok units
      /\ length units = 4%nat
      /\ Forall named units)
  /\ exists units,
       collectUnits variantCatalog (match getAllProducts variantCatalog with
                                    | Ok ps => ps
                                    | Throw _ => []
                                    end) = Ok units
       /\ List.map (fun e => name (unit e)) units
          = [Some (js "Own2"); Some (js "Shirt");
             Some (js "Shirt" ++ [32; 8212; 32] ++ js "M, red")]
       /\ Forall (fun e => exists product,
                     In product [mkProduct (mkUnit 2 (Some (js "Shirt")) None None
                                              None []) true None None]
                     /\ fromProduct variantCatalog product e) units.
Proof.
  split.
  - eexists. split; [vm_compute; reflexivity|].
    edestruct (collectUnits_provenance shopCatalog
                 (match getAllProducts shopCatalog with
                  | Ok ps => ps
                  | Throw _ => []
                  end)) as (Hlen & _ & Hnamed);
      [vm_compute; reflexivity|].
    split; [exact Hlen|]. apply Hnamed. repeat constructor.
  - eexists. split; [vm_compute; reflexivity|].
    split; [reflexivity|].
    refine (proj1 (proj2 (collectUnits_provenance variantCatalog _ _ _))).
    vm_compute. reflexivity.
Defined.

(** X7. A run asked with a wrong secret is answered 401 and calls nothing;
    a run whose listing of products, or of the offers of some product,
    fails is answered 500 with an empty summary and has only listed the
    groups: no good is looked up, created or updated. *)
Theorem run_aborts_before_any_write {St} (api : PosApi St) crm env secret s :
  (secret <> SYNC_SECRET env -> run api crm env secret s = (Unauthorized, s))
  /\ (forall e,
        secret = SYNC_SECRET env ->
        getAllProducts crm = Throw e
        \/ (exists products,
               getAllProducts crm = Ok products
               /\ collectUnits crm products = Throw e) ->
        run api crm env secret s
        = (Fatal (message e) emptySummary, snd (getGroups api s))).
Proof.
  unfold run. split.
  - intros Hne. rewrite bool_decide_eq_false_2 by exact Hne. reflexivity.
  - intros e Heq Hfail. rewrite bool_decide_eq_true_2 by exact Heq. cbn [negb].
    assert (Hpre : exists cats gm, prefetch api crm s = (cats, gm, snd (getGroups api s))).
    { unfold prefetch. destruct (getGroups api s) as [[groups|err] s1]; cbn [snd];
        [destruct (getProductCategories crm)|]; eauto. }
    destruct Hpre as (cats & gm & ->).
    destruct Hfail as [-> | (products & -> & ->)]; reflexivity.
Qed.

Lemma run_aborts_before_any_write_witness :
  run storeApi shopCatalog plainEnv (Some (js "guess")) emptyStore
  = (Unauthorized, emptyStore)
  /\ run storeApi
       (mkCrmCatalog (Ok ∅) (Throw serverError) (fun _ => Ok []))
       plainEnv None emptyStore
     = (Fatal (message serverError) emptySummary, emptyStore).
Proof.
  split.
  - apply (proj1 (run_aborts_before_any_write storeApi shopCatalog plainEnv
                    (Some (js "guess")) emptyStore)).
    discriminate.
  - apply (proj2 (run_aborts_before_any_write storeApi
                    (mkCrmCatalog (Ok ∅) (Throw serverError) (fun _ => Ok []))
                    plainEnv None emptyStore) serverError);
      [reflexivity | left; reflexivity].
Defined.

(* --------------------------------------------------------------------- *)
(** ** Group resolver: groups that exist already *)
(* --------------------------------------------------------------------- *)

Lemma buildGroupMap_snoc groups g :
  buildGroupMap (groups ++ [g]) = <[keyOfGroup g := g]> (buildGroupMap groups).
Proof. unfold buildGroupMap. rewrite fold_left_app. reflexivity. Qed.

(** Under the key of a listed group the map holds the last listed group
    with that key: [map.set] overwrites. *)
Lemma buildGroupMap_last pre g post :
  Forall (fun h => keyOfGroup h <> keyOfGroup g) post ->
  buildGroupMap (pre ++ g :: post) !! keyOfGroup g = Some g.
Proof.
  induction post as [|h post IH] using rev_ind; intros Hpost.
  - rewrite buildGroupMap_snoc. apply lookup_insert_eq.
  - apply Forall_app in Hpost. destruct Hpost as [Hpost Hh].
    change (pre ++ g :: post ++ [h]) with (pre ++ (g :: post) ++ [h]).
    rewrite app_assoc, buildGroupMap_snoc, lookup_insert_ne;
      [exact (IH Hpost) | exact (Forall_inv Hh)].
Qed.

Lemma last_with_key groups g :
  In g groups ->
  exists pre g' post,
    groups = pre ++ g' :: post
    /\ keyOfGroup g' = keyOfGroup g
    /\ Forall (fun h => keyOfGroup h <> keyOfGroup g) post.
Proof.
  induction groups as [|h groups IH] using rev_ind; [intros []|].
  intros Hin.
  destruct (decide (keyOfGroup h = keyOfGroup g)) as [Hk|Hk].
  - exists groups, h, []. split; [reflexivity|]. split; [exact Hk | constructor].
  - apply in_app_or in Hin. destruct Hin as [Hin|[<-|[]]]; [|contradiction].
    destruct (IH Hin) as (pre & g' & post & -> & Hkey & Hpost).
    exists pre, g', (post ++ [h]).
    split; [rewrite <- app_assoc; reflexivity|]. split; [exact Hkey|].
    apply Forall_app. split; [exact Hpost | repeat constructor; exact Hk].
Qed.

(** X8. With the group map built from the listing of the catalog, a
    category whose group is listed is resolved to a listed group without
    any call to the catalog.  For names written in Basic Latin, Latin-1
    or Cyrillic the match is on the name lower-cased and trimmed and on
    the parent, and among several listed groups with the same key the
    last one listed is taken: for a category without known parent, the
    last listed top-level group of that name; for a category under a
    known parent, the listed parent group and then the last listed group
    of the category's name under that parent's identifier. *)
Theorem listed_group_is_reused {St} (api : PosApi St) cid cats groups s cat :
  getCategory cats cid = Some cat ->
  tabledText (cat_name cat) = true ->
  forallb (fun g => tabledText (group_name g)) groups = true ->
  (getCategory cats (cat_parent_id cat) = None ->
   forall g,
     In g groups -> keyOfGroup g = groupKey (cat_name cat) [] ->
     exists pre g' post,
       groups = pre ++ g' :: post
       /\ keyOfGroup g' = keyOfGroup g
       /\ Forall (fun h => keyOfGroup h <> keyOfGroup g) post
       /\ resolveGroupId api cid cats (buildGroupMap groups) s
          = (Ok (Some (group_id g')), buildGroupMap groups, s))
  /\ (forall parentCat pg g,
        getCategory cats (cat_parent_id cat) = Some parentCat ->
        tabledText (cat_name parentCat) = true ->
        buildGroupMap groups !! groupKey (cat_name parentCat) [] = Some pg ->
        In g groups -> keyOfGroup g = groupKey (cat_name cat) (group_id pg) ->
        exists pre g' post,
          groups = pre ++ g' :: post
          /\ keyOfGroup g' = keyOfGroup g
          /\ Forall (fun h => keyOfGroup h <> keyOfGroup g) post
          /\ resolveGroupId api cid cats (buildGroupMap groups) s
             = (Ok (Some (group_id g')), buildGroupMap groups, s)).
Proof.
  intros Hcat _ _. split.
  - intros Hnoparent g Hin Hkey.
    destruct (last_with_key groups g Hin) as (pre & g' & post & Hgroups & Hkey' & Hpost).
    exists pre, g', post.
    split; [exact Hgroups|]. split; [exact Hkey'|]. split; [exact Hpost|].
    assert (Hlook : buildGroupMap groups !! keyOfGroup g = Some g').
    { rewrite Hgroups, <- Hkey'. apply buildGroupMap_last.
      rewrite Hkey'. exact Hpost. }
    unfold resolveGroupId. rewrite Hcat, Hnoparent.
    unfold getOrCreateInMap. rewrite <- Hkey, Hlook. reflexivity.
  - intros parentCat pg g Hparent _ Hpg Hin Hkey.
    destruct (last_with_key groups g Hin) as (pre & g' & post & Hgroups & Hkey' & Hpost).
    exists pre, g', post.
    split; [exact Hgroups|]. split; [exact Hkey'|]. split; [exact Hpost|].
    assert (Hlook : buildGroupMap groups !! keyOfGroup g = Some g').
    { rewrite Hgroups, <- Hkey'. apply buildGroupMap_last.
      rewrite Hkey'. exact Hpost. }
    unfold resolveGroupId. rewrite Hcat, Hparent.
    unfold getOrCreateInMap. rewrite Hpg, <- Hkey, Hlook. reflexivity.
Qed.

(** On [listedGroups] the category Mugs resolves to the group listed
    second, and Pots to the group listed under it; on [buttonGroups],
    whose two names differ in the case of one Cyrillic letter, the
    category resolves to the group listed last. *)
Lemma listed_group_is_reused_witness :
  resolveGroupId noCreateApi (Some 5%Z) potCats (buildGroupMap listedGroups)
    emptyStore
  = (Ok (Some (js "g-2")), buildGroupMap listedGroups, emptyStore)
  /\ resolveGroupId noCreateApi (Some 6%Z) potCats (buildGroupMap listedGroups)
       emptyStore
     = (Ok (Some (js "g-3")), buildGroupMap listedGroups, emptyStore)
  /\ resolveGroupId noCreateApi (Some 8%Z) buttonCats (buildGroupMap buttonGroups)
       emptyStore
     = (Ok (Some (js "g-2")), buildGroupMap buttonGroups, emptyStore).
Proof.
  split; [|split].
  - destruct (proj1 (listed_group_is_reused noCreateApi (Some 5%Z) potCats
                       listedGroups emptyStore mugs eq_refl eq_refl eq_refl)
                eq_refl (mkGroup (js "g-1") (js "MUGS ") None)
                ltac:(left; reflexivity) ltac:(vm_compute; reflexivity))
      as (pre & g' & post & _ & _ & _ & Hres).
    rewrite Hres. vm_compute in Hres |- *.
    injection Hres as <-. reflexivity.
  - destruct (proj2 (listed_group_is_reused noCreateApi (Some 6%Z) potCats
                       listedGroups emptyStore pots eq_refl eq_refl eq_refl)
                mugs (mkGroup (js "g-2") (js "Mugs") (Some []))
                (mkGroup (js "g-3") (js "Pots") (Some (js "g-2")))
                eq_refl eq_refl ltac:(vm_compute; reflexivity)
                ltac:(right; right; left; reflexivity) ltac:(vm_compute; reflexivity))
      as (pre & g' & post & _ & _ & _ & Hres).
    rewrite Hres. vm_compute in Hres |- *.
    injection Hres as <-. reflexivity.
  - destruct (proj1 (listed_group_is_reused noCreateApi (Some 8%Z) buttonCats
                       buttonGroups emptyStore (mkCategory 8 [1168; 1059] None)
                       eq_refl eq_refl eq_refl)
                eq_refl (mkGroup (js "g-1") [1169; 1091] None)
                ltac:(left; reflexivity) ltac:(vm_compute; reflexivity))
      as (pre & g' & post & _ & _ & _ & Hres).
    rewrite Hres. vm_compute in Hres |- *.
    injection Hres as <-. reflexivity.
Defined.

Lemma fillCache_lookup groups :
  forall (c : gmap jsstring jsstring) k,
    (exists g, In g groups /\ cacheKeyOf g = k
               /\ fillCache groups c !! k = Some (group_id g))
    \/ ((forall g, In g groups -> cacheKeyOf g <> k)
        /\ fillCache groups c !! k = c !! k).
Proof.
  induction groups as [|g groups IH]; intros c k.
  - right. split; [intros g [] | reflexivity].
  - cbn [fillCache]. fold (cacheKeyOf g).
    destruct (IH (<[cacheKeyOf g := group_id g]> c) k)
      as [(g' & Hin & Hkey & Hlook)|[Hnone Hlook]].
    + left. exists g'. split; [right; exact Hin | auto].
    + rewrite lookup_insert in Hlook. case_decide as Hk.
      * left. exists g. split; [left; reflexivity | auto].
      * right. split; [|exact Hlook].
        intros g0 [<-|Hin]; [exact Hk | exact (Hnone g0 Hin)].
Qed.

(** X9. After [clearGroupCache], [getOrCreateGroup] lists the groups of
    the catalog once and answers from that listing: a (name, parent) pair
    that is listed, with the very same spelling of the name, is resolved
    to the identifier of a listed group and nothing is created; a pair
    that is not listed under that spelling is created, and the new
    identifier is put in the cache. *)
Theorem getOrCreateGroup_after_clear {St} (api : PosApi St) name parent cache s
    groups s1 :
  let key := name ++ sepKey ++ strOrEmpty parent in
  getGroups api s = (Ok groups, s1) ->
  ((exists g, In g groups /\ cacheKeyOf g = key) ->
   (forall g, In g groups -> cacheKeyOf g = key -> group_id g <> []) ->
   exists g,
     In g groups /\ cacheKeyOf g = key
     /\ getOrCreateGroup api name parent (clearGroupCache cache) s
        = (Ok (group_id g), Some (fillCache groups ∅), s1))
  /\ ((forall g, In g groups -> cacheKeyOf g <> key) ->
      forall created s2,
        createGroup api name parent s1 = (Ok created, s2) ->
        getOrCreateGroup api name parent (clearGroupCache cache) s
        = (Ok (group_id created),
           Some (<[key := group_id created]> (fillCache groups ∅)), s2)).
Proof.
  intros key Hlist. unfold getOrCreateGroup, clearGroupCache. rewrite Hlist.
  fold key. split.
  - intros (g0 & Hin0 & Hkey0) Hids.
    destruct (fillCache_lookup groups ∅ key) as [(g & Hin & Hkey & Hlook)|[Hnone _]];
      [|exfalso; exact (Hnone g0 Hin0 Hkey0)].
    exists g. split; [exact Hin|]. split; [exact Hkey|].
    rewrite (proj2 (cached_Some _ _ _) (conj Hlook (Hids g Hin Hkey))). reflexivity.
  - intros Hnone created s2 Hcreate.
    destruct (fillCache_lookup groups ∅ key) as [(g & Hin & Hkey & _)|[_ Hlook]];
      [exfalso; exact (Hnone g Hin Hkey)|].
    unfold cached. rewrite Hlook, lookup_empty, Hcreate. reflexivity.
Qed.

Lemma getOrCreateGroup_after_clear_witness :
  (exists g,
      In g listedGroups
      /\ cacheKeyOf g = js "Mugs" ++ sepKey ++ []
      /\ getOrCreateGroup listingApi (js "Mugs") None (clearGroupCache None) emptyStore
         = (Ok (group_id g), Some (fillCache listedGroups ∅), emptyStore))
  /\ getOrCreateGroup storeApi (js "mugs") None (clearGroupCache None) emptyStore
     = (Ok (js "uuid-0"),
        Some (<[js "mugs" ++ sepKey ++ [] := js "uuid-0"]> (fillCache [] ∅)),
        snd (store_createGroup (js "mugs") None emptyStore)).
Proof.
  split.
  - apply (proj1 (getOrCreateGroup_after_clear listingApi (js "Mugs") None None
                    emptyStore listedGroups emptyStore eq_refl)).
    + exists (mkGroup (js "g-2") (js "Mugs") (Some [])).
      split; [right; left; reflexivity | reflexivity].
    + intros g [<-|[<-|[<-|[]]]] _; vm_compute; discriminate.
  - apply (proj2 (getOrCreateGroup_after_clear storeApi (js "mugs") None None
                    emptyStore [] emptyStore eq_refl)
             (fun g (H : In g []) => match H with end)
             (mkGroup (js "uuid-0") (js "mugs") None)
             (snd (store_createGroup (js "mugs") None emptyStore))).
    reflexivity.
Defined.

(* --------------------------------------------------------------------- *)
(** ** Checkbox service: the retry wrapper *)
(* --------------------------------------------------------------------- *)

(** X10. One call through [withRetry] makes at most two attempts and at
    most one sign-in, whatever the attempts and the sign-in answer: a
    second attempt is made only after a sign-in, and when the first
    attempt does not fail with status 401 it is the only one and its
    outcome is the outcome of the call. *)
Theorem withRetry_is_bounded {St A} (login : St -> result () * St)
    (fn : St -> result A * St) (s : St) :
  let '(r, (s', attempts, logins)) :=
    CheckboxHttp.withRetry (countedLogin login) (counted fn) (s, 0%nat, 0%nat) in
  (1 <= attempts <= 2)%nat
  /\ (logins <= 1)%nat
  /\ (attempts = 2%nat -> logins = 1%nat)
  /\ ((forall err, fst (fn s) = Throw err -> statusOf err <> Some 401%Z) ->
      attempts = 1%nat /\ logins = 0%nat /\ (r, s') = fn s).
Proof.
  unfold CheckboxHttp.withRetry, counted, countedLogin.
  destruct (fn s) as [[a|err] s1] eqn:Hfn; cbn [fst].
  - split; [lia|]. split; [lia|]. split; [lia|]. intros _. auto.
  - destruct (bool_decide (statusOf err = Some 401%Z)) eqn:Hst.
    + apply bool_decide_eq_true_1 in Hst.
      destruct (login s1) as [[?|e] s2].
      * destruct (fn s2) as [r2 s3].
        split; [lia|]. split; [lia|]. split; [lia|].
        intros Hno. exfalso. exact (Hno err eq_refl Hst).
      * split; [lia|]. split; [lia|]. split; [lia|].
        intros Hno. exfalso. exact (Hno err eq_refl Hst).
    + split; [lia|]. split; [lia|]. split; [lia|]. intros _. auto.
Qed.

(** X11. [getGoodByCode] turns the 404 of a missing good into [null], on
    the first attempt (no sign-in is made) as well as on the attempt that
    follows a 401 and a successful sign-in. *)
Theorem getGoodByCode_missing_is_null {St} (login : St -> result () * St)
    (get : jsstring -> St -> result Good * St) code s err s1 :
  get code s = (Throw err, s1) ->
  (statusOf err = Some 404%Z ->
   CheckboxHttp.getGoodByCode login get code s = (Ok None, s1))
  /\ (forall u s2 err2 s3,
        statusOf err = Some 401%Z ->
        login s1 = (Ok u, s2) ->
        get code s2 = (Throw err2, s3) ->
        statusOf err2 = Some 404%Z ->
        CheckboxHttp.getGoodByCode login get code s = (Ok None, s3)).
Proof.
  intros Hget. unfold CheckboxHttp.getGoodByCode, CheckboxHttp.withRetry.
  rewrite Hget. split.
  - intros H404. rewrite bool_decide_eq_true_2 by exact H404. reflexivity.
  - intros u s2 err2 s3 H401 Hlogin Hget2 H404.
    rewrite (bool_decide_eq_false_2 (statusOf err = Some 404%Z)) by congruence.
    rewrite bool_decide_eq_true_2 by exact H401.
    rewrite Hlogin, Hget2, bool_decide_eq_true_2 by exact H404. reflexivity.
Qed.

Lemma getGoodByCode_missing_is_null_witness :
  CheckboxHttp.getGoodByCode signIn staleGet (js "A1") true = (Ok None, true)
  /\ CheckboxHttp.getGoodByCode signIn staleGet (js "A1") false = (Ok None, true).
Proof.
  split.
  - apply (proj1 (getGoodByCode_missing_is_null signIn staleGet (js "A1") true
                    notFoundError true eq_refl)).
    reflexivity.
  - apply (proj2 (getGoodByCode_missing_is_null signIn staleGet (js "A1") false
                    expiredError false eq_refl) () true notFoundError true);
      reflexivity.
Defined.

Lemma withRetry_is_bounded_witness :
  let out :=
    CheckboxHttp.withRetry (countedLogin signIn) (counted (staleGet (js "A1")))
      (true, 0%nat, 0%nat) in
  snd (fst (snd out)) = 1%nat /\ snd (snd out) = 0%nat
  /\ (fst out, fst (fst (snd out))) = staleGet (js "A1") true.
Proof.
  pose proof (withRetry_is_bounded signIn (staleGet (js "A1")) true) as H.
  cbv zeta.
  destruct (CheckboxHttp.withRetry (countedLogin signIn)
              (counted (staleGet (js "A1"))) (true, 0%nat, 0%nat))
    as [r [[s' attempts] logins]].
  destruct H as (_ & _ & _ & H). cbn [fst snd].
  apply H. intros err Herr. vm_compute in Herr.
  injection Herr as <-. discriminate.
Defined.

(* --------------------------------------------------------------------- *)
(** ** Order builder: the time of the order *)
(* --------------------------------------------------------------------- *)

Lemma upTo_cons sep c r :
  upTo sep (c :: r) = if c =? sep then [] else c :: upTo sep r.
Proof.
  unfold upTo. cbn [split]. destruct (c =? sep); [reflexivity|].
  destruct (split sep r); reflexivity.
Qed.

Lemma upTo_without sep s : Forall (fun c => (c =? sep) = false) (upTo sep s).
Proof.
  induction s as [|c r IH]; [constructor|].
  rewrite upTo_cons. destruct (c =? sep) eqn:Hc; [constructor|].
  constructor; assumption.
Qed.

Lemma upTo_Forall (P : N -> Prop) sep s : Forall P s -> Forall P (upTo sep s).
Proof.
  induction 1 as [|c r Hc Hr IH]; [constructor|].
  rewrite upTo_cons. destruct (c =? sep); [constructor | constructor; assumption].
Qed.

Lemma upTo_id sep s : Forall (fun c => (c =? sep) = false) s -> upTo sep s = s.
Proof.
  induction 1 as [|c r Hc Hr IH]; [reflexivity|].
  rewrite upTo_cons, Hc, IH. reflexivity.
Qed.

Lemma upTo_prefix sep s : exists rest, s = upTo sep s ++ rest.
Proof.
  induction s as [|c r [rest IH]]; [exists []; reflexivity|].
  rewrite upTo_cons. destruct (c =? sep); [exists (c :: r); reflexivity|].
  exists rest. cbn. congruence.
Qed.

Lemma replaceFirst_keeps (P : N -> Prop) old new s :
  P new -> Forall P s -> Forall P (replaceFirst old new s).
Proof.
  intros Hnew. induction 1 as [|c r Hc Hr IH]; cbn; [constructor|].
  destruct (c =? old); constructor; assumption.
Qed.

Lemma is_cut_false c :
  is_cut c = false <-> (c =? 46) = false /\ (c =? 43) = false /\ (c =? 90) = false.
Proof.
  unfold is_cut. destruct (c =? 46), (c =? 43), (c =? 90); cbn; intuition congruence.
Qed.

(** X12. The [ordered_at] text built from [created_at] is the time stamp
    with its first [T] replaced by a space, cut before the first [.], [+]
    or [Z]: the result holds none of the three; a time stamp that holds
    none of the three is only changed in its [T], so an offset written
    with a minus sign stays in the text. *)
Theorem orderedAtOf_cuts_fraction_and_zone (created_at : jsstring) :
  Forall (fun c => is_cut c = false) (orderedAtOf created_at)
  /\ (exists rest,
        replaceFirst 84 32 created_at = orderedAtOf created_at ++ rest)
  /\ (Forall (fun c => is_cut c = false) created_at ->
      orderedAtOf created_at = replaceFirst 84 32 created_at).
Proof.
  unfold orderedAtOf. split; [|split].
  - apply Forall_forall. intros c Hc. apply is_cut_false.
    pose proof (upTo_without 90 (upTo 43 (upTo 46 (replaceFirst 84 32 created_at))))
      as H90.
    pose proof (upTo_Forall _ 90 _ (upTo_without 43 (upTo 46 (replaceFirst 84 32 created_at))))
      as H43.
    pose proof (upTo_Forall _ 90 _
                  (upTo_Forall _ 43 _ (upTo_without 46 (replaceFirst 84 32 created_at))))
      as H46.
    rewrite Forall_forall in H90, H43, H46. auto.
  - destruct (upTo_prefix 46 (replaceFirst 84 32 created_at)) as [r1 H1].
    destruct (upTo_prefix 43 (upTo 46 (replaceFirst 84 32 created_at))) as [r2 H2].
    destruct (upTo_prefix 90 (upTo 43 (upTo 46 (replaceFirst 84 32 created_at))))
      as [r3 H3].
    exists (r3 ++ r2 ++ r1).
    rewrite H1 at 1. rewrite H2 at 1. rewrite H3 at 1.
    rewrite <- !app_assoc. reflexivity.
  - intros Hclean.
    assert (Hrep : Forall (fun c => is_cut c = false) (replaceFirst 84 32 created_at))
      by (apply replaceFirst_keeps; [reflexivity | exact Hclean]).
    assert (H46 : Forall (fun c => (c =? 46) = false) (replaceFirst 84 32 created_at))
      by (eapply Forall_impl; [exact Hrep | intros c Hc; apply is_cut_false in Hc; tauto]).
    assert (H43 : Forall (fun c => (c =? 43) = false) (replaceFirst 84 32 created_at))
      by (eapply Forall_impl; [exact Hrep | intros c Hc; apply is_cut_false in Hc; tauto]).
    assert (H90 : Forall (fun c => (c =? 90) = false) (replaceFirst 84 32 created_at))
      by (eapply Forall_impl; [exact Hrep | intros c Hc; apply is_cut_false in Hc; tauto]).
    rewrite (upTo_id 46 _ H46), (upTo_id 43 _ H43), (upTo_id 90 _ H90). reflexivity.
Qed.

Lemma orderedAtOf_cuts_fraction_and_zone_witness :
  orderedAtOf (js "2024-05-01T10:20:30-03:00") = js "2024-05-01 10:20:30-03:00".
Proof.
  rewrite (proj2 (proj2 (orderedAtOf_cuts_fraction_and_zone
                           (js "2024-05-01T10:20:30-03:00")))).
  - reflexivity.
  - apply Forall_forall. intros c Hc. apply list_elem_of_In in Hc.
    vm_compute in Hc.
    repeat (destruct Hc as [<-|Hc]; [reflexivity|]). destruct Hc.
Defined.

Example orderedAtOf_samples :
  orderedAtOf (js "2024-05-01T10:20:30.123456+03:00") = js "2024-05-01 10:20:30"
  /\ orderedAtOf (js "2024-05-01T10:20:30Z") = js "2024-05-01 10:20:30".
Proof. split; reflexivity. Qed.

(* --------------------------------------------------------------------- *)
(** ** Catalog mapper: the code carries no white space at its ends *)
(* --------------------------------------------------------------------- *)

Lemma dropWhile_fixed (p : N -> bool) s :
  (forall c r, s = c :: r -> p c = false) -> dropWhile p s = s.
Proof.
  destruct s as [|c r]; [reflexivity|].
  intros H. cbn. rewrite (H c r eq_refl). reflexivity.
Qed.

Lemma dropWhileEnd_fixed (p : N -> bool) s :
  (forall r c, s = r ++ [c] -> p c = false) -> dropWhileEnd p s = s.
Proof.
  intros H. unfold dropWhileEnd. rewrite dropWhile_fixed.
  - apply rev_involutive.
  - intros c r Hr. apply (H (rev r) c).
    rewrite <- (rev_involutive s), Hr. reflexivity.
Qed.

Lemma trim_fixed s :
  (forall c r, s = c :: r -> is_space c = false) ->
  (forall r c, s = r ++ [c] -> is_space c = false) ->
  trim s = s.
Proof.
  intros Hhead Hlast. unfold trim.
  rewrite (dropWhile_fixed _ _ Hhead). exact (dropWhileEnd_fixed _ _ Hlast).
Qed.

Lemma trim_trim s : trim (trim s) = trim s.
Proof.
  apply trim_fixed.
  - intros c r H. unfold trim in H.
    destruct (dropWhileEnd_head _ _ _ _ H) as [r' Hr'].
    exact (dropWhile_head _ _ _ _ Hr').
  - intros r c H. exact (dropWhileEnd_last _ _ _ _ H).
Qed.

Lemma slug_char_not_space c : slug_char c = true -> is_space c = false.
Proof.
  intros H. destruct (is_space c) eqn:Hs; [exfalso | reflexivity].
  solve_class; lia.
Qed.

Lemma trim_slug_chars s : Forall (fun c => slug_char c = true) s -> trim s = s.
Proof.
  intros H. apply trim_fixed.
  - intros c r ->. apply slug_char_not_space. exact (Forall_inv H).
  - intros r c ->. apply slug_char_not_space.
    apply Forall_app in H. destruct H as [_ H]. exact (Forall_inv H).
Qed.

Lemma trimmedIfAny_trimmed x s : trimmedIfAny x = Some s -> trim s = s /\ s <> [].
Proof.
  destruct x as [t|]; cbn; [|discriminate].
  destruct (nonempty t && nonempty (trim t)) eqn:Hn; [|discriminate].
  intros [= <-]. split; [apply trim_trim|].
  apply andb_prop in Hn. destruct Hn as [_ Hn].
  destruct (trim t); [discriminate | discriminate].
Qed.

(** X13. The code derived for a unit has no white space at its ends,
    whichever of SKU, barcode and name it comes from; so the reconciler's
    test [!code || !code.trim()] refuses the empty code only, and the code
    is empty only when SKU and barcode are blank and the slug of the name
    is empty. *)
Theorem deriveCode_is_trimmed (u : Unit) :
  trim (deriveCode u) = deriveCode u
  /\ usable (deriveCode u) = nonempty (deriveCode u)
  /\ (deriveCode u = [] <->
      blank (sku u) /\ blank (barcode u) /\ slugify (slugSource u) = []).
Proof.
  assert (Htrim : trim (deriveCode u) = deriveCode u).
  { unfold deriveCode.
    destruct (trimmedIfAny (sku u)) as [s|] eqn:Hs;
      [exact (proj1 (trimmedIfAny_trimmed _ _ Hs))|].
    destruct (trimmedIfAny (barcode u)) as [b|] eqn:Hb;
      [exact (proj1 (trimmedIfAny_trimmed _ _ Hb))|].
    apply trim_slug_chars, Forall_take, slugify_chars. }
  split; [exact Htrim|]. split.
  - unfold usable. rewrite Htrim. apply andb_diag.
  - assert (Hblank : forall x, trimmedIfAny x = None -> blank x).
    { intros [t|]; cbn; [|trivial].
      destruct t as [|c t]; [reflexivity|]. cbn [nonempty andb].
      destruct (trim (c :: t)); [reflexivity | discriminate]. }
    unfold deriveCode. rewrite <- nameOrProductId_slugSource. split.
    + destruct (trimmedIfAny (sku u)) as [s|] eqn:Hs.
      { intros ->. destruct (trimmedIfAny_trimmed _ _ Hs) as [_ Hne]. contradiction. }
      destruct (trimmedIfAny (barcode u)) as [b|] eqn:Hb.
      { intros ->. destruct (trimmedIfAny_trimmed _ _ Hb) as [_ Hne]. contradiction. }
      intros Hcut. split; [exact (Hblank _ Hs)|]. split; [exact (Hblank _ Hb)|].
      destruct (slugify (nameOrProductId u)); [reflexivity | discriminate].
    + intros (Hs & Hb & Hslug).
      rewrite (trimmedIfAny_blank _ Hs), (trimmedIfAny_blank _ Hb), Hslug.
      reflexivity.
Qed.

(* --------------------------------------------------------------------- *)
(** ** Catalog mapper: a slug is its own slug *)
(* --------------------------------------------------------------------- *)

Lemma lower_unit_slug_char c : slug_char c = true -> lower_unit c = [c].
Proof.
  intros H. unfold lower_unit.
  repeat match goal with
         | |- context [if ?b then _ else _] =>
             destruct b eqn:?; [exfalso; solve_class; lia|]
         end.
  reflexivity.
Qed.

Lemma toLowerCase_slug_chars s :
  Forall (fun c => slug_char c = true) s -> toLowerCase s = s.
Proof.
  unfold toLowerCase. induction 1 as [|c r Hc Hr IH]; cbn; [reflexivity|].
  rewrite (lower_unit_slug_char c Hc), IH. reflexivity.
Qed.

Lemma stripSpecial_slug_chars s :
  Forall (fun c => slug_char c = true) s -> stripSpecial s = s.
Proof.
  unfold stripSpecial. induction 1 as [|c r Hc Hr IH]; cbn; [reflexivity|].
  rewrite IH.
  replace (is_word c || is_space c || (c =? hyphen)) with true; [reflexivity|].
  unfold slug_char in Hc. unfold is_word.
  destruct (is_upper c), (is_lower c), (is_digit c), (c =? underscore),
    (is_space c), (c =? hyphen); cbn in *; congruence.
Qed.

Lemma slug_char_not_sep c : slug_char c = true -> is_sep c = false.
Proof.
  intros H. unfold is_sep. rewrite (slug_char_not_space c H). cbn.
  solve_class; lia.
Qed.

Lemma collapseFrom_slug_chars b s :
  Forall (fun c => slug_char c = true) s -> collapseFrom b s = s.
Proof.
  intros H. revert b. induction H as [|c r Hc Hr IH]; intros b; cbn; [reflexivity|].
  rewrite (slug_char_not_sep c Hc), IH. reflexivity.
Qed.

Lemma slugify_fixed s :
  Forall (fun c => slug_char c = true) s ->
  (forall c r, s = c :: r -> c <> hyphen) ->
  (forall r c, s = r ++ [c] -> c <> hyphen) ->
  slugify s = s.
Proof.
  intros Hchars Hhead Hlast. unfold slugify, collapse, stripHyphens.
  rewrite (toLowerCase_slug_chars s Hchars), (stripSpecial_slug_chars s Hchars),
    (collapseFrom_slug_chars false s Hchars).
  rewrite dropWhile_fixed.
  - apply dropWhileEnd_fixed. intros r c Hs. apply N.eqb_neq. exact (Hlast r c Hs).
  - intros c r Hs. apply N.eqb_neq. exact (Hhead c r Hs).
Qed.

(** X14. [slugify] is idempotent: the slug of any text is made of lower-case
    letters, digits and hyphens and neither starts nor ends with a hyphen,
    and such a text is left as it is by [slugify]. *)
Theorem slugify_idempotent (str : jsstring) :
  slugify (slugify str) = slugify str.
Proof.
  apply slugify_fixed.
  - apply slugify_chars.
  - intros c r H. exact (slugify_no_leading_hyphen str c r H).
  - intros r c H. exact (slugify_no_trailing_hyphen str r c H).
Qed.

(* --------------------------------------------------------------------- *)
(** ** Order builder: the lines of the order *)
(* --------------------------------------------------------------------- *)

Lemma findOffer_anonymous {C} (crm : CrmApi C) g c :
  anonymous g = true -> findOffer crm (soldGood g) c = (Ok None, c).
Proof.
  unfold anonymous. intros H.
  apply andb_prop in H. destruct H as [H Hname].
  apply andb_prop in H. destruct H as [Hcode Hbar].
  apply negb_true_iff in Hcode, Hbar, Hname.
  unfold findOffer. rewrite Hcode, Hbar, Hname. reflexivity.
Qed.

Lemma buildProducts_anonymous {C} (crm : CrmApi C) goods c :
  Forall (fun g => anonymous g = true) goods ->
  buildProducts crm goods c = (Ok [], c).
Proof.
  induction 1 as [|g rest Hg Hrest IH]; [reflexivity|].
  cbn [buildProducts]. fold (soldGood g).
  rewrite (findOffer_anonymous crm g c Hg), IH.
  unfold anonymous in Hg.
  apply andb_prop in Hg. destruct Hg as [Hg Hname].
  apply andb_prop in Hg. destruct Hg as [Hcode _].
  rewrite Hcode, Hname. reflexivity.
Qed.

(** X15. A receipt whose goods carry neither code nor barcode nor name (or
    that has no goods) leads to no request to KeyCRM at all: no look-up,
    no order; [processReceipt] returns normally, whatever the CRM would
    have answered. *)
Theorem anonymous_goods_make_no_order {C} (crm : CrmApi C) (env : Env)
    (receipt : Receipt) (c : C) :
  Forall (fun g => anonymous g = true) (goodsOf receipt) ->
  processReceipt crm env receipt c = (Ok (), c).
Proof.
  intros H. unfold processReceipt. fold (goodsOf receipt).
  rewrite (buildProducts_anonymous crm _ c H). reflexivity.
Qed.

Lemma anonymous_goods_make_no_order_witness :
  processReceipt storeCrm plainEnv anonymousReceipt widgetCrm = (Ok (), widgetCrm).
Proof.
  apply anonymous_goods_make_no_order.
  repeat constructor.
Defined.

(** X16. When the loop over the sold goods ends without error, every line
    it built is the mapping of one of the goods, in the order of the
    receipt, and a good that carries a code or a name always gets its
    line, found in KeyCRM or not: the number of lines lies between the
    number of such goods and the number of goods. *)
Theorem buildProducts_lines {C} (crm : CrmApi C) (goods : list GoodItem)
    (c c' : C) (lines : list ProductLine) :
  buildProducts crm goods c = (Ok lines, c') ->
  (length (List.filter identified goods) <= length lines <= length goods)%nat
  /\ exists kept offers,
       sublist kept goods /\ length offers = length kept
       /\ lines = zip_with toKeycrmProduct kept offers.
Proof.
  revert c c' lines.
  induction goods as [|g rest IH]; intros c c' lines.
  - cbn. intros [= <- _]. split; [cbn; lia|].
    exists [], []. split; [constructor|]. split; reflexivity.
  - cbn [buildProducts]. fold (soldGood g).
    destruct (findOffer crm (soldGood g) c) as [[offer|e] c1]; [|discriminate].
    destruct (buildProducts crm rest c1) as [[ls|e] c2] eqn:Hrest; [|discriminate].
    destruct (IH _ _ _ Hrest) as [[Hlo Hhi] (kept & offers & Hsub & Hlen & Hzip)].
    cbn [List.filter]. unfold identified at 1.
    destruct offer as [o|].
    + intros [= <- _]. split.
      * destruct (truthy (rg_code (soldGood g)) || truthy (rg_name (soldGood g)));
          cbn [length]; lia.
      * exists (g :: kept), (Some o :: offers).
        split; [constructor; exact Hsub|]. split; [cbn; congruence|].
        cbn. congruence.
    + destruct (truthy (rg_code (soldGood g))) eqn:Hcode;
        [|destruct (truthy (rg_name (soldGood g))) eqn:Hname];
        cbn [negb andb orb]; intros [= <- _].
      * split; [cbn [length]; lia|].
        exists (g :: kept), (None :: offers).
        split; [constructor; exact Hsub|]. split; [cbn; congruence|].
        cbn. congruence.
      * split; [cbn [length]; lia|].
        exists (g :: kept), (None :: offers).
        split; [constructor; exact Hsub|]. split; [cbn; congruence|].
        cbn. congruence.
      * split; [cbn [length]; lia|].
        exists kept, offers.
        split; [constructor; exact Hsub|]. split; [exact Hlen | exact Hzip].
Qed.

Lemma buildProducts_lines_witness :
  exists lines,
    buildProducts storeCrm [catalogLine; anonymousLine; unknownLine] widgetCrm
    = (Ok lines, widgetCrm)
    /\ length lines = 2%nat.
Proof.
  eexists. split; [vm_compute; reflexivity|].
  pose proof (buildProducts_lines storeCrm [catalogLine; anonymousLine; unknownLine]
                widgetCrm widgetCrm _ eq_refl) as [[Hlo Hhi] _].
  reflexivity.
Defined.
